(** * Row spans, validation codes and focus of the grid data engine

    A shallow embedding of [src/helper/rowSpan.ts], of the row-span and
    validation parts of [src/store/data.ts] and of [changeFocus] in
    [src/dispatch/focus.ts], with the properties of the row-span engine
    stated over it.

    Conventions of the embedding.
    - JavaScript numbers are modelled by [Z] (row indices, span counts and
      numeric cell values are integers in every use made here).
    - A value that may be [undefined] is an [option]; a run-time TypeError
      (reading a property of [undefined]) is the [None] result of the
      function that raises it.
    - Row objects are shared and mutated in place: a row is a reference
      ([loc]) into a store ([heap]), [Row[]] is a list of references.
    - A [rowSpanMap] (a JS object keyed by column name) is a [gmap], which
      holds its own properties; the functions iterating over [Object.keys]
      only touch, for each key, the entries of that very column, so the
      iteration order is irrelevant (lemma [keysLoop_order]).
    - A [rowSpanMap] is a plain object: the point lookups [getRowSpan] and
      [getRowSpanByRowKey], which read it at any column name the caller
      gives, find at a name that is no own property the member of
      [Object.prototype] of that name, when there is one ([readSpan]). The
      other functions are modelled on the entries that the maps hold.
    - A row's column values live in [cells]; column names are assumed to be
      distinct from the reserved property names of a row ([rowKey],
      [sortKey], [uniqueKey], [rowSpanMap], [_attributes]). *)

From stdpp Require Import base numbers option list gmap strings.

Local Open Scope string_scope.
Local Open Scope list_scope.
Local Open Scope nat_scope.

(** ** Values *)

Inductive CellValue : Type :=
  | Undefined
  | Null
  | Num (n : Z)
  | Str (s : string)
  | Bool (b : bool).

#[global] Instance CellValue_eq_dec : EqDecision CellValue.
Proof. solve_decision. Defined.

(** [RowKey] is [number | string]; where the source has [RowKey | null] the
    value [Null] is used. Keys are compared with [===]. *)
Abbreviation RowKey := CellValue.

(** JavaScript truthiness, as used by [a && b] and [if (a)]. *)
Definition truthy (v : CellValue) : bool :=
  match v with
  | Undefined | Null => false
  | Num n => negb (n =? 0)%Z
  | Str s => negb (bool_decide (s = ""))
  | Bool b => b
  end.

Definition truthyName (columnName : option string) : bool :=
  match columnName with
  | Some s => negb (bool_decide (s = ""))
  | None => false
  end.

(** ** Row spans and rows *)

(** [createRowSpan(mainRow, rowKey, count, spanCount)] builds the record. *)
Record RowSpan : Type := createRowSpan {
  mainRow : bool;
  mainRowKey : RowKey;
  count : Z;
  spanCount : Z
}.

#[global] Instance RowSpan_eq_dec : EqDecision RowSpan.
Proof. solve_decision. Defined.

Record Row : Type := mkRow {
  rowKey : RowKey;
  rowSpanMap : gmap string RowSpan;
  cells : gmap string CellValue
}.

(** [row[columnName]]: an absent property reads as [undefined]. *)
Definition getCell (row : Row) (columnName : string) : CellValue :=
  default Undefined (cells row !! columnName).

Definition setRowSpanMap (row : Row) (m : gmap string RowSpan) : Row :=
  mkRow (rowKey row) m (cells row).

Definition setCell (row : Row) (columnName : string) (v : CellValue) : Row :=
  mkRow (rowKey row) (rowSpanMap row) (<[columnName := v]> (cells row)).

(** [arr[i]] for a JS number [i]: [undefined] outside of the array. *)
Definition arrGet {A : Type} (arr : list A) (i : Z) : option A :=
  if (0 <=? i)%Z then arr !! Z.to_nat i else None.

(** ** Helpers of [helper/common.ts] and [helper/selection.ts] *)

(** Modelled from the spec: [helper/common.ts] is not among the sources.
    [findIndex] is the index of the first element satisfying the predicate;
    [findPropIndex('rowKey', key, rows)] is that index for the rows whose
    [rowKey === key], and [-1] when there is none (the value tested by
    [getRowSpanByRowKey]). *)
Fixpoint findIndex {A : Type} (p : A → bool) (arr : list A) : option nat :=
  match arr with
  | [] => None
  | x :: rest => if p x then Some 0 else S <$> findIndex p rest
  end.

Definition hasKey (key : RowKey) (row : Row) : bool :=
  bool_decide (rowKey row = key).

Definition findPropIndex (key : RowKey) (rows : list Row) : Z :=
  match findIndex (hasKey key) rows with
  | Some i => Z.of_nat i
  | None => (-1)%Z
  end.

(** Modelled from the spec: [findProp('rowKey', key, rows)] of
    [helper/common.ts], the first row whose [rowKey === key], [undefined]
    when there is none. *)
Definition findProp (key : RowKey) (rows : list Row) : option Row :=
  arrGet rows (findPropIndex key rows).

(** Modelled from the spec: [getSortedRange] of [helper/selection.ts]
    restores the start/end ordering of a range given end-before-start. *)
Definition getSortedRange (range : Z * Z) : Z * Z :=
  if (range.1 >? range.2)%Z then (range.2, range.1) else range.

(** ** Sort state *)

Record SortedColumn : Type := mkSortedColumn {
  columnName : string;
  ascending : bool
}.

Record SortState : Type := mkSortState {
  useClient : bool;
  columns : list SortedColumn
}.

(** [sortState.columns[0].columnName === 'sortKey']; reading the name of a
    missing first column raises. *)
Definition isRowSpanEnabled (sortState : SortState) : option bool :=
  match columns sortState with
  | [] => None
  | c :: _ => Some (bool_decide (columnName c = "sortKey"))
  end.

(** ** Point and range queries of [helper/rowSpan.ts] *)

Record ColumnInfo : Type := mkColumnInfo {
  name : string;
  hidden : bool
}.

(** The part of [Data] read by the queries. *)
Record Data : Type := mkData {
  rawData : list Row;
  sortState : SortState
}.

(** The names of the members of [Object.prototype] (those of ECMAScript
    and of its Annex B). *)
Definition objectPrototypeNames : list string :=
  ["constructor"; "hasOwnProperty"; "isPrototypeOf"; "propertyIsEnumerable";
   "toLocaleString"; "toString"; "valueOf"; "__proto__"; "__defineGetter__";
   "__defineSetter__"; "__lookupGetter__"; "__lookupSetter__"].

(** What [rowSpanMap[columnName]] evaluates to, when it is not [undefined]:
    the span held by the map under that name or, for a name that is no own
    property of the map, the member of [Object.prototype] of that name. Such
    a member is a function or, for [__proto__], the prototype itself: a
    truthy value with none of the properties of a span. *)
Inductive SpanValue : Type :=
  | OwnSpan (rowSpan : RowSpan)
  | Inherited.

#[global] Instance SpanValue_eq_dec : EqDecision SpanValue.
Proof. solve_decision. Defined.

(** [rowSpanMap[columnName]]; [None] is [undefined]. *)
Definition readSpan (rowSpanMap : gmap string RowSpan) (columnName : string)
  : option SpanValue :=
  match rowSpanMap !! columnName with
  | Some rowSpan => Some (OwnSpan rowSpan)
  | None =>
      if bool_decide (columnName ∈ objectPrototypeNames) then Some Inherited
      else None
  end.

(** [value.mainRowKey]: [undefined] on a member of [Object.prototype]. *)
Definition mainRowKeyOf (value : SpanValue) : CellValue :=
  match value with
  | OwnSpan rowSpan => mainRowKey rowSpan
  | Inherited => Undefined
  end.

(** A number computed from a property that may be [undefined]. *)
Inductive JsNumber : Type :=
  | Finite (n : Z)
  | NaN.

Definition getRowSpan (rowIndex : Z) (columnName : string) (data : list Row)
  : option (option SpanValue) :=
  row ← arrGet data rowIndex;
  Some (readSpan (rowSpanMap row) columnName).

(** [getRowSpan(...) || null]: [null] is the inner [None]; the outer
    [option] is the TypeError of [getRowSpan], which cannot arise since
    [rowIndex] is a found index. *)
Definition getRowSpanByRowKey (rowKey : RowKey) (columnName : string)
    (data : list Row) : option (option SpanValue) :=
  let rowIndex := findPropIndex rowKey data in
  if bool_decide (rowIndex = (-1)%Z) then Some None
  else getRowSpan rowIndex columnName data.

(** The body of the [for] loop of [getRowSpanRange] for one column index. *)
Definition rowSpanRangeStep (visibleColumns : list ColumnInfo)
    (rawData : list Row) (range : Z * Z) (index : Z) : option (Z * Z) :=
  let '(startRowIndex, endRowIndex) := range in
  startRow ← arrGet rawData startRowIndex;
  endRow ← arrGet rawData endRowIndex;
  column ← arrGet visibleColumns index;
  let columnName := name column in
  let startRowIndex' :=
    match rowSpanMap startRow !! columnName with
    | Some rowSpan =>
        let topRowSpanIndex := findPropIndex (mainRowKey rowSpan) rawData in
        if (startRowIndex >? topRowSpanIndex)%Z then topRowSpanIndex
        else startRowIndex
    | None => startRowIndex
    end in
  let endRowIndex' :=
    match rowSpanMap endRow !! columnName with
    | Some rowSpan =>
        let bottomRowSpanIndex :=
          (findPropIndex (mainRowKey rowSpan) rawData
           + spanCount rowSpan - 1)%Z in
        if (endRowIndex <? bottomRowSpanIndex)%Z then bottomRowSpanIndex
        else endRowIndex
    | None => endRowIndex
    end in
  Some (startRowIndex', endRowIndex').

Fixpoint foldOpt {A S : Type} (f : S → A → option S) (s : S) (l : list A)
  : option S :=
  match l with
  | [] => Some s
  | x :: rest => s' ← f s x; foldOpt f s' rest
  end.

(** One execution of the [for] loop over [startColumnIndex..endColumnIndex]. *)
Definition rowSpanRangePass (rowRange colRange : Z * Z)
    (visibleColumns : list ColumnInfo) (rawData : list Row) : option (Z * Z) :=
  foldOpt (rowSpanRangeStep visibleColumns rawData) rowRange
    (seqZ colRange.1 (colRange.2 - colRange.1 + 1)).

(** [getRowSpanRange] calls itself until the range is stable. The recursion
    is bounded by [fuel]; the outer [None] means that the bound was hit, the
    inner [None] is a TypeError. *)
Fixpoint getRowSpanRangeFuel (fuel : nat) (rowRange colRange : Z * Z)
    (visibleColumns : list ColumnInfo) (rawData : list Row)
  : option (option (Z * Z)) :=
  match fuel with
  | O => None
  | S fuel' =>
      match rowSpanRangePass rowRange colRange visibleColumns rawData with
      | None => Some None
      | Some (startRowIndex, endRowIndex) =>
          if bool_decide (startRowIndex ≠ rowRange.1)
             || bool_decide (endRowIndex ≠ rowRange.2)
          then getRowSpanRangeFuel fuel' (startRowIndex, endRowIndex)
                 colRange visibleColumns rawData
          else Some (Some (startRowIndex, endRowIndex))
      end
  end.

(** Every recursive call but the last one widens an in-bounds range, so
    [2 * length rawData + 2] calls always suffice (see
    [getRowSpanRangeFuel_enough]). *)
Definition getRowSpanRange (rowRange colRange : Z * Z)
    (visibleColumns : list ColumnInfo) (data : Data) : option (Z * Z) :=
  mjoin (getRowSpanRangeFuel (2 * length (rawData data) + 2)
           rowRange colRange visibleColumns (rawData data)).

Definition getMaxRowSpanRange (rowRange colRange : Z * Z)
    (visibleColumns : list ColumnInfo) (focusRowIndex : option Z)
    (data : Data) : option (Z * Z) :=
  let sortedColRange := getSortedRange colRange in
  let endRowIndex := rowRange.2 in
  let startRowIndex := rowRange.1 in
  let startRowIndex :=
    match focusRowIndex with
    | Some focus =>
        if bool_decide (startRowIndex ≠ focus) then focus else startRowIndex
    | None => startRowIndex
    end in
  let sortedRowRange := getSortedRange (startRowIndex, endRowIndex) in
  '(startRowSpanIndex, endRowSpanIndex) ←
    getRowSpanRange sortedRowRange sortedColRange visibleColumns data;
  Some (if (startRowIndex >? endRowIndex)%Z
        then (endRowSpanIndex, startRowSpanIndex)
        else (startRowSpanIndex, endRowSpanIndex)).

Definition getRowRangeWithRowSpan (rowRange colRange : Z * Z)
    (visibleColumnsWithRowHeader : list ColumnInfo) (rowIndex : option Z)
    (data : Data) : option (Z * Z) :=
  enabled ← isRowSpanEnabled (sortState data);
  if enabled : bool
  then getMaxRowSpanRange rowRange colRange visibleColumnsWithRowHeader
         rowIndex data
  else Some rowRange.

(** ** Construction of the row-span maps ([store/data.ts]) *)

(** An input row ([OptRow]): its [rowKey] property ([Undefined] when
    absent), its column values and [_attributes.rowSpan]. *)
Record OptRow : Type := mkOptRow {
  optRowKey : CellValue;
  optCells : gmap string CellValue;
  optRowSpan : option (gmap string Z)
}.

Record Column : Type := mkColumn {
  keyColumnName : option string;
  defaultValues : list (string * CellValue);
  allColumnMap : gmap string ColumnInfo
}.

(** [row[keyColumnName]] on an input row. *)
Definition optGet (row : OptRow) (prop : string) : CellValue :=
  if bool_decide (prop = "rowKey") then optRowKey row
  else default Undefined (optCells row !! prop).

(** Modelled from the spec: [isEmpty] of [helper/common.ts], on an object
    used as a map: [undefined], or no key at all. *)
Definition isEmpty {V : Type} (obj : option (gmap string V)) : bool :=
  match obj with
  | None => true
  | Some m => bool_decide (dom m = ∅)
  end.

(** Modelled from the spec: [setDefaultProp] of [helper/common.ts] fills a
    missing declared column with its configured default value. *)
Definition setDefaultProp (cs : gmap string CellValue)
    (def : string * CellValue) : gmap string CellValue :=
  match cs !! def.1 with
  | Some _ => cs
  | None => <[def.1 := def.2]> cs
  end.

Definition createMainRowSpanMap (rowSpan : option (gmap string Z))
    (rowKey : RowKey) : gmap string RowSpan :=
  match rowSpan with
  | None => ∅
  | Some m => (λ spanCount, createRowSpan true rowKey spanCount spanCount) <$> m
  end.

(** The callback of [Object.keys(prevRowSpanMap).forEach] in
    [createSubRowSpan]: the entry derived from the previous row's one. *)
Definition subRowSpanOf (prevRowSpan : RowSpan) : option RowSpan :=
  if (spanCount prevRowSpan >? 1 - count prevRowSpan)%Z
  then
    let subRowCount :=
      if (count prevRowSpan >=? 0)%Z then (-1)%Z
      else (count prevRowSpan - 1)%Z in
    Some (createRowSpan false (mainRowKey prevRowSpan) subRowCount
            (spanCount prevRowSpan))
  else None.

Definition createSubRowSpan (prevRowSpanMap : gmap string RowSpan)
  : gmap string RowSpan :=
  omap subRowSpanOf prevRowSpanMap.

(** [{ ...mainRowSpanMap, ...subRowSpanMap }]: on a common column the sub
    entry replaces the main one. The source reads the key from [row.rowKey],
    assigned just before the call. *)
Definition createRowSpanMap (rowKey : RowKey)
    (rowSpan : option (gmap string Z)) (prevRow : option Row)
  : gmap string RowSpan :=
  let mainRowSpanMap :=
    if isEmpty rowSpan then ∅ else createMainRowSpanMap rowSpan rowKey in
  let subRowSpanMap :=
    match prevRow with
    | Some prev =>
        if isEmpty (Some (rowSpanMap prev)) then ∅
        else createSubRowSpan (rowSpanMap prev)
    | None => ∅
    end in
  subRowSpanMap ∪ mainRowSpanMap.

Definition createRawRow (row : OptRow) (index : Z)
    (defaultValues : list (string * CellValue))
    (keyColumnName : option string) (prevRow : option Row) : Row :=
  let rowSpan := optRowSpan row in
  let rowKey :=
    match keyColumnName with
    | Some k => if truthyName (Some k) then optGet row k else Num index
    | None => Num index
    end in
  mkRow rowKey (createRowSpanMap rowKey rowSpan prevRow)
        (foldl setDefaultProp (optCells row) defaultValues).

(** [data.map((row, index, rows) => createRawRow(row, index, ...,
    { prevRow: prevRows ? prevRows[index] : rows[index - 1] }))].
    [createRawRow] fills its argument in place, so [rows[index - 1]] is the
    row built by the previous call ([built]); it is [undefined] at index 0. *)
Fixpoint createRawRows (defaultValues : list (string * CellValue))
    (keyColumnName : option string) (prevRows : option (list Row))
    (rows : list OptRow) (index : nat) (built : option Row) : list Row :=
  match rows with
  | [] => []
  | row :: rest =>
      let prevRow :=
        match prevRows with
        | Some prevs => prevs !! index
        | None => built
        end in
      let rawRow :=
        createRawRow row (Z.of_nat index) defaultValues keyColumnName prevRow in
      rawRow :: createRawRows defaultValues keyColumnName prevRows rest
                  (S index) (Some rawRow)
  end.

(** The [rawData] of [createData] for a dataset that is not a tree (the
    tree builder is an external collaborator). *)
Definition createData (data : list OptRow) (column : Column)
    (lazyObservable : bool) (prevRows : option (list Row)) : list Row :=
  let keyColumnName' :=
    if lazyObservable then keyColumnName column else Some "rowKey" in
  createRawRows (defaultValues column) keyColumnName' prevRows data 0 None.

(** ** Maintenance of the span maps on append and remove *)

(** Rows are objects mutated in place; [data : Row[]] lists references. *)
Definition loc : Type := nat.
Definition heap : Type := loc → Row.

Definition heapSet (h : heap) (l : loc) (row : Row) : heap :=
  λ l', if decide (l' = l) then row else h l'.

Definition rowsOf (data : list loc) (h : heap) : list Row := h <$> data.

(** [findProp('rowKey', key, data)] as a reference. *)
Definition findPropLoc (key : RowKey) (data : list loc) (h : heap)
  : option loc :=
  arrGet data (findPropIndex key (rowsOf data h)).

(** [row.rowSpanMap[columnName] = rowSpan] *)
Definition setRowSpan (h : heap) (row : loc) (columnName : string)
    (rowSpan : RowSpan) : heap :=
  heapSet h row
    (setRowSpanMap (h row) (<[columnName := rowSpan]> (rowSpanMap (h row)))).

(** [delete row.rowSpanMap[columnName]] *)
Definition deleteRowSpan (h : heap) (row : loc) (columnName : string) : heap :=
  heapSet h row
    (setRowSpanMap (h row) (delete columnName (rowSpanMap (h row)))).

(** The body of the [for] loop of [updateSubRowSpan]. *)
Definition updateSubRowSpanStep (data : list loc) (mainRow : loc)
    (columnName : string) (mainRowIndex spanCount : Z) (h : heap)
    (offset : Z) : option heap :=
  row ← arrGet data (mainRowIndex + offset)%Z;
  Some (setRowSpan h row columnName
          (createRowSpan false (rowKey (h mainRow)) (- offset) spanCount)).

Definition updateSubRowSpan (data : list loc) (mainRow : loc)
    (columnName : string) (startOffset spanCount : Z) (h : heap)
  : option heap :=
  let mainRowIndex := findPropIndex (rowKey (h mainRow)) (rowsOf data h) in
  foldOpt (updateSubRowSpanStep data mainRow columnName mainRowIndex spanCount)
    h (seqZ startOffset (spanCount - startOffset)).

(** [Object.keys] of a span map. *)
Definition objectKeys {V : Type} (m : gmap string V) : list string :=
  (map_to_list m).*1.

(** The callback of [Object.keys(prevRowSpanMap).forEach] in
    [updateRowSpanWhenAppend]. *)
Definition appendStep (data : list loc) (prevRow : loc)
    (extendPrevRowSpan : bool) (h : heap) (columnName : string)
  : option heap :=
  match rowSpanMap (h prevRow) !! columnName with
  | None => Some h
  | Some prevRowSpan =>
      let keyRow := mainRow prevRowSpan in
      mainRow' ←
        (if keyRow then Some prevRow
         else findPropLoc (mainRowKey prevRowSpan) data h);
      mainRowSpan ← rowSpanMap (h mainRow') !! columnName;
      let startOffset :=
        if keyRow || extendPrevRowSpan then 1%Z
        else (- count prevRowSpan + 1)%Z in
      if (spanCount mainRowSpan >? startOffset)%Z then
        let grown :=
          createRowSpan (mainRow mainRowSpan) (mainRowKey mainRowSpan)
            (count mainRowSpan + 1) (spanCount mainRowSpan + 1) in
        updateSubRowSpan data mainRow' columnName 1 (spanCount grown)
          (setRowSpan h mainRow' columnName grown)
      else Some h
  end.

Definition updateRowSpanWhenAppend (data : list loc) (prevRow : loc)
    (extendPrevRowSpan : bool) (h : heap) : option heap :=
  let prevRowSpanMap := rowSpanMap (h prevRow) in
  if isEmpty (Some prevRowSpanMap) then Some h
  else foldOpt (appendStep data prevRow extendPrevRowSpan) h
         (objectKeys prevRowSpanMap).

(** The last [if] of the callback of [updateRowSpanWhenRemove]. *)
Definition relinkOrDelete (data : list loc) (mainRow' : loc)
    (columnName : string) (spanCount' : Z) (h : heap) : option heap :=
  if (spanCount' >? 1)%Z then
    mainRowSpan ← rowSpanMap (h mainRow') !! columnName;
    updateSubRowSpan data mainRow' columnName 1 spanCount'
      (setRowSpan h mainRow' columnName
         (createRowSpan (mainRow mainRowSpan) (mainRowKey mainRowSpan)
            spanCount' spanCount'))
  else Some (deleteRowSpan h mainRow' columnName).

(** The callback of [Object.keys(removedRowSpanMap).forEach]. *)
Definition removeStep (data : list loc) (removedRow nextRow : loc)
    (keepRowSpanData : bool) (h : heap) (columnName : string)
  : option heap :=
  removedRowSpan ← rowSpanMap (h removedRow) !! columnName;
  if mainRow removedRowSpan then
    let spanCount' := (count removedRowSpan - 1)%Z in
    h1 ← (if (spanCount' >? 1)%Z then
            mainRowSpan ← rowSpanMap (h nextRow) !! columnName;
            Some (setRowSpan h nextRow columnName
                    (createRowSpan true (rowKey (h nextRow))
                       (count mainRowSpan) (spanCount mainRowSpan)))
          else Some h);
    let h2 :=
      if keepRowSpanData
      then heapSet h1 nextRow
             (setCell (h1 nextRow) columnName
                (getCell (h1 removedRow) columnName))
      else h1 in
    relinkOrDelete data nextRow columnName spanCount' h2
  else
    mainRow' ← findPropLoc (mainRowKey removedRowSpan) data h;
    mainRowSpan ← rowSpanMap (h mainRow') !! columnName;
    relinkOrDelete data mainRow' columnName (spanCount mainRowSpan - 1) h.

Definition updateRowSpanWhenRemove (data : list loc)
    (removedRow nextRow : loc) (keepRowSpanData : bool) (h : heap)
  : option heap :=
  let removedRowSpanMap := rowSpanMap (h removedRow) in
  if isEmpty (Some removedRowSpanMap) then Some h
  else foldOpt (removeStep data removedRow nextRow keepRowSpanData) h
         (objectKeys removedRowSpanMap).

(** ** Focus ([dispatch/focus.ts]) *)

Module Focus.
Record t : Type := mk {
  rowKey : CellValue;
  columnName : option string;
  prevRowKey : CellValue;
  prevColumnName : option string;
  editingAddress : option (CellValue * string);
  navigating : bool;
  forcedDestroyEditing : bool
}.

Definition setPrevColumnName (f : t) (v : option string) : t :=
  mk (rowKey f) (columnName f) (prevRowKey f) v
     (editingAddress f) (navigating f) (forcedDestroyEditing f).
Definition setPrevRowKey (f : t) (v : CellValue) : t :=
  mk (rowKey f) (columnName f) v (prevColumnName f)
     (editingAddress f) (navigating f) (forcedDestroyEditing f).
Definition setColumnName (f : t) (v : option string) : t :=
  mk (rowKey f) v (prevRowKey f) (prevColumnName f)
     (editingAddress f) (navigating f) (forcedDestroyEditing f).
Definition setRowKey (f : t) (v : CellValue) : t :=
  mk v (columnName f) (prevRowKey f) (prevColumnName f)
     (editingAddress f) (navigating f) (forcedDestroyEditing f).
End Focus.

(** The properties carried by the [focusChange] event. *)
Module GridEvent.
Record t : Type := mk {
  rowKey : CellValue;
  columnName : option string;
  prevColumnName : option string;
  prevRowKey : CellValue
}.
End GridEvent.

Record Store : Type := mkStore {
  data : Data;
  focus : Focus.t;
  column : Column
}.

(** Modelled from the spec: [isFocusedCell] of [query/focus.ts], "already
    focused there": both parts of the address are the focused ones. *)
Definition isFocusedCell (focus : Focus.t) (rowKey : CellValue)
    (columnName : option string) : bool :=
  bool_decide (Focus.rowKey focus = rowKey)
  && bool_decide (Focus.columnName focus = columnName).

(** Modelled from the spec: [isHiddenColumn] of [helper/column.ts] reads the
    [hidden] flag of the column's entry in [allColumnMap]; a name without an
    entry raises. *)
Definition isHiddenColumn (column : Column) (columnName : string)
  : option bool :=
  hidden <$> allColumnMap column !! columnName.

(** [changeFocus]. The event bus is an external collaborator: [isStopped]
    tells whether the listeners of [focusChange] stopped the event. The
    result lists the states of [store.focus] after each of the assignments
    made, in order: no state when the call returns early or the event is
    stopped, four states otherwise. [None] is a TypeError. *)
Definition changeFocus (store : Store) (rowKey : CellValue)
    (columnName : option string) (isStopped : GridEvent.t → bool)
  : option (list Focus.t) :=
  let focus := focus store in
  skip ←
    (if isFocusedCell focus rowKey columnName then Some true
     else
       match columnName with
       | Some c =>
           if truthyName columnName then isHiddenColumn (column store) c
           else Some false
       | None => Some false
       end);
  if skip : bool then Some []
  else
    let rawData := rawData (data store) in
    let sortState := sortState (data store) in
    let gridEvent :=
      GridEvent.mk rowKey columnName (Focus.columnName focus)
        (Focus.rowKey focus) in
    if isStopped gridEvent then Some []
    else
      focusRowKey ←
        match columnName with
        | Some c =>
            if truthy rowKey && truthyName columnName then
              enabled ← isRowSpanEnabled sortState;
              if enabled : bool then
                rowSpan ← getRowSpanByRowKey rowKey c rawData;
                Some (match rowSpan with
                      | Some rs => mainRowKeyOf rs
                      | None => rowKey
                      end)
              else Some rowKey
            else Some rowKey
        | None => Some rowKey
        end;
      let f1 := Focus.setPrevColumnName focus (Focus.columnName focus) in
      let f2 := Focus.setPrevRowKey f1 (Focus.rowKey f1) in
      let f3 := Focus.setColumnName f2 columnName in
      let f4 := Focus.setRowKey f3 focusRowKey in
      Some [f1; f2; f3; f4].

(** The focus state once [changeFocus] has returned. *)
Definition focusAfter (store : Store) (writes : list Focus.t) : Focus.t :=
  default (focus store) (last writes).

(** ** Validation codes ([store/data.ts]) *)

Inductive ValidationType : Type :=
  | REQUIRED
  | TYPE_STRING
  | TYPE_NUMBER
  | MIN
  | MAX
  | REGEXP
  | VALIDATOR_FN.

#[global] Instance ValidationType_eq_dec : EqDecision ValidationType.
Proof. solve_decision. Defined.

Inductive DataType : Type :=
  | TString
  | TNumber.

#[global] Instance DataType_eq_dec : EqDecision DataType.
Proof. solve_decision. Defined.

(** The [validation] option of a column. [regExp] is represented by its
    [test] method and [validatorFn] by the truthiness of its result. *)
Module Validation.
Record t : Type := mk {
  required : bool;
  dataType : option DataType;
  min : option Z;
  max : option Z;
  regExp : option (string → bool);
  validatorFn : option (CellValue → bool)
}.
End Validation.

(** Modelled from the spec: [isBlank] of [helper/common.ts]: a blank value
    is the empty string, [null] or [undefined]. *)
Definition isBlank (value : CellValue) : bool :=
  match value with
  | Str s => bool_decide (s = "")
  | Undefined | Null => true
  | _ => false
  end.

(** Modelled from the spec: [isString] and [isNumber] of
    [helper/common.ts] test the type of the value. *)
Definition isString (value : CellValue) : bool :=
  match value with Str _ => true | _ => false end.

Definition isNumber (value : CellValue) : bool :=
  match value with Num _ => true | _ => false end.

(** [cond && push(code)] *)
Definition pushIf (cond : bool) (code : ValidationType)
    (invalidStates : list ValidationType) : list ValidationType :=
  if cond then (invalidStates ++ [code])%list else invalidStates.

(** [min && isNumber(value) && value < min]: a bound is looked at when it
    is truthy, that is defined and different from [0]. *)
Definition belowMin (value : CellValue) (min : option Z) : bool :=
  match min, value with
  | Some m, Num v => negb (m =? 0)%Z && (v <? m)%Z
  | _, _ => false
  end.

Definition aboveMax (value : CellValue) (max : option Z) : bool :=
  match max, value with
  | Some m, Num v => negb (m =? 0)%Z && (v >? m)%Z
  | _, _ => false
  end.

Definition failsRegExp (value : CellValue) (regExp : option (string → bool))
  : bool :=
  match regExp, value with
  | Some test, Str s => negb (test s)
  | _, _ => false
  end.

Definition failsValidatorFn (value : CellValue)
    (validatorFn : option (CellValue → bool)) : bool :=
  match validatorFn with
  | Some fn => negb (fn value)
  | None => false
  end.

Definition getValidationCode (value : CellValue)
    (validation : option Validation.t) : list ValidationType :=
  match validation with
  | None => []
  | Some v =>
      let invalidStates := [] in
      let invalidStates :=
        pushIf (Validation.required v && isBlank value) REQUIRED
          invalidStates in
      let invalidStates :=
        pushIf (bool_decide (Validation.dataType v = Some TString)
                && negb (isString value)) TYPE_STRING invalidStates in
      let invalidStates :=
        pushIf (bool_decide (Validation.dataType v = Some TNumber)
                && negb (isNumber value)) TYPE_NUMBER invalidStates in
      let invalidStates :=
        pushIf (belowMin value (Validation.min v)) MIN invalidStates in
      let invalidStates :=
        pushIf (aboveMax value (Validation.max v)) MAX invalidStates in
      let invalidStates :=
        pushIf (failsRegExp value (Validation.regExp v)) REGEXP
          invalidStates in
      pushIf (failsValidatorFn value (Validation.validatorFn v)) VALIDATOR_FN
        invalidStates
  end.

(** The four assignments of [changeFocus], in order: first the previous
    address, then the new one. *)
Definition focusWrites (focus : Focus.t) (columnName : option string)
    (focusRowKey : CellValue) : list Focus.t :=
  let f1 := Focus.setPrevColumnName focus (Focus.columnName focus) in
  let f2 := Focus.setPrevRowKey f1 (Focus.rowKey focus) in
  let f3 := Focus.setColumnName f2 columnName in
  [f1; f2; f3; Focus.setRowKey f3 focusRowKey].

(** The key given to a row by [createRawRow]; it depends on the input row
    and on its index only. *)
Definition keyOf (keyColumnName : option string) (row : OptRow)
    (index : nat) : RowKey :=
  rowKey (createRawRow row (Z.of_nat index) [] keyColumnName None).

(** The entry of one column of [createRowSpanMap], from the entry of the
    previous row ([None] when there is no previous row or no entry) and the
    span declared by the row itself. *)
Definition entryOf (key : RowKey) (declared : option Z)
    (prevEntry : option RowSpan) : option RowSpan :=
  match prevEntry ≫= subRowSpanOf with
  | Some sub => Some sub
  | None => (λ spanCount, createRowSpan true key spanCount spanCount) <$> declared
  end.

(** ** Further queries of [helper/rowSpan.ts] *)

(** [getMainRowSpan]: the outer [None] is a TypeError (no row at the index
    of the main row's key), the inner one is [undefined]. *)
Definition getMainRowSpan (columnName : string) (rowSpan : RowSpan)
    (data : list Row) : option (option RowSpan) :=
  if mainRow rowSpan then Some (Some rowSpan)
  else
    let mainRowIndex := findPropIndex (mainRowKey rowSpan) data in
    row ← arrGet data mainRowIndex;
    Some (rowSpanMap row !! columnName).

Definition getRowSpanTopIndex (rowIndex : Z) (columnName : string)
    (data : list Row) : option Z :=
  rowSpan ← getRowSpan rowIndex columnName data;
  match rowSpan with
  | None => Some rowIndex
  | Some rs => Some (findPropIndex (mainRowKeyOf rs) data)
  end.

(** [mainRowIndex + rowSpan.spanCount - 1] is [NaN] when [spanCount] is
    [undefined]. *)
Definition getRowSpanBottomIndex (rowIndex : Z) (columnName : string)
    (data : list Row) : option JsNumber :=
  rowSpan ← getRowSpan rowIndex columnName data;
  match rowSpan with
  | None => Some (Finite rowIndex)
  | Some rs =>
      let mainRowIndex := findPropIndex (mainRowKeyOf rs) data in
      match rs with
      | OwnSpan rowSpan => Some (Finite (mainRowIndex + spanCount rowSpan - 1))
      | Inherited => Some NaN
      end
  end.

(** The callback of [reduce] in [getMaxRowSpanCount]. *)
Definition maxSpanCountStep (rowSpanMap : gmap string RowSpan) (acc : Z)
    (columnName : string) : option Z :=
  rowSpan ← rowSpanMap !! columnName;
  Some (Z.max acc (spanCount rowSpan)).

Definition getMaxRowSpanCount (rowIndex : Z) (data : list Row) : option Z :=
  row ← arrGet data rowIndex;
  if isEmpty (Some (rowSpanMap row)) then Some 0%Z
  else foldOpt (maxSpanCountStep (rowSpanMap row)) 0%Z
         (objectKeys (rowSpanMap row)).

(** A pixel value read from the arrays of [RowCoords] and summed with [+]:
    a number, [undefined] (read outside of the array) or [NaN] (a sum with
    an operand that is not a number). *)
Inductive Pixel : Type :=
  | Px (n : Z)
  | PxUndefined
  | PxNaN.

Definition pixelAt (arr : list Z) (i : Z) : Pixel :=
  match arrGet arr i with
  | Some n => Px n
  | None => PxUndefined
  end.

Definition pixelAdd (a b : Pixel) : Pixel :=
  match a, b with
  | Px x, Px y => Px (x + y)
  | _, _ => PxNaN
  end.

Record RowCoords : Type := mkRowCoords {
  offsets : list Z;
  heights : list Z
}.

Definition getVerticalPosWithRowSpan (columnName : string) (rowSpan : RowSpan)
    (rowCoords : RowCoords) (data : list Row) : option (Pixel * Pixel) :=
  found ← getMainRowSpan columnName rowSpan data;
  mainRowSpan ← found;
  let mainRowIndex := findPropIndex (mainRowKey mainRowSpan) data in
  let top := pixelAt (offsets rowCoords) mainRowIndex in
  let bottom :=
    foldl (λ bottom count,
             pixelAdd bottom (pixelAt (heights rowCoords) (mainRowIndex + count)))
      top (seqZ 0 (spanCount mainRowSpan)) in
  Some (top, bottom).

(** ** Further transitions of [dispatch/focus.ts] *)

Definition initFocus (focus : Focus.t) : Focus.t :=
  Focus.mk Null None Null None None false (Focus.forcedDestroyEditing focus).

(** Modelled from the spec: [isEditingCell] of [query/focus.ts], "the
    address is still the one being edited". *)
Definition isEditingCell (focus : Focus.t) (rowKey : CellValue)
    (columnName : string) : bool :=
  match Focus.editingAddress focus with
  | Some (k, c) => bool_decide (k = rowKey) && bool_decide (c = columnName)
  | None => false
  end.

(** [finishEditing]: [isStopped] tells whether the listeners of
    [editingFinish] stopped the event; [forceSyncRendering] runs its
    argument at once. The event carries [rowKey], [columnName], [value]. *)
Definition finishEditing (focus : Focus.t) (rowKey : CellValue)
    (columnName : string) (value : CellValue)
    (isStopped : CellValue * string * CellValue → bool) : Focus.t :=
  if isStopped (rowKey, columnName, value) then focus
  else if isEditingCell focus rowKey columnName then
    Focus.mk (Focus.rowKey focus) (Focus.columnName focus)
      (Focus.prevRowKey focus) (Focus.prevColumnName focus) None true
      (Focus.forcedDestroyEditing focus)
  else focus.

(** ** Filters and paging of [create] ([store/data.ts]) *)

Record Filter : Type := mkFilter {
  filterColumnName : string;
  conditionFn : option (CellValue → bool)
}.

(** [acc.filter(row => conditionFn!(row[columnName]))]: calling a missing
    [conditionFn] raises, which takes a row to call it on. *)
Definition filterRows (acc : list Row) (filter : Filter) : option (list Row) :=
  match conditionFn filter with
  | Some fn =>
      Some (List.filter (λ row, fn (getCell row (filterColumnName filter))) acc)
  | None => match acc with [] => Some [] | _ :: _ => None end
  end.

Definition applyFilterToRawData (rawData : list Row)
    (filters : option (list Filter)) : option (list Row) :=
  match filters with
  | Some fs => foldOpt filterRows rawData fs
  | None => Some rawData
  end.

(** The getters [filteredRawData] and [filteredIndex] of the object made by
    [create]. *)
Definition filteredRawData (rawData : list Row)
    (filters : option (list Filter)) : option (list Row) :=
  match filters with
  | Some _ => applyFilterToRawData rawData filters
  | None => Some rawData
  end.

Definition filteredIndex (rawData : list Row)
    (filters : option (list Filter)) : option (list Z) :=
  match filteredRawData rawData filters with
  | Some rows => Some ((λ row, findPropIndex (rowKey row) rawData) <$> rows)
  | None => None
  end.

Record PageOptions : Type := mkPageOptions {
  pageUseClient : bool;
  page : Z;
  perPage : Z
}.

(** The getter [pageRowRange]; [length] is [rawData.length]. *)
Definition pageRowRange (length : Z) (pageOptions : PageOptions) : Z * Z :=
  let start := 0%Z in
  let end' := length in
  if pageUseClient pageOptions then
    let pageRowLastIndex := (page pageOptions * perPage pageOptions)%Z in
    let start := ((page pageOptions - 1) * perPage pageOptions)%Z in
    let end' := if (pageRowLastIndex <? end')%Z then pageRowLastIndex else end' in
    (start, end')
  else (start, end').

(** A row passes the filters: each of them has a [conditionFn], which
    holds of the value of the row on the filter's column. *)
Definition passesFilters (filters : list Filter) (row : Row) : bool :=
  forallb (λ filter,
             match conditionFn filter with
             | Some fn => fn (getCell row (filterColumnName filter))
             | None => false
             end) filters.

(** ** Vocabulary of the statements on append and remove *)

(** Two stores agree on a column: same row keys, same span entries and same
    values on that column. *)
Definition sameColumn (c : string) (h1 h2 : heap) : Prop :=
  ∀ l, rowKey (h1 l) = rowKey (h2 l)
       ∧ rowSpanMap (h1 l) !! c = rowSpanMap (h2 l) !! c
       ∧ getCell (h1 l) c = getCell (h2 l) c.

(** [data] holds a row at each of the offsets [1 .. spanCount - 1] from
    [mainRowIndex]. *)
Definition rowsPresent (data : list loc) (mainRowIndex spanCount : Z) : bool :=
  forallb (λ offset, bool_decide (is_Some (arrGet data (mainRowIndex + offset)%Z)))
    (seqZ 1 (spanCount - 1)).

(** The span of [prevRow] on a column is intact enough for
    [updateRowSpanWhenAppend] not to raise on it: the main row is found, it
    has an entry and, when the span is to grow, the rows of the grown span
    are in [data]. *)
Definition appendSafe (data : list loc) (prevRow : loc)
    (extendPrevRowSpan : bool) (h : heap) (columnName : string) : bool :=
  match rowSpanMap (h prevRow) !! columnName with
  | None => true
  | Some prevRowSpan =>
      match (if mainRow prevRowSpan then Some prevRow
             else findPropLoc (mainRowKey prevRowSpan) data h) with
      | None => false
      | Some mainRow' =>
          match rowSpanMap (h mainRow') !! columnName with
          | None => false
          | Some mainRowSpan =>
              let startOffset :=
                if mainRow prevRowSpan || extendPrevRowSpan then 1%Z
                else (- count prevRowSpan + 1)%Z in
              if (spanCount mainRowSpan >? startOffset)%Z
              then rowsPresent data
                     (findPropIndex (rowKey (h mainRow')) (rowsOf data h))
                     (spanCount mainRowSpan + 1)
              else true
          end
      end
  end.

(** The same for [updateRowSpanWhenRemove]: when the main row is removed and
    more than one row remains, [nextRow] has an entry and the remaining rows
    are in [data] after it; when a sub row is removed, the main row is found
    and has an entry, and the remaining rows are in [data] after it. *)
Definition removeSafe (data : list loc) (removedRow nextRow : loc)
    (h : heap) (columnName : string) : bool :=
  match rowSpanMap (h removedRow) !! columnName with
  | None => false
  | Some removedRowSpan =>
      if mainRow removedRowSpan then
        if (count removedRowSpan - 1 >? 1)%Z
        then bool_decide (is_Some (rowSpanMap (h nextRow) !! columnName))
             && rowsPresent data
                  (findPropIndex (rowKey (h nextRow)) (rowsOf data h))
                  (count removedRowSpan - 1)
        else true
      else
        match findPropLoc (mainRowKey removedRowSpan) data h with
        | None => false
        | Some mainRow' =>
            match rowSpanMap (h mainRow') !! columnName with
            | None => false
            | Some mainRowSpan =>
                if (spanCount mainRowSpan - 1 >? 1)%Z
                then rowsPresent data
                       (findPropIndex (rowKey (h mainRow')) (rowsOf data h))
                       (spanCount mainRowSpan - 1)
                else true
            end
        end
  end.

(** The span that [row] belongs to on a column is intact in [data]: the
    entry of [row] names a row of [data] that holds the main entry of the
    span, [row] is the row at the offset its entry tells, and each of the
    rows below the main row holds the sub entry of its offset. A row without
    entry on the column has no span to be intact. *)
Definition intactSpan (data : list loc) (h : heap) (row : loc)
    (columnName : string) : bool :=
  match rowSpanMap (h row) !! columnName with
  | None => true
  | Some rowSpan =>
      match findPropLoc (mainRowKey rowSpan) data h with
      | None => false
      | Some main =>
          let mainRowIndex :=
            findPropIndex (rowKey (h main)) (rowsOf data h) in
          let spanCount' := spanCount rowSpan in
          let offset :=
            if mainRow rowSpan then 0%Z else (- count rowSpan)%Z in
          bool_decide (rowSpanMap (h main) !! columnName
                       = Some (createRowSpan true (rowKey (h main))
                                 spanCount' spanCount'))
          && (0 <=? offset)%Z && (offset <? spanCount')%Z
          && bool_decide (arrGet data (mainRowIndex + offset) = Some row)
          && forallb
               (λ offset',
                  match arrGet data (mainRowIndex + offset') with
                  | Some r =>
                      bool_decide
                        (rowSpanMap (h r) !! columnName
                         = Some (createRowSpan false (rowKey (h main))
                                   (- offset') spanCount'))
                  | None => false
                  end)
               (seqZ 1 (spanCount' - 1))
      end
  end.

(** The rows of a list as a store: the reference of a row is its index. *)
Definition heapOf (rows : list Row) : heap :=
  λ l : nat, default (mkRow Undefined ∅ ∅) (rows !! l).

(** * Properties *)

(** ** Array access and key lookup *)

Lemma arrGet_nat {A : Type} (arr : list A) (i : nat) :
  arrGet arr (Z.of_nat i) = arr !! i.
Proof.
  unfold arrGet. rewrite Nat2Z.id.
  destruct (Z.leb_spec 0 (Z.of_nat i)); [done | lia].
Qed.

Lemma arrGet_Some {A : Type} (arr : list A) (i : Z) (x : A) :
  arrGet arr i = Some x ↔ (0 ≤ i)%Z ∧ arr !! Z.to_nat i = Some x.
Proof.
  unfold arrGet. destruct (Z.leb_spec 0 i); split; intros; try tauto;
    try discriminate; intuition lia.
Qed.

Lemma arrGet_neg {A : Type} (arr : list A) (i : Z) :
  (i < 0)%Z → arrGet arr i = None.
Proof. unfold arrGet. destruct (Z.leb_spec 0 i); [lia | done]. Qed.

Lemma findIndex_Some {A : Type} (p : A → bool) (arr : list A) (i : nat) :
  findIndex p arr = Some i ↔
  (∃ x, arr !! i = Some x ∧ p x = true) ∧
  (∀ j y, j < i → arr !! j = Some y → p y = false).
Proof.
  revert i. induction arr as [|a arr IH]; intros i; simpl.
  - split; [done | intros [(x & Hx & _) _]; done].
  - destruct (p a) eqn:Hpa.
    + split.
      * intros [= <-]. split; [by exists a | intros; lia].
      * intros [(x & Hx & Hpx) Hfirst]. destruct i as [|i]; [done |].
        specialize (Hfirst 0 a ltac:(lia) eq_refl). congruence.
    + split.
      * intros Hk. destruct i as [|i].
        { destruct (findIndex p arr); discriminate. }
        assert (findIndex p arr = Some i) as Hi.
        { destruct (findIndex p arr); simpl in Hk; congruence. }
        apply IH in Hi as [Hx Hfirst]. split; [done |].
        intros [|j] y Hj Hy; simpl in Hy; [congruence |].
        apply (Hfirst j); [lia | done].
      * intros [(x & Hx & Hpx) Hfirst]. destruct i as [|i].
        { simpl in Hx. congruence. }
        assert (findIndex p arr = Some i) as ->; [| done].
        apply IH. split; [by exists x |].
        intros j y Hj Hy. apply (Hfirst (S j)); [lia | done].
Qed.

Lemma findIndex_None {A : Type} (p : A → bool) (arr : list A) :
  findIndex p arr = None ↔ ∀ x, x ∈ arr → p x = false.
Proof.
  induction arr as [|a arr IH]; simpl.
  - split; [intros _ x Hx; by apply elem_of_nil in Hx | done].
  - destruct (p a) eqn:Hpa.
    + split; [done |]. intros H. specialize (H a ltac:(left)). congruence.
    + split.
      * intros Hk x [-> | Hx]%elem_of_cons; [done |].
        apply IH; [| done]. by destruct (findIndex p arr).
      * intros H. assert (findIndex p arr = None) as ->; [| done].
        apply IH. intros x Hx. apply H. by right.
Qed.

Lemma findPropIndex_found (key : RowKey) (rows : list Row) (i : nat) (row : Row) :
  rows !! i = Some row → rowKey row = key →
  (∀ j r, j < i → rows !! j = Some r → rowKey r ≠ key) →
  findPropIndex key rows = Z.of_nat i.
Proof.
  intros Hi Hkey Hfirst. unfold findPropIndex.
  assert (findIndex (hasKey key) rows = Some i) as ->; [| done].
  apply findIndex_Some. split.
  - exists row. split; [done |]. unfold hasKey. by apply bool_decide_eq_true.
  - intros j r Hj Hr. unfold hasKey. apply bool_decide_eq_false. eauto.
Qed.

Lemma findPropIndex_missing (key : RowKey) (rows : list Row) :
  findPropIndex key rows = (-1)%Z ↔ ∀ row, row ∈ rows → rowKey row ≠ key.
Proof.
  unfold findPropIndex.
  destruct (findIndex (hasKey key) rows) as [i|] eqn:Hi.
  - split; [lia |]. intros H. exfalso.
    apply findIndex_Some in Hi as [(x & Hx & Hpx) _].
    apply (H x); [by eapply list_elem_of_lookup_2 |].
    unfold hasKey in Hpx. by apply bool_decide_eq_true in Hpx.
  - split; [| done]. intros _ row Hrow.
    rewrite findIndex_None in Hi. specialize (Hi row Hrow).
    unfold hasKey in Hi. by apply bool_decide_eq_false in Hi.
Qed.

Lemma findProp_Some (key : RowKey) (rows : list Row) (row : Row) :
  findProp key rows = Some row →
  ∃ i, findPropIndex key rows = Z.of_nat i ∧ rows !! i = Some row
       ∧ rowKey row = key.
Proof.
  unfold findProp, findPropIndex.
  destruct (findIndex (hasKey key) rows) as [i|] eqn:Hi.
  - rewrite arrGet_nat. intros Hrow. exists i. split; [done |]. split; [done |].
    apply findIndex_Some in Hi as [(x & Hx & Hpx) _].
    unfold hasKey in Hpx. apply bool_decide_eq_true in Hpx. congruence.
  - by rewrite arrGet_neg.
Qed.

Lemma findProp_present (key : RowKey) (rows : list Row) (row : Row) :
  row ∈ rows → rowKey row = key → is_Some (findProp key rows).
Proof.
  intros Hin Hkey. unfold findProp, findPropIndex.
  destruct (findIndex (hasKey key) rows) as [i|] eqn:Hi.
  - rewrite arrGet_nat. apply findIndex_Some in Hi as [(x & Hx & _) _]. eauto.
  - rewrite findIndex_None in Hi. specialize (Hi row Hin).
    unfold hasKey in Hi. by apply bool_decide_eq_false in Hi.
Qed.

(** ** Span-aware ranges are switched off by a real sort column *)

(** C6. [isRowSpanEnabled] answers [true] exactly when the sort state has a
    primary column and that column is the synthetic ['sortKey']; and
    whenever it answers [false], [getRowRangeWithRowSpan] returns the row
    range it was given, whatever the column range, the focus index and the
    rows (with their span maps) are. *)
Theorem isRowSpanEnabled_gates_row_range (sortState : SortState) :
  (isRowSpanEnabled sortState = Some true ↔
   ∃ c rest, columns sortState = c :: rest ∧ columnName c = "sortKey") ∧
  (isRowSpanEnabled sortState = Some false →
   ∀ rowRange colRange visibleColumns rowIndex rows,
     getRowRangeWithRowSpan rowRange colRange visibleColumns rowIndex
       (mkData rows sortState) = Some rowRange).
Proof.
  split.
  - unfold isRowSpanEnabled. destruct (columns sortState) as [|c rest].
    + split; [done | intros (c & rest & H & _); done].
    + split.
      * intros [= H]. apply bool_decide_eq_true in H. eauto.
      * intros (c' & rest' & [= <- <-] & H). f_equal.
        by apply bool_decide_eq_true.
  - intros Hoff rowRange colRange visibleColumns rowIndex rows.
    unfold getRowRangeWithRowSpan. simpl. by rewrite Hoff.
Qed.

Lemma isRowSpanEnabled_gates_row_range_witness :
  let sorted := mkSortState true [mkSortedColumn "name" true] in
  let row := mkRow (Num 0) {["name" := createRowSpan true (Num 0) 2 2]} ∅ in
  isRowSpanEnabled sorted = Some false ∧
  getRowRangeWithRowSpan (0, 0)%Z (0, 0)%Z [mkColumnInfo "name" false] None
    (mkData [row; row] sorted) = Some (0, 0)%Z.
Proof.
  intros sorted row.
  assert (isRowSpanEnabled sorted = Some false) as Hoff by reflexivity.
  split; [exact Hoff |].
  exact (proj2 (isRowSpanEnabled_gates_row_range sorted) Hoff _ _ _ _ _).
Defined.

(** ** Sub entries derived from the previous row *)

(** C7, as stated, fails right after a main row: the sub entry derived from
    a main entry of count 3 has count -1, which is not 3 - 1. *)
Lemma createSubRowSpan_after_main_not_decrement :
  let prevRowSpan := createRowSpan true (Num 0) 3 3 in
  ∃ sub, createSubRowSpan {["region" := prevRowSpan]} !! "region" = Some sub
         ∧ count sub = (-1)%Z
         ∧ count sub ≠ (count prevRowSpan - 1)%Z.
Proof. eexists. split; [reflexivity |]. split; [reflexivity | discriminate]. Qed.

(** C7, amended. [createSubRowSpan] produces an entry for a column exactly
    when the previous row has an entry there whose span still extends past
    the new row ([spanCount > 1 - count]); the entry produced is a sub entry
    with the [mainRowKey] and [spanCount] of the previous row's entry, and
    its [count] is [-1] when the previous entry's count is not negative (the
    previous row is the main row), the previous count minus one otherwise. *)
Theorem createSubRowSpan_entry (prevRowSpanMap : gmap string RowSpan)
    (columnName : string) :
  (is_Some (createSubRowSpan prevRowSpanMap !! columnName) ↔
   ∃ prevRowSpan, prevRowSpanMap !! columnName = Some prevRowSpan
                  ∧ (spanCount prevRowSpan > 1 - count prevRowSpan)%Z) ∧
  (∀ prevRowSpan sub,
     prevRowSpanMap !! columnName = Some prevRowSpan →
     createSubRowSpan prevRowSpanMap !! columnName = Some sub →
     mainRow sub = false
     ∧ mainRowKey sub = mainRowKey prevRowSpan
     ∧ spanCount sub = spanCount prevRowSpan
     ∧ ((0 ≤ count prevRowSpan)%Z → count sub = (-1)%Z)
     ∧ ((count prevRowSpan < 0)%Z → count sub = (count prevRowSpan - 1)%Z)).
Proof.
  unfold createSubRowSpan. rewrite lookup_omap.
  destruct (prevRowSpanMap !! columnName) as [e|]; simpl; unfold subRowSpanOf.
  - destruct (Z.gtb_spec (spanCount e) (1 - count e)) as [Hlive | Hdone].
    + split.
      * split; [intros _; exists e; split; [done | lia] | eauto].
      * intros ? sub [= <-] [= <-]. simpl.
        destruct (Z.geb_spec (count e) 0); repeat split; intros; lia.
    + split.
      * split; [intros [? ?]; done |].
        intros (e' & [= <-] & H). lia.
      * intros ? sub _ ?; done.
  - split.
    + split; [intros [? ?]; done | intros (e & ? & _); done].
    + intros ? ? ?; done.
Qed.

Lemma createSubRowSpan_entry_witness :
  let prevRowSpan := createRowSpan false (Num 0) (-1) 3 in
  let sub := createRowSpan false (Num 0) (-2) 3 in
  mainRow sub = false
  ∧ mainRowKey sub = mainRowKey prevRowSpan
  ∧ spanCount sub = spanCount prevRowSpan
  ∧ ((0 ≤ count prevRowSpan)%Z → count sub = (-1)%Z)
  ∧ ((count prevRowSpan < 0)%Z → count sub = (count prevRowSpan - 1)%Z).
Proof.
  intros prevRowSpan sub.
  apply (proj2 (createSubRowSpan_entry {["region" := prevRowSpan]} "region")
           prevRowSpan sub); reflexivity.
Defined.

(** ** Span lookup by row key *)

Lemma getRowSpanByRowKey_total (key : RowKey) (c : string) (rows : list Row) :
  getRowSpanByRowKey key c rows =
  Some (row ← findProp key rows; readSpan (rowSpanMap row) c).
Proof.
  unfold getRowSpanByRowKey, getRowSpan, findProp, findPropIndex.
  destruct (findIndex (hasKey key) rows) as [i|] eqn:Hi.
  - rewrite bool_decide_eq_false_2 by lia. rewrite arrGet_nat.
    apply findIndex_Some in Hi as [(x & -> & _) _]. done.
  - rewrite bool_decide_eq_true_2 by done. by rewrite arrGet_neg.
Qed.

Lemma readSpan_own (m : gmap string RowSpan) (c : string) (rowSpan : RowSpan) :
  m !! c = Some rowSpan → readSpan m c = Some (OwnSpan rowSpan).
Proof. unfold readSpan. by intros ->. Qed.

Lemma readSpan_undefined (m : gmap string RowSpan) (c : string) :
  m !! c = None → c ∉ objectPrototypeNames → readSpan m c = None.
Proof.
  unfold readSpan. intros -> Hc. by rewrite bool_decide_eq_false_2.
Qed.

Lemma readSpan_inherited (m : gmap string RowSpan) (c : string) :
  m !! c = None → c ∈ objectPrototypeNames → readSpan m c = Some Inherited.
Proof.
  unfold readSpan. intros -> Hc. by rewrite bool_decide_eq_true_2.
Qed.

(** What [changeFocus] does once the early return and the veto are passed
    and the row-span lookup gives no entry. *)
Lemma changeFocus_unredirected (store : Store) (key : RowKey) (c : string)
    (isStopped : GridEvent.t → bool) :
  isFocusedCell (focus store) key (Some c) = false →
  isHiddenColumn (column store) c = Some false →
  isStopped (GridEvent.mk key (Some c) (Focus.columnName (focus store))
               (Focus.rowKey (focus store))) = false →
  columns (sortState (data store)) ≠ [] →
  getRowSpanByRowKey key c (rawData (data store)) = Some None →
  ∃ writes, changeFocus store key (Some c) isStopped = Some writes
            ∧ Focus.rowKey (focusAfter store writes) = key
            ∧ Focus.columnName (focusAfter store writes) = Some c.
Proof.
  intros Hfocused Hhidden Hgo Hcols Hnull. unfold changeFocus.
  rewrite Hfocused, Hhidden. simpl. destruct (bool_decide (c = "")); simpl.
  - rewrite Hgo. rewrite andb_false_r. simpl. eexists. split; [done |].
    by unfold focusAfter.
  - rewrite Hgo. destruct (truthy key); simpl.
    + unfold isRowSpanEnabled.
      destruct (columns (sortState (data store))) as [|sc rest]; [done |].
      simpl. destruct (bool_decide (columnName sc = "sortKey")); simpl.
      * rewrite Hnull. simpl. eexists. split; [done |]. by unfold focusAfter.
      * eexists. split; [done |]. by unfold focusAfter.
    + eexists. split; [done |]. by unfold focusAfter.
Qed.

(** C10, as stated, fails at a column whose name is that of a member of
    [Object.prototype]. The dataset has two rows without any span and a
    visible column ["constructor"]: the span map of the row of key 1, a
    plain object, has no entry for the column, and yet the lookup does not
    return [null] but the member of [Object.prototype] of that name, and
    [changeFocus] then stores its [mainRowKey], which is [undefined], not
    the requested key. *)
Lemma getRowSpanByRowKey_inherited_name :
  let natural := mkSortState true [mkSortedColumn "sortKey" true] in
  let columnMap : gmap string ColumnInfo :=
    {["constructor" := mkColumnInfo "constructor" false]} in
  let column := mkColumn None [] columnMap in
  let rows :=
    createData
      [mkOptRow Undefined {["constructor" := Str "Hyundai"]} None;
       mkOptRow Undefined {["constructor" := Str "Skanska"]} None]
      column true None in
  let initial := Focus.mk Null None Null None None false false in
  let store := mkStore (mkData rows natural) initial column in
  rowKey <$> rows = [Num 0; Num 1]
  ∧ (λ row, rowSpanMap row !! "constructor") <$> rows = [None; None]
  ∧ getRowSpanByRowKey (Num 1) "constructor" rows = Some (Some Inherited)
  ∧ getRowSpanByRowKey (Num 1) "constructor" rows ≠ Some None
  ∧ ∃ writes,
      changeFocus store (Num 1) (Some "constructor") (λ _, false)
      = Some writes
      ∧ Focus.rowKey (focusAfter store writes) = Undefined
      ∧ Focus.rowKey (focusAfter store writes) ≠ Num 1.
Proof.
  intros natural columnMap column rows initial store.
  split; [vm_compute; reflexivity |]. split; [vm_compute; reflexivity |].
  split; [vm_compute; reflexivity |]. split; [vm_compute; discriminate |].
  eexists. split; [vm_compute; reflexivity |]. split; [done | discriminate].
Qed.

(** C10, amended. [getRowSpanByRowKey] never raises; it returns [null] when
    no row of the list has the key; otherwise it returns the entry that the
    span map of the first row with that key holds for the column, when it
    holds one, and [null] when it holds none and the column name is not the
    name of a member of [Object.prototype]. Consequently a [changeFocus]
    that goes through (target not already focused, column visible, event
    not stopped, a primary sort column present) on a cell for which the
    lookup gives [null] stores the requested row key. *)
Theorem getRowSpanByRowKey_null_or_entry (key : RowKey) (c : string)
    (rows : list Row) :
  is_Some (getRowSpanByRowKey key c rows) ∧
  ((∀ row, row ∈ rows → rowKey row ≠ key) →
   getRowSpanByRowKey key c rows = Some None) ∧
  (∀ row rowSpan,
     findProp key rows = Some row → rowSpanMap row !! c = Some rowSpan →
     getRowSpanByRowKey key c rows = Some (Some (OwnSpan rowSpan))) ∧
  (c ∉ objectPrototypeNames →
   ∀ row, findProp key rows = Some row → rowSpanMap row !! c = None →
          getRowSpanByRowKey key c rows = Some None) ∧
  (∀ store isStopped,
     rawData (data store) = rows →
     getRowSpanByRowKey key c rows = Some None →
     isFocusedCell (focus store) key (Some c) = false →
     isHiddenColumn (column store) c = Some false →
     isStopped (GridEvent.mk key (Some c) (Focus.columnName (focus store))
                  (Focus.rowKey (focus store))) = false →
     columns (sortState (data store)) ≠ [] →
     ∃ writes, changeFocus store key (Some c) isStopped = Some writes
               ∧ Focus.rowKey (focusAfter store writes) = key).
Proof.
  rewrite getRowSpanByRowKey_total. repeat apply conj.
  - eauto.
  - intros Hmissing. apply findPropIndex_missing in Hmissing.
    unfold findProp. rewrite Hmissing. by rewrite arrGet_neg.
  - intros row rowSpan -> Hentry. simpl. by rewrite (readSpan_own _ _ _ Hentry).
  - intros Hc row -> Hentry. simpl. by rewrite (readSpan_undefined _ _ Hentry Hc).
  - intros store isStopped Hrows Hnull Hfocused Hhidden Hgo Hcols.
    rewrite <- getRowSpanByRowKey_total, <- Hrows in Hnull.
    destruct (changeFocus_unredirected store key c isStopped)
      as (writes & Hrun & Hkey & _); eauto.
Qed.

Lemma getRowSpanByRowKey_null_or_entry_witness :
  let natural := mkSortState true [mkSortedColumn "sortKey" true] in
  let main := mkRow (Num 1) {["region" := createRowSpan true (Num 1) 2 2]} ∅ in
  let sub := mkRow (Num 2) {["region" := createRowSpan false (Num 1) (-1) 2]} ∅ in
  let rows := [main; sub] in
  let columnMap : gmap string ColumnInfo :=
    {["name" := mkColumnInfo "name" false]} in
  let initial := Focus.mk Null None Null None None false false in
  let store := mkStore (mkData rows natural) initial (mkColumn None [] columnMap) in
  getRowSpanByRowKey (Num 7) "region" rows = Some None
  ∧ getRowSpanByRowKey (Num 2) "region" rows
    = Some (Some (OwnSpan (createRowSpan false (Num 1) (-1) 2)))
  ∧ getRowSpanByRowKey (Num 2) "name" rows = Some None
  ∧ ∃ writes, changeFocus store (Num 2) (Some "name") (λ _, false) = Some writes
              ∧ Focus.rowKey (focusAfter store writes) = Num 2.
Proof.
  intros natural main sub rows columnMap initial store.
  destruct (getRowSpanByRowKey_null_or_entry (Num 7) "region" rows)
    as (_ & Hmissing & _ & _).
  destruct (getRowSpanByRowKey_null_or_entry (Num 2) "region" rows)
    as (_ & _ & Hfound & _).
  destruct (getRowSpanByRowKey_null_or_entry (Num 2) "name" rows)
    as (_ & _ & _ & Hnone & Hfocus).
  assert (getRowSpanByRowKey (Num 2) "name" rows = Some None) as Hnull.
  { apply (Hnone ltac:(apply (bool_decide_unpack _); vm_compute; exact I) sub);
      reflexivity. }
  split; [| split; [| split]].
  - apply Hmissing. intros row Hrow.
    apply elem_of_cons in Hrow as [-> | Hrow]; [discriminate |].
    apply elem_of_cons in Hrow as [-> | Hrow]; [discriminate |].
    by apply elem_of_nil in Hrow.
  - apply (Hfound sub); reflexivity.
  - exact Hnull.
  - apply (Hfocus store (λ _, false)); try reflexivity. discriminate.
Defined.

(** ** Validation codes *)

Lemma elem_of_pushIf (cond : bool) (code x : ValidationType)
    (l : list ValidationType) :
  x ∈ pushIf cond code l ↔ x ∈ l ∨ (cond = true ∧ x = code).
Proof.
  unfold pushIf. destruct cond.
  - rewrite elem_of_app, list_elem_of_singleton. intuition congruence.
  - intuition congruence.
Qed.

Lemma pushIf_sublist (cond : bool) (code : ValidationType)
    (l order : list ValidationType) :
  sublist l order → sublist (pushIf cond code l) (order ++ [code])%list.
Proof.
  intros Hsub. unfold pushIf. destruct cond.
  - by apply sublist_app.
  - by apply sublist_inserts_r.
Qed.

(** The codes come out in the order of evaluation, each at most once, and
    each of them exactly when its test, as written in the source, holds. *)
Lemma getValidationCode_codes (value : CellValue) (v : Validation.t) :
  let codes := getValidationCode value (Some v) in
  sublist codes [REQUIRED; TYPE_STRING; TYPE_NUMBER; MIN; MAX; REGEXP;
                 VALIDATOR_FN]
  ∧ (REQUIRED ∈ codes ↔ Validation.required v = true ∧ isBlank value = true)
  ∧ (TYPE_STRING ∈ codes ↔
     Validation.dataType v = Some TString ∧ isString value = false)
  ∧ (TYPE_NUMBER ∈ codes ↔
     Validation.dataType v = Some TNumber ∧ isNumber value = false)
  ∧ (MIN ∈ codes ↔ belowMin value (Validation.min v) = true)
  ∧ (MAX ∈ codes ↔ aboveMax value (Validation.max v) = true)
  ∧ (REGEXP ∈ codes ↔ failsRegExp value (Validation.regExp v) = true)
  ∧ (VALIDATOR_FN ∈ codes ↔
     failsValidatorFn value (Validation.validatorFn v) = true).
Proof.
  intros codes. split.
  - subst codes. unfold getValidationCode.
    apply (pushIf_sublist _ _ _
             [REQUIRED; TYPE_STRING; TYPE_NUMBER; MIN; MAX; REGEXP]).
    apply (pushIf_sublist _ _ _ [REQUIRED; TYPE_STRING; TYPE_NUMBER; MIN; MAX]).
    apply (pushIf_sublist _ _ _ [REQUIRED; TYPE_STRING; TYPE_NUMBER; MIN]).
    apply (pushIf_sublist _ _ _ [REQUIRED; TYPE_STRING; TYPE_NUMBER]).
    apply (pushIf_sublist _ _ _ [REQUIRED; TYPE_STRING]).
    apply (pushIf_sublist _ _ _ [REQUIRED]).
    apply (pushIf_sublist _ _ [] []). constructor.
  - subst codes. unfold getValidationCode.
    rewrite !elem_of_pushIf, !elem_of_nil.
    rewrite ?andb_true_iff, ?bool_decide_eq_true, ?negb_true_iff.
    repeat (apply conj); intros; intuition (try discriminate; try congruence).
Qed.

(** A bound different from [0] is enforced. *)
Lemma getValidationCode_min_nonzero (v : Validation.t) (n m : Z) :
  Validation.min v = Some m → m ≠ 0%Z →
  (MIN ∈ getValidationCode (Num n) (Some v) ↔ (n < m)%Z).
Proof.
  intros Hmin Hm.
  destruct (getValidationCode_codes (Num n) v) as (_ & _ & _ & _ & -> & _).
  rewrite Hmin. simpl. rewrite andb_true_iff, negb_true_iff.
  rewrite Z.eqb_neq, Z.ltb_lt. tauto.
Qed.

(** C8 on the code, at a lower bound of [0]: the value [-5] violates the
    bound, and yet no code is reported, because the bound is tested for
    truthiness before it is compared. The same holds of an upper bound of
    [0] and the value [5]. *)
Theorem getValidationCode_zero_bound_ignored :
  let lower := Validation.mk false None (Some 0%Z) None None None in
  let upper := Validation.mk false None None (Some 0%Z) None None in
  (-5 < 0)%Z ∧ getValidationCode (Num (-5)) (Some lower) = []
  ∧ (5 > 0)%Z ∧ getValidationCode (Num 5) (Some upper) = [].
Proof. repeat split; reflexivity. Qed.

(** ** Focus redirection to the main row *)

Lemma changeFocus_writes (store : Store) (key : CellValue)
    (c : option string) (isStopped : GridEvent.t → bool)
    (writes : list Focus.t) :
  changeFocus store key c isStopped = Some writes →
  writes = [] ∨ ∃ focusRowKey, writes = focusWrites (focus store) c focusRowKey.
Proof.
  unfold changeFocus. intros Hrun.
  destruct (isFocusedCell (focus store) key c).
  { simpl in Hrun. left. congruence. }
  match type of Hrun with (?skip ≫= _) = _ => destruct skip as [[|]|] end;
    simpl in Hrun; [left; congruence | | done].
  destruct (isStopped _); [left; congruence |].
  match type of Hrun with (?target ≫= _) = _ => destruct target as [k|] end;
    simpl in Hrun; [| done].
  right. exists k. unfold focusWrites. congruence.
Qed.

(** While the previous address is being recorded the focused address is
    still the old one, and it is complete before the new one is written. *)
Lemma focusWrites_order (focus : Focus.t) (c : option string)
    (k : CellValue) (i : nat) (f : Focus.t) :
  focusWrites focus c k !! i = Some f →
  ((i < 2)%nat → Focus.rowKey f = Focus.rowKey focus
           ∧ Focus.columnName f = Focus.columnName focus) ∧
  ((1 ≤ i)%nat → Focus.prevRowKey f = Focus.rowKey focus
           ∧ Focus.prevColumnName f = Focus.columnName focus) ∧
  (i = 3 → Focus.rowKey f = k ∧ Focus.columnName f = c).
Proof.
  unfold focusWrites.
  destruct i as [|[|[|[|i]]]]; simpl; intros [= <-]; simpl;
    repeat split; intros; try lia; done.
Qed.

(** With a truthy row key and a non-empty column name, natural order, and a
    span entry on the target cell, the focus goes to the main row; in
    general, to the [mainRowKey] of what the lookup returns. *)
Lemma changeFocus_redirects (store : Store) (key : CellValue) (c : string)
    (isStopped : GridEvent.t → bool) (rowSpan : SpanValue) :
  truthy key = true → c ≠ "" →
  isFocusedCell (focus store) key (Some c) = false →
  isHiddenColumn (column store) c = Some false →
  isStopped (GridEvent.mk key (Some c) (Focus.columnName (focus store))
               (Focus.rowKey (focus store))) = false →
  isRowSpanEnabled (sortState (data store)) = Some true →
  getRowSpanByRowKey key c (rawData (data store)) = Some (Some rowSpan) →
  changeFocus store key (Some c) isStopped
  = Some (focusWrites (focus store) (Some c) (mainRowKeyOf rowSpan)).
Proof.
  intros Hkey Hc Hfocused Hhidden Hgo Hon Hspan. unfold changeFocus.
  rewrite Hfocused, Hhidden, Hkey. simpl.
  rewrite (bool_decide_eq_false_2 _ Hc). simpl.
  rewrite Hgo, Hon. simpl. rewrite Hspan. done.
Qed.

(** C5 on the code, at a row key of [0]. The dataset is built with the key
    column ["id"]: the row of key 7 declares a span of two rows on
    ["region"], so the row of key 0 below it is a sub row whose entry points
    to key 7. Row-span behaviour is enabled, the column is visible, nothing
    is focused and the event is not stopped; yet [changeFocus] on the sub
    row stores the key 0, not the main row's key 7, because the row key is
    tested for truthiness before the span is looked up. *)
Theorem changeFocus_zero_key_not_redirected :
  let natural := mkSortState true [mkSortedColumn "sortKey" true] in
  let columnMap : gmap string ColumnInfo :=
    {["region" := mkColumnInfo "region" false]} in
  let column := mkColumn (Some "id") [] columnMap in
  let rows :=
    createData
      [mkOptRow Undefined {["id" := Num 7]} (Some {["region" := 2%Z]});
       mkOptRow Undefined {["id" := Num 0]} None]
      column true None in
  let initial := Focus.mk Null None Null None None false false in
  let store := mkStore (mkData rows natural) initial column in
  rowKey <$> rows = [Num 7; Num 0]
  ∧ isRowSpanEnabled natural = Some true
  ∧ isHiddenColumn column "region" = Some false
  ∧ getRowSpanByRowKey (Num 0) "region" rows
    = Some (Some (OwnSpan (createRowSpan false (Num 7) (-1) 2)))
  ∧ ∃ writes,
      changeFocus store (Num 0) (Some "region") (λ _, false) = Some writes
      ∧ Focus.rowKey (focusAfter store writes) = Num 0
      ∧ Focus.columnName (focusAfter store writes) = Some "region".
Proof.
  repeat split; try reflexivity.
  eexists. split; [reflexivity |]. split; reflexivity.
Qed.

(** ** Span maps built in one forward pass *)

Lemma mainRowSpanMap_lookup (rowSpan : option (gmap string Z)) (key : RowKey)
    (c : string) :
  (if isEmpty rowSpan then ∅ else createMainRowSpanMap rowSpan key) !! c
  = (λ n, createRowSpan true key n n) <$> (rowSpan ≫= (.!! c)).
Proof.
  destruct rowSpan as [m|]; simpl; [| done].
  case_bool_decide as Hempty.
  - apply dom_empty_inv_L in Hempty. rewrite Hempty. by rewrite !lookup_empty.
  - by rewrite lookup_fmap.
Qed.

Lemma subRowSpanMap_lookup (prev : option Row) (c : string) :
  (match prev with
   | Some p => if isEmpty (Some (rowSpanMap p)) then ∅
               else createSubRowSpan (rowSpanMap p)
   | None => ∅
   end : gmap string RowSpan) !! c
  = (prev ≫= λ p, rowSpanMap p !! c) ≫= subRowSpanOf.
Proof.
  destruct prev as [p|]; simpl; [| done].
  case_bool_decide as Hempty.
  - apply dom_empty_inv_L in Hempty. rewrite Hempty. by rewrite !lookup_empty.
  - unfold createSubRowSpan. by rewrite lookup_omap.
Qed.

Section forward_pass.
Variable defaults : list (string * CellValue).
Variable keyColumn : option string.

Lemma createRawRows_length (prevRows : option (list Row)) (rows : list OptRow)
    (index : nat) (built : option Row) :
  length (createRawRows defaults keyColumn prevRows rows index built)
  = length rows.
Proof.
  revert index built. induction rows as [|row rest IH]; intros; simpl;
    [done | by rewrite IH].
Qed.

(** Each row is built from the input row of the same index and from the row
    built just before it. *)
Lemma createRawRows_lookup (rows : list OptRow) (index : nat)
    (built : option Row) (i : nat) (row : OptRow) :
  rows !! i = Some row →
  createRawRows defaults keyColumn None rows index built !! i
  = Some (createRawRow row (Z.of_nat (index + i)) defaults keyColumn
            (match i with
             | O => built
             | S p => createRawRows defaults keyColumn None rows index built !! p
             end)).
Proof.
  revert index built i. induction rows as [|first rest IH];
    intros index built i Hi; [done |].
  destruct i as [|i]; simpl in *.
  - injection Hi as ->. by rewrite Nat.add_0_r.
  - rewrite (IH _ _ _ Hi); clear IH.
    replace (S index + i) with (index + S i) by lia.
    do 2 f_equal.
Qed.

Lemma createRawRow_rowKey (row : OptRow) (index : nat) (prev : option Row) :
  rowKey (createRawRow row (Z.of_nat index) defaults keyColumn prev)
  = keyOf keyColumn row index.
Proof. done. Qed.

Lemma createRawRow_entry (row : OptRow) (index : nat) (prev : option Row)
    (c : string) :
  rowSpanMap (createRawRow row (Z.of_nat index) defaults keyColumn prev) !! c
  = entryOf (keyOf keyColumn row index) (optRowSpan row ≫= (.!! c))
      (prev ≫= λ p, rowSpanMap p !! c).
Proof.
  unfold createRawRow, keyOf, entryOf, createRowSpanMap. cbn [rowSpanMap rowKey].
  rewrite lookup_union, subRowSpanMap_lookup, mainRowSpanMap_lookup.
  destruct ((prev ≫= λ p, rowSpanMap p !! c) ≫= subRowSpanOf) as [sub|];
    by destruct (_ <$> _).
Qed.

End forward_pass.




Section one_column.
Variable data : list OptRow.
Variable column : Column.
Variable lazyObservable : bool.
Variable c : string.

Let rows := createData data column lazyObservable None.
Let keyColumn := if lazyObservable then keyColumnName column else Some "rowKey".

Lemma createData_length : length rows = length data.
Proof. apply createRawRows_length. Qed.

(** The entry of column [c] of row [i], from the declaration of the row and
    the entry of the row before. *)
Lemma createData_entry (i : nat) (row : OptRow) :
  data !! i = Some row →
  ∃ out, rows !! i = Some out
         ∧ rowKey out = keyOf keyColumn row i
         ∧ rowSpanMap out !! c
           = entryOf (rowKey out) (optRowSpan row ≫= (.!! c))
               (match i with
                | O => None
                | S p => rows !! p ≫= λ prev, rowSpanMap prev !! c
                end).
Proof.
  intros Hrow. eexists. split; [| split].
  - subst rows. unfold createData. by apply createRawRows_lookup.
  - apply createRawRow_rowKey.
  - rewrite createRawRow_rowKey. change (0 + i) with i.
    rewrite createRawRow_entry. f_equal. by destruct i.
Qed.


End one_column.

Lemma distinct_keys_same_row (rows : list Row) (i j : nat) (a b : Row) :
  NoDup (rowKey <$> rows) → rows !! i = Some a → rows !! j = Some b →
  rowKey a = rowKey b → i = j.
Proof.
  intros Hnodup Ha Hb Hkey.
  apply (NoDup_lookup _ i j (rowKey a) Hnodup); rewrite list_lookup_fmap.
  - by rewrite Ha.
  - rewrite Hb. simpl. by rewrite Hkey.
Qed.




(** ** Row range of a cell inside a span *)

Section span_range.
Variable rows : list Row.
Variable visibleColumns : list ColumnInfo.
Variable c : string.
(** The span: main row at index [m], [k] rows. *)
Variables m k : Z.
(** The sorted column range. *)
Variables lo hi : Z.

(** The [k] rows of the span are there, and the entry of each of them on [c]
    points to a key first found at index [m] and has span count [k]. *)
Hypothesis span_intact :
  ∀ i, (m ≤ i < m + k)%Z →
    ∃ row e, arrGet rows i = Some row ∧ rowSpanMap row !! c = Some e
             ∧ findPropIndex (mainRowKey e) rows = m ∧ spanCount e = k.

(** The column range lies within the visible columns. *)
Hypothesis columns_valid :
  ∀ j, (lo ≤ j ≤ hi)%Z → is_Some (arrGet visibleColumns j).

(** No span of a column of the range that a row of the span takes part in
    reaches outside of the rows of the span. *)
Hypothesis spans_inside :
  ∀ j col i row e,
    (lo ≤ j ≤ hi)%Z → arrGet visibleColumns j = Some col →
    (m ≤ i < m + k)%Z → arrGet rows i = Some row →
    rowSpanMap row !! name col = Some e →
    (m ≤ findPropIndex (mainRowKey e) rows)%Z
    ∧ (findPropIndex (mainRowKey e) rows + spanCount e - 1 ≤ m + k - 1)%Z.





End span_range.




(** ** The recursion of [getRowSpanRange] ends *)

Lemma arrGet_bounds {A : Type} (arr : list A) (i : Z) (x : A) :
  arrGet arr i = Some x → (0 ≤ i < Z.of_nat (length arr))%Z.
Proof.
  intros [Hi Hx]%arrGet_Some. apply lookup_lt_Some in Hx. lia.
Qed.

Lemma rowSpanRangeStep_widens (visibleColumns : list ColumnInfo)
    (rows : list Row) (s e j s' e' : Z) :
  rowSpanRangeStep visibleColumns rows (s, e) j = Some (s', e') →
  (s' ≤ s)%Z ∧ (e ≤ e')%Z
  ∧ (0 ≤ s < Z.of_nat (length rows))%Z ∧ (0 ≤ e < Z.of_nat (length rows))%Z.
Proof.
  unfold rowSpanRangeStep.
  destruct (arrGet rows s) as [startRow|] eqn:Hs; [| done].
  destruct (arrGet rows e) as [endRow|] eqn:He; [| done].
  destruct (arrGet visibleColumns j) as [col|]; [| done]. simpl.
  intros [= <- <-]. apply arrGet_bounds in Hs, He.
  split; [| split; [| done]].
  - destruct (rowSpanMap startRow !! name col) as [e1|]; [| lia].
    destruct (Z.gtb_spec s (findPropIndex (mainRowKey e1) rows)); lia.
  - destruct (rowSpanMap endRow !! name col) as [e2|]; [| lia].
    destruct (Z.ltb_spec e
                (findPropIndex (mainRowKey e2) rows + spanCount e2 - 1));
      lia.
Qed.

Lemma rowSpanRange_fold_widens (visibleColumns : list ColumnInfo)
    (rows : list Row) (js : list Z) (s e s' e' : Z) :
  foldOpt (rowSpanRangeStep visibleColumns rows) (s, e) js = Some (s', e') →
  (s' ≤ s)%Z ∧ (e ≤ e')%Z
  ∧ ((s', e') ≠ (s, e) →
     (0 ≤ s < Z.of_nat (length rows))%Z ∧ (0 ≤ e < Z.of_nat (length rows))%Z).
Proof.
  revert s e. induction js as [|j js IH]; intros s e; cbn [foldOpt].
  - intros [= <- <-]. split; [lia |]. split; [lia | done].
  - destruct (rowSpanRangeStep visibleColumns rows (s, e) j)
      as [[s1 e1]|] eqn:Hstep; [| done].
    cbn [mbind option_bind]. intros Hrest.
    apply rowSpanRangeStep_widens in Hstep as (? & ? & ? & ?).
    apply IH in Hrest as (? & ? & _). split; [lia |]. split; [lia | done].
Qed.

(** With [n] rows, [2 * n + 2] calls are never exceeded: a call that does
    not return either raises or calls itself on a range that is between
    bounds and strictly wider. *)
Lemma getRowSpanRangeFuel_bounded (visibleColumns : list ColumnInfo)
    (rows : list Row) (colRange : Z * Z) (fuel : nat) (s e : Z) :
  (0 ≤ s < Z.of_nat (length rows))%Z → (0 ≤ e < Z.of_nat (length rows))%Z →
  (s + (Z.of_nat (length rows) - 1 - e) + 1 < Z.of_nat fuel)%Z →
  is_Some (getRowSpanRangeFuel fuel (s, e) colRange visibleColumns rows).
Proof.
  revert s e. induction fuel as [|fuel IH]; intros s e Hs He Hfuel; [lia |].
  cbn [getRowSpanRangeFuel].
  destruct (rowSpanRangePass (s, e) colRange visibleColumns rows)
    as [[s1 e1]|] eqn:Hpass; [| eauto].
  cbn [fst snd].
  destruct (bool_decide (s1 ≠ s) || bool_decide (e1 ≠ e)) eqn:Hchanged;
    [| eauto].
  apply rowSpanRange_fold_widens in Hpass as (Hs1 & He1 & _).
  assert (s1 ≠ s ∨ e1 ≠ e) as Hstrict.
  { apply orb_true_iff in Hchanged as [H | H]; apply bool_decide_eq_true in H;
      tauto. }
  destruct (decide ((0 ≤ s1)%Z ∧ (e1 < Z.of_nat (length rows))%Z))
    as [Hin | Hout].
  - apply IH; lia.
  - destruct fuel as [|fuel]; [lia |]. cbn [getRowSpanRangeFuel].
    destruct (rowSpanRangePass (s1, e1) colRange visibleColumns rows)
      as [[s2 e2]|] eqn:Hpass2; [| eauto].
    cbn [fst snd].
    destruct (bool_decide (s2 ≠ s1) || bool_decide (e2 ≠ e1)) eqn:Hchanged2;
      [| eauto].
    apply rowSpanRange_fold_widens in Hpass2 as (_ & _ & Hbounds).
    destruct Hbounds as [? ?]; [| lia].
    apply orb_true_iff in Hchanged2 as [H | H];
      apply bool_decide_eq_true in H; congruence.
Qed.

Lemma getRowSpanRangeFuel_enough (visibleColumns : list ColumnInfo)
    (rows : list Row) (rowRange colRange : Z * Z) :
  is_Some (getRowSpanRangeFuel (2 * length rows + 2) rowRange colRange
             visibleColumns rows).
Proof.
  destruct rowRange as [s e].
  destruct (decide ((0 ≤ s < Z.of_nat (length rows))%Z
                    ∧ (0 ≤ e < Z.of_nat (length rows))%Z)) as [[Hs He] | Hout].
  - apply getRowSpanRangeFuel_bounded; lia.
  - replace (2 * length rows + 2) with (S (2 * length rows + 1)) by lia.
    cbn [getRowSpanRangeFuel].
    destruct (rowSpanRangePass (s, e) colRange visibleColumns rows)
      as [[s1 e1]|] eqn:Hpass; [| eauto].
    cbn [fst snd].
    destruct (bool_decide (s1 ≠ s) || bool_decide (e1 ≠ e)) eqn:Hchanged;
      [| eauto].
    apply rowSpanRange_fold_widens in Hpass as (_ & _ & Hbounds).
    destruct Hbounds as [? ?]; [| lia].
    apply orb_true_iff in Hchanged as [H | H];
      apply bool_decide_eq_true in H; congruence.
Qed.

(** ** The store: writes, frames and key lookup *)

Lemma sameColumn_refl (c : string) (h : heap) : sameColumn c h h.
Proof. by intros l. Qed.

Lemma sameColumn_sym (c : string) (h1 h2 : heap) :
  sameColumn c h1 h2 → sameColumn c h2 h1.
Proof. intros H l. destruct (H l) as (? & ? & ?). by repeat split. Qed.

Lemma sameColumn_trans (c : string) (h1 h2 h3 : heap) :
  sameColumn c h1 h2 → sameColumn c h2 h3 → sameColumn c h1 h3.
Proof.
  intros H12 H23 l. destruct (H12 l) as (? & ? & ?), (H23 l) as (? & ? & ?).
  repeat split; congruence.
Qed.

Lemma heapSet_eq (h : heap) (l : loc) (row : Row) : heapSet h l row l = row.
Proof. unfold heapSet. by rewrite decide_True. Qed.

Lemma heapSet_ne (h : heap) (l l' : loc) (row : Row) :
  l' ≠ l → heapSet h l row l' = h l'.
Proof. intros. unfold heapSet. by rewrite decide_False. Qed.

Lemma setRowSpan_rowKey (h : heap) (l l' : loc) (c : string) (v : RowSpan) :
  rowKey (setRowSpan h l c v l') = rowKey (h l').
Proof.
  unfold setRowSpan, heapSet. destruct (decide (l' = l)) as [-> |]; done.
Qed.

Lemma setRowSpan_cells (h : heap) (l l' : loc) (c : string) (v : RowSpan) :
  cells (setRowSpan h l c v l') = cells (h l').
Proof.
  unfold setRowSpan, heapSet. destruct (decide (l' = l)) as [-> |]; done.
Qed.

Lemma setRowSpan_entry (h : heap) (l l' : loc) (c c' : string) (v : RowSpan) :
  rowSpanMap (setRowSpan h l c v l') !! c'
  = if decide (l' = l ∧ c' = c) then Some v else rowSpanMap (h l') !! c'.
Proof.
  unfold setRowSpan, heapSet. destruct (decide (l' = l)) as [-> |]; simpl.
  - destruct (decide (c' = c)) as [-> |].
    + rewrite lookup_insert_eq. by rewrite decide_True.
    + rewrite lookup_insert_ne by done. rewrite decide_False; [done | tauto].
  - rewrite decide_False; [done | tauto].
Qed.

Lemma deleteRowSpan_rowKey (h : heap) (l l' : loc) (c : string) :
  rowKey (deleteRowSpan h l c l') = rowKey (h l').
Proof.
  unfold deleteRowSpan, heapSet. destruct (decide (l' = l)) as [-> |]; done.
Qed.

Lemma deleteRowSpan_cells (h : heap) (l l' : loc) (c : string) :
  cells (deleteRowSpan h l c l') = cells (h l').
Proof.
  unfold deleteRowSpan, heapSet. destruct (decide (l' = l)) as [-> |]; done.
Qed.

Lemma deleteRowSpan_entry (h : heap) (l l' : loc) (c c' : string) :
  rowSpanMap (deleteRowSpan h l c l') !! c'
  = if decide (l' = l ∧ c' = c) then None else rowSpanMap (h l') !! c'.
Proof.
  unfold deleteRowSpan, heapSet. destruct (decide (l' = l)) as [-> |]; simpl.
  - destruct (decide (c' = c)) as [-> |].
    + rewrite lookup_delete_eq. by rewrite decide_True.
    + rewrite lookup_delete_ne by done. rewrite decide_False; [done | tauto].
  - rewrite decide_False; [done | tauto].
Qed.

(** [row[columnName] = v] on the row [l]. *)
Lemma setCell_getCell (h : heap) (l l' : loc) (c c' : string) (v : CellValue) :
  getCell (heapSet h l (setCell (h l) c v) l') c'
  = if decide (l' = l ∧ c' = c) then v else getCell (h l') c'.
Proof.
  unfold heapSet, getCell, setCell. destruct (decide (l' = l)) as [-> |]; simpl.
  - destruct (decide (c' = c)) as [-> |].
    + rewrite lookup_insert_eq. by rewrite decide_True.
    + rewrite lookup_insert_ne by done. rewrite decide_False; [done | tauto].
  - rewrite decide_False; [done | tauto].
Qed.

Lemma setCell_rowKey (h : heap) (l l' : loc) (c : string) (v : CellValue) :
  rowKey (heapSet h l (setCell (h l) c v) l') = rowKey (h l').
Proof. unfold heapSet. destruct (decide (l' = l)) as [-> |]; done. Qed.

Lemma setCell_rowSpanMap (h : heap) (l l' : loc) (c : string) (v : CellValue) :
  rowSpanMap (heapSet h l (setCell (h l) c v) l') = rowSpanMap (h l').
Proof. unfold heapSet. destruct (decide (l' = l)) as [-> |]; done. Qed.

Lemma findIndex_ext {A : Type} (p q : A → bool) (arr : list A) :
  (∀ x, p x = q x) → findIndex p arr = findIndex q arr.
Proof.
  intros Hpq. induction arr as [|x arr IH]; simpl; [done |].
  by rewrite Hpq, IH.
Qed.

Lemma findIndex_fmap {A B : Type} (f : A → B) (p : B → bool) (arr : list A) :
  findIndex p (f <$> arr) = findIndex (p ∘ f) arr.
Proof.
  induction arr as [|x arr IH]; [done |]. cbn [fmap list_fmap findIndex].
  unfold compose at 1. destruct (p (f x)); [done |].
  by rewrite <- IH.
Qed.

(** Key lookup sees the row keys only. *)
Lemma findPropIndex_same_keys (key : RowKey) (data : list loc) (h1 h2 : heap) :
  (∀ l, rowKey (h1 l) = rowKey (h2 l)) →
  findPropIndex key (rowsOf data h1) = findPropIndex key (rowsOf data h2).
Proof.
  intros Hkeys. unfold findPropIndex, rowsOf. rewrite !findIndex_fmap.
  erewrite findIndex_ext; [done |].
  intros l. unfold hasKey. simpl. by rewrite Hkeys.
Qed.

Lemma findPropLoc_same_keys (key : RowKey) (data : list loc) (h1 h2 : heap) :
  (∀ l, rowKey (h1 l) = rowKey (h2 l)) →
  findPropLoc key data h1 = findPropLoc key data h2.
Proof.
  intros Hkeys. unfold findPropLoc.
  by rewrite (findPropIndex_same_keys key data h1 h2 Hkeys).
Qed.

Lemma arrGet_fmap {A B : Type} (f : A → B) (arr : list A) (i : Z) :
  arrGet (f <$> arr) i = f <$> arrGet arr i.
Proof.
  unfold arrGet. destruct (0 <=? i)%Z; [| done]. apply list_lookup_fmap.
Qed.

(** The row found under a key carries that key and sits at the index of
    the key. *)
Lemma findPropLoc_Some (key : RowKey) (data : list loc) (h : heap) (l : loc) :
  findPropLoc key data h = Some l →
  rowKey (h l) = key
  ∧ arrGet data (findPropIndex (rowKey (h l)) (rowsOf data h)) = Some l.
Proof.
  unfold findPropLoc. intros Hl.
  assert (rowKey (h l) = key) as Hkey; [| by rewrite Hkey].
  destruct (findProp_Some key (rowsOf data h) (h l)) as (i & _ & _ & Hk);
    [| done].
  unfold findProp, rowsOf. rewrite arrGet_fmap. fold (rowsOf data h).
  by rewrite Hl.
Qed.

Lemma arrGet_inj {A : Type} (arr : list A) (i j : Z) (x : A) :
  NoDup arr → arrGet arr i = Some x → arrGet arr j = Some x → i = j.
Proof.
  intros Hnodup [Hi Hx]%arrGet_Some [Hj Hy]%arrGet_Some.
  pose proof (NoDup_lookup _ _ _ _ Hnodup Hx Hy). lia.
Qed.

(** With pairwise distinct row keys, the rows of [data] are distinct objects
    and each of them is the row found under its key. *)
Lemma distinct_keys_NoDup (data : list loc) (h : heap) :
  NoDup (rowKey <$> rowsOf data h) → NoDup data.
Proof.
  unfold rowsOf. rewrite <- list_fmap_compose. apply NoDup_fmap_1.
Qed.

Lemma distinct_keys_found (data : list loc) (h : heap) (l : loc) :
  NoDup (rowKey <$> rowsOf data h) → l ∈ data →
  arrGet data (findPropIndex (rowKey (h l)) (rowsOf data h)) = Some l.
Proof.
  intros Hkeys [i Hi]%list_elem_of_lookup.
  assert (rowsOf data h !! i = Some (h l)) as Hrow
    by (unfold rowsOf; by rewrite list_lookup_fmap, Hi).
  rewrite (findPropIndex_found _ _ i (h l) Hrow eq_refl).
  - by rewrite arrGet_nat.
  - intros j r Hj Hr Hsame.
    pose proof (distinct_keys_same_row _ _ _ _ _ Hkeys Hr Hrow Hsame). lia.
Qed.

(** ** The loop of [updateSubRowSpan] *)

Section sub_loop.
Variable data : list loc.
Variable mainRow' : loc.
Variable c : string.
Variables index spanCount' : Z.

Let loop := foldOpt (updateSubRowSpanStep data mainRow' c index spanCount').

Lemma updateSubRowSpanStep_Some (h h1 : heap) (offset : Z) :
  updateSubRowSpanStep data mainRow' c index spanCount' h offset = Some h1 →
  ∃ row, arrGet data (index + offset) = Some row
         ∧ h1 = setRowSpan h row c
                  (createRowSpan false (rowKey (h mainRow')) (- offset)
                     spanCount').
Proof.
  unfold updateSubRowSpanStep.
  destruct (arrGet data (index + offset)) as [row|]; [| done].
  intros [= <-]. eauto.
Qed.

Lemma subLoop_cons (offset : Z) (offsets : list Z) (h h' : heap) :
  loop h (offset :: offsets) = Some h' →
  ∃ row, arrGet data (index + offset) = Some row
         ∧ loop (setRowSpan h row c
                   (createRowSpan false (rowKey (h mainRow')) (- offset)
                      spanCount')) offsets = Some h'.
Proof.
  subst loop. cbn [foldOpt].
  destruct (updateSubRowSpanStep data mainRow' c index spanCount' h offset)
    as [h1|] eqn:Hstep; [| done].
  apply updateSubRowSpanStep_Some in Hstep as (row & Hrow & ->). eauto.
Qed.

Lemma subLoop_cons_present (offset : Z) (offsets : list Z) (h : heap)
    (row : loc) :
  arrGet data (index + offset) = Some row →
  loop h (offset :: offsets)
  = loop (setRowSpan h row c
            (createRowSpan false (rowKey (h mainRow')) (- offset) spanCount'))
      offsets.
Proof.
  intros Hrow. subst loop. cbn [foldOpt].
  assert (updateSubRowSpanStep data mainRow' c index spanCount' h offset
          = Some (setRowSpan h row c
                    (createRowSpan false (rowKey (h mainRow')) (- offset)
                       spanCount'))) as ->; [| done].
  unfold updateSubRowSpanStep. by rewrite Hrow.
Qed.

(** Only entries of column [c] are written. *)
Lemma subLoop_keeps (offsets : list Z) (h h' : heap) :
  loop h offsets = Some h' →
  ∀ l, rowKey (h' l) = rowKey (h l) ∧ cells (h' l) = cells (h l)
       ∧ ∀ c', c' ≠ c → rowSpanMap (h' l) !! c' = rowSpanMap (h l) !! c'.
Proof.
  revert h. induction offsets as [|offset offsets IH]; intros h.
  - by intros [= <-].
  - intros (row & _ & Hrest)%subLoop_cons l.
    destruct (IH _ Hrest l) as (-> & -> & Hother).
    rewrite setRowSpan_rowKey, setRowSpan_cells. split; [done |].
    split; [done |]. intros c' Hc'. rewrite (Hother c' Hc').
    rewrite setRowSpan_entry. rewrite decide_False; [done | tauto].
Qed.

(** A row that is at none of the offsets is not written. *)
Lemma subLoop_untouched (offsets : list Z) (h h' : heap) (l : loc) :
  loop h offsets = Some h' →
  (∀ offset, offset ∈ offsets → arrGet data (index + offset) ≠ Some l) →
  h' l = h l.
Proof.
  revert h. induction offsets as [|offset offsets IH]; intros h.
  - by intros [= <-].
  - intros (row & Hrow & Hrest)%subLoop_cons Hnot.
    rewrite (IH _ Hrest) by (intros; apply Hnot; by right).
    unfold setRowSpan. apply heapSet_ne. intros ->.
    apply (Hnot offset); [by left | done].
Qed.

(** The row at an offset gets the sub entry of that offset. *)
Lemma subLoop_written (offsets : list Z) (h h' : heap) (offset : Z) (l : loc) :
  NoDup data → NoDup offsets →
  loop h offsets = Some h' →
  offset ∈ offsets → arrGet data (index + offset) = Some l →
  rowSpanMap (h' l) !! c
  = Some (createRowSpan false (rowKey (h mainRow')) (- offset) spanCount').
Proof.
  intros Hdata. revert h.
  induction offsets as [|first offsets IH]; intros h Hoffsets.
  - intros _ Hin. by apply elem_of_nil in Hin.
  - apply NoDup_cons in Hoffsets as [Hfirst Hoffsets].
    intros (row & Hrow & Hrest)%subLoop_cons [-> | Hin]%elem_of_cons Hl.
    + rewrite Hl in Hrow. injection Hrow as <-.
      rewrite (subLoop_untouched offsets _ h' l Hrest).
      * rewrite setRowSpan_entry. by rewrite decide_True.
      * intros offset' Hin' Hl'.
        assert (index + offset' = index + first)%Z
          by exact (arrGet_inj data _ _ l Hdata Hl' Hl).
        assert (offset' = first) as -> by lia. done.
    + rewrite (IH _ Hoffsets Hrest Hin Hl). by rewrite setRowSpan_rowKey.
Qed.

(** The loop raises exactly when a row is missing at some offset. *)
Lemma subLoop_success (offsets : list Z) (h : heap) :
  is_Some (loop h offsets) ↔
  ∀ offset, offset ∈ offsets → is_Some (arrGet data (index + offset)).
Proof.
  revert h. induction offsets as [|offset offsets IH]; intros h.
  - split; [intros _ ? Hin; by apply elem_of_nil in Hin | by eexists].
  - split.
    + intros [h' (row & Hrow & Hrest)%subLoop_cons] offset'
        [-> | Hin]%elem_of_cons; [by rewrite Hrow |].
      eapply IH; eauto.
    + intros H. destruct (H offset) as [row Hrow]; [by left |].
      rewrite (subLoop_cons_present _ _ _ row Hrow). apply IH.
      intros offset' Hin. apply H. by right.
Qed.

(** The loop acts in the same way on stores that agree on column [c]. *)
Lemma subLoop_congr (offsets : list Z) (h1 h2 h1' : heap) :
  sameColumn c h1 h2 → loop h1 offsets = Some h1' →
  ∃ h2', loop h2 offsets = Some h2' ∧ sameColumn c h1' h2'.
Proof.
  revert h1 h2. induction offsets as [|offset offsets IH]; intros h1 h2 Hsame.
  - intros [= <-]. by exists h2.
  - intros (row & Hrow & Hrest)%subLoop_cons.
    assert (sameColumn c
              (setRowSpan h1 row c
                 (createRowSpan false (rowKey (h1 mainRow')) (- offset)
                    spanCount'))
              (setRowSpan h2 row c
                 (createRowSpan false (rowKey (h2 mainRow')) (- offset)
                    spanCount'))) as Hsame'.
    { intros l.
      destruct (Hsame l) as (Hkey & Hentry & Hcell),
               (Hsame mainRow') as (Hmain & _ & _).
      rewrite !setRowSpan_rowKey, !setRowSpan_entry. unfold getCell.
      rewrite !setRowSpan_cells. rewrite Hmain. split; [done |].
      split; [by case_decide | done]. }
    destruct (IH _ _ Hsame' Hrest) as (h2' & Hh2' & ?).
    exists h2'. split; [| done].
    by rewrite (subLoop_cons_present _ _ _ row Hrow).
Qed.

End sub_loop.

Lemma rowsPresent_spec (data : list loc) (index spanCount' : Z) :
  rowsPresent data index spanCount' = true ↔
  ∀ offset, (1 ≤ offset < spanCount')%Z → is_Some (arrGet data (index + offset)).
Proof.
  unfold rowsPresent. rewrite forallb_forall. split.
  - intros H offset Hoffset.
    eapply bool_decide_eq_true, H, list_elem_of_In, elem_of_seqZ. lia.
  - intros H offset Hin%list_elem_of_In%elem_of_seqZ.
    apply bool_decide_eq_true, H. lia.
Qed.

Lemma updateSubRowSpan_success (data : list loc) (mainRow' : loc) (c : string)
    (spanCount' : Z) (h : heap) :
  is_Some (updateSubRowSpan data mainRow' c 1 spanCount' h) ↔
  rowsPresent data (findPropIndex (rowKey (h mainRow')) (rowsOf data h))
    spanCount' = true.
Proof.
  unfold updateSubRowSpan. rewrite subLoop_success, rowsPresent_spec.
  split; intros H offset Hoffset.
  - apply H, elem_of_seqZ. lia.
  - apply H. apply elem_of_seqZ in Hoffset. lia.
Qed.

(** What [updateSubRowSpan], called with the start offset 1, leaves behind:
    nothing but entries of column [c] is written; the row at each offset
    [1 .. spanCount - 1] from the main row's index gets the sub entry of
    its offset; the other rows are as before. *)
Lemma updateSubRowSpan_spec (data : list loc) (mainRow' : loc) (c : string)
    (spanCount' : Z) (h h' : heap) :
  let index := findPropIndex (rowKey (h mainRow')) (rowsOf data h) in
  NoDup data →
  updateSubRowSpan data mainRow' c 1 spanCount' h = Some h' →
  (∀ offset l, (1 ≤ offset < spanCount')%Z →
     arrGet data (index + offset) = Some l →
     rowSpanMap (h' l) !! c
     = Some (createRowSpan false (rowKey (h mainRow')) (- offset) spanCount'))
  ∧ (∀ l, (∀ offset, (1 ≤ offset < spanCount')%Z →
             arrGet data (index + offset) ≠ Some l) →
          h' l = h l).
Proof.
  intros index Hdata Hrun. unfold updateSubRowSpan in Hrun. fold index in Hrun.
  split.
  - intros offset l Hoffset Hl.
    eapply subLoop_written; eauto using NoDup_seqZ.
    apply elem_of_seqZ. lia.
  - intros l Hnot. eapply subLoop_untouched; [done |].
    intros offset Hin%elem_of_seqZ. apply Hnot. lia.
Qed.

Lemma updateSubRowSpan_frame (data : list loc) (mainRow' : loc)
    (c c' : string) (startOffset spanCount' : Z) (h h' : heap) :
  c ≠ c' →
  updateSubRowSpan data mainRow' c' startOffset spanCount' h = Some h' →
  sameColumn c h h'.
Proof.
  intros Hc Hrun l. unfold updateSubRowSpan in Hrun.
  destruct (subLoop_keeps _ _ _ _ _ _ _ _ Hrun l) as (-> & Hcells & Hother).
  split; [done |]. split; [by rewrite Hother |].
  unfold getCell. by rewrite Hcells.
Qed.

Lemma updateSubRowSpan_congr (data : list loc) (mainRow' : loc) (c : string)
    (startOffset spanCount' : Z) (h1 h2 h1' : heap) :
  sameColumn c h1 h2 →
  updateSubRowSpan data mainRow' c startOffset spanCount' h1 = Some h1' →
  ∃ h2', updateSubRowSpan data mainRow' c startOffset spanCount' h2 = Some h2'
         ∧ sameColumn c h1' h2'.
Proof.
  intros Hsame Hrun. unfold updateSubRowSpan in *.
  destruct (Hsame mainRow') as (Hmain & _ & _).
  rewrite <- Hmain.
  rewrite <- (findPropIndex_same_keys _ data h1 h2)
    by (intros l; by destruct (Hsame l)).
  by eapply subLoop_congr.
Qed.

(** ** Iterating over the spanned columns *)

Section keys_loop.
Variable step : heap → string → option heap.

(** The step for a column leaves the other columns as they are. *)
Hypothesis step_frame :
  ∀ h h' c c', c ≠ c' → step h c' = Some h' → sameColumn c h h'.

(** The step for a column depends on that column only. *)
Hypothesis step_congr :
  ∀ h1 h2 h1' c, sameColumn c h1 h2 → step h1 c = Some h1' →
                 ∃ h2', step h2 c = Some h2' ∧ sameColumn c h1' h2'.

Lemma keysLoop_frame (keys : list string) (c : string) (h h' : heap) :
  c ∉ keys → foldOpt step h keys = Some h' → sameColumn c h h'.
Proof.
  revert h. induction keys as [|k keys IH]; intros h Hc; cbn [foldOpt].
  - intros [= <-]. apply sameColumn_refl.
  - destruct (step h k) as [h1|] eqn:Hstep; cbn [mbind option_bind]; [| done].
    intros Hrest. apply not_elem_of_cons in Hc as [Hck Hc].
    eapply sameColumn_trans; [by eapply step_frame | by apply IH].
Qed.

(** On each column the loop does what the step for that column does on the
    initial store. *)
Lemma keysLoop_column (keys : list string) (c : string) (h h' : heap) :
  NoDup keys → c ∈ keys → foldOpt step h keys = Some h' →
  ∃ h1, step h c = Some h1 ∧ sameColumn c h1 h'.
Proof.
  revert h. induction keys as [|k keys IH]; intros h Hkeys Hc; cbn [foldOpt].
  - by apply elem_of_nil in Hc.
  - apply NoDup_cons in Hkeys as [Hk Hkeys].
    destruct (step h k) as [h1|] eqn:Hstep; cbn [mbind option_bind]; [| done].
    intros Hrest. destruct (decide (c = k)) as [-> | Hck].
    + exists h1. split; [done |]. by eapply keysLoop_frame.
    + apply elem_of_cons in Hc as [? | Hc]; [done |].
      destruct (IH h1 Hkeys Hc Hrest) as (h2 & Hstep2 & Hsame2).
      assert (sameColumn c h1 h) as Hback
        by (apply sameColumn_sym; by eapply step_frame).
      destruct (step_congr _ _ _ _ Hback Hstep2) as (h3 & Hstep3 & Hsame3).
      exists h3. split; [done |].
      eapply sameColumn_trans; [by apply sameColumn_sym | done].
Qed.

(** The loop does not raise when no step raises on the initial store. *)
Lemma keysLoop_success (keys : list string) (h : heap) :
  NoDup keys → (∀ k, k ∈ keys → is_Some (step h k)) →
  is_Some (foldOpt step h keys).
Proof.
  revert h. induction keys as [|k keys IH]; intros h Hkeys Hall; cbn [foldOpt].
  - eauto.
  - apply NoDup_cons in Hkeys as [Hk Hkeys].
    destruct (Hall k) as [h1 Hstep]; [by left |].
    rewrite Hstep. cbn [mbind option_bind]. apply IH; [done |].
    intros k' Hk'. destruct (Hall k') as [h2 Hstep']; [by right |].
    assert (sameColumn k' h h1) as Hsame.
    { eapply step_frame; [| done]. intros ->. done. }
    destruct (step_congr _ _ _ _ Hsame Hstep') as (h3 & -> & _). eauto.
Qed.

(** The order in which the columns are visited does not matter. *)
Lemma keysLoop_order (keys1 keys2 : list string) (h h1 : heap) :
  NoDup keys1 → keys1 ≡ₚ keys2 → foldOpt step h keys1 = Some h1 →
  ∃ h2, foldOpt step h keys2 = Some h2 ∧ ∀ c, sameColumn c h1 h2.
Proof.
  intros Hnodup1 Hperm Hrun1.
  assert (NoDup keys2) as Hnodup2 by (by rewrite <- Hperm).
  destruct (keysLoop_success keys2 h Hnodup2) as [h2 Hrun2].
  { intros k Hk. rewrite <- Hperm in Hk.
    destruct (keysLoop_column keys1 k h h1 Hnodup1 Hk Hrun1) as (? & -> & _).
    eauto. }
  exists h2. split; [done |]. intros c.
  destruct (decide (c ∈ keys1)) as [Hc | Hc].
  - destruct (keysLoop_column keys1 c h h1 Hnodup1 Hc Hrun1)
      as (a & Ha & Hsame1).
    rewrite Hperm in Hc.
    destruct (keysLoop_column keys2 c h h2 Hnodup2 Hc Hrun2)
      as (b & Hb & Hsame2).
    rewrite Ha in Hb. injection Hb as <-.
    eapply sameColumn_trans; [by apply sameColumn_sym | done].
  - eapply sameColumn_trans;
      [apply sameColumn_sym; by eapply keysLoop_frame |].
    rewrite Hperm in Hc. by eapply keysLoop_frame.
Qed.

End keys_loop.

Lemma objectKeys_NoDup {V : Type} (m : gmap string V) : NoDup (objectKeys m).
Proof. apply NoDup_fst_map_to_list. Qed.

Lemma elem_of_objectKeys {V : Type} (m : gmap string V) (c : string) :
  c ∈ objectKeys m ↔ is_Some (m !! c).
Proof.
  unfold objectKeys. rewrite list_elem_of_fmap. split.
  - intros ([k v] & -> & Hin). apply elem_of_map_to_list in Hin. eauto.
  - intros [v Hv]. exists (c, v). split; [done |].
    by apply elem_of_map_to_list.
Qed.

(** ** One column of [updateRowSpanWhenAppend] *)

Lemma sameColumn_setRowSpan_other (c c' : string) (h : heap) (l : loc)
    (v : RowSpan) :
  c ≠ c' → sameColumn c h (setRowSpan h l c' v).
Proof.
  intros Hc l'. rewrite setRowSpan_rowKey, setRowSpan_entry. unfold getCell.
  rewrite setRowSpan_cells. rewrite decide_False; [done | tauto].
Qed.

Lemma sameColumn_setRowSpan (c : string) (h1 h2 : heap) (l : loc)
    (v : RowSpan) :
  sameColumn c h1 h2 → sameColumn c (setRowSpan h1 l c v) (setRowSpan h2 l c v).
Proof.
  intros Hsame l'. destruct (Hsame l') as (? & ? & ?).
  rewrite !setRowSpan_rowKey, !setRowSpan_entry. unfold getCell.
  rewrite !setRowSpan_cells. split; [done |]. split; [by case_decide | done].
Qed.

Lemma sameColumn_deleteRowSpan_other (c c' : string) (h : heap) (l : loc) :
  c ≠ c' → sameColumn c h (deleteRowSpan h l c').
Proof.
  intros Hc l'. rewrite deleteRowSpan_rowKey, deleteRowSpan_entry.
  unfold getCell. rewrite deleteRowSpan_cells.
  rewrite decide_False; [done | tauto].
Qed.

Lemma sameColumn_deleteRowSpan (c : string) (h1 h2 : heap) (l : loc) :
  sameColumn c h1 h2 → sameColumn c (deleteRowSpan h1 l c) (deleteRowSpan h2 l c).
Proof.
  intros Hsame l'. destruct (Hsame l') as (? & ? & ?).
  rewrite !deleteRowSpan_rowKey, !deleteRowSpan_entry. unfold getCell.
  rewrite !deleteRowSpan_cells. split; [done |].
  split; [by case_decide | done].
Qed.

Lemma sameColumn_setCell_other (c c' : string) (h : heap) (l : loc)
    (v : CellValue) :
  c ≠ c' → sameColumn c h (heapSet h l (setCell (h l) c' v)).
Proof.
  intros Hc l'. rewrite setCell_rowKey, setCell_rowSpanMap, setCell_getCell.
  rewrite decide_False; [done | tauto].
Qed.

Lemma sameColumn_setCell (c : string) (h1 h2 : heap) (l : loc)
    (v1 v2 : CellValue) :
  sameColumn c h1 h2 → v1 = v2 →
  sameColumn c (heapSet h1 l (setCell (h1 l) c v1))
    (heapSet h2 l (setCell (h2 l) c v2)).
Proof.
  intros Hsame -> l'. destruct (Hsame l') as (? & ? & ?).
  rewrite !setCell_rowKey, !setCell_rowSpanMap, !setCell_getCell.
  split; [done |]. split; [done | by case_decide].
Qed.

(** The ways in which [appendStep] returns. *)
Lemma appendStep_inv (data : list loc) (prevRow : loc) (ext : bool)
    (h h' : heap) (c : string) :
  appendStep data prevRow ext h c = Some h' →
  (rowSpanMap (h prevRow) !! c = None ∧ h' = h) ∨
  ∃ prevRowSpan mainRow' mainRowSpan,
    rowSpanMap (h prevRow) !! c = Some prevRowSpan
    ∧ (if mainRow prevRowSpan then Some prevRow
       else findPropLoc (mainRowKey prevRowSpan) data h) = Some mainRow'
    ∧ rowSpanMap (h mainRow') !! c = Some mainRowSpan
    ∧ let startOffset :=
        if mainRow prevRowSpan || ext then 1%Z
        else (- count prevRowSpan + 1)%Z in
      if (spanCount mainRowSpan >? startOffset)%Z then
        updateSubRowSpan data mainRow' c 1 (spanCount mainRowSpan + 1)
          (setRowSpan h mainRow' c
             (createRowSpan (mainRow mainRowSpan) (mainRowKey mainRowSpan)
                (count mainRowSpan + 1) (spanCount mainRowSpan + 1)))
        = Some h'
      else h' = h.
Proof.
  unfold appendStep.
  destruct (rowSpanMap (h prevRow) !! c) as [prs|]; [| intros [= <-]; by left].
  destruct (if mainRow prs then Some prevRow
            else findPropLoc (mainRowKey prs) data h) as [m|] eqn:Hm;
    cbn [mbind option_bind]; [| done].
  destruct (rowSpanMap (h m) !! c) as [ms|] eqn:Hms;
    cbn [mbind option_bind]; [| done].
  intros Hrun. right. exists prs, m, ms. do 3 (split; [done |]).
  cbn zeta. destruct (_ >? _)%Z; [done | congruence].
Qed.

Lemma appendStep_frame (data : list loc) (prevRow : loc) (ext : bool)
    (h h' : heap) (c c' : string) :
  c ≠ c' → appendStep data prevRow ext h c' = Some h' → sameColumn c h h'.
Proof.
  intros Hc [[_ ->] | (prs & m & ms & _ & _ & _ & Hrun)]%appendStep_inv.
  { apply sameColumn_refl. }
  cbn zeta in Hrun. destruct (_ >? _)%Z.
  - eapply sameColumn_trans; [| by eapply updateSubRowSpan_frame].
    by apply sameColumn_setRowSpan_other.
  - subst h'. apply sameColumn_refl.
Qed.

Lemma appendStep_congr (data : list loc) (prevRow : loc) (ext : bool)
    (h1 h2 h1' : heap) (c : string) :
  sameColumn c h1 h2 → appendStep data prevRow ext h1 c = Some h1' →
  ∃ h2', appendStep data prevRow ext h2 c = Some h2' ∧ sameColumn c h1' h2'.
Proof.
  intros Hsame Hrun.
  assert (∀ l, rowKey (h1 l) = rowKey (h2 l)) as Hkeys
    by (intros l; by destruct (Hsame l)).
  assert (∀ l, rowSpanMap (h1 l) !! c = rowSpanMap (h2 l) !! c) as Hentries
    by (intros l; by destruct (Hsame l) as (_ & ? & _)).
  apply appendStep_inv in Hrun
    as [[Hnone ->] | (prs & m & ms & Hprs & Hm & Hms & Hrun)];
    unfold appendStep; rewrite <- Hentries.
  { rewrite Hnone. eauto. }
  rewrite Hprs. rewrite <- (findPropLoc_same_keys _ data h1 h2 Hkeys), Hm.
  cbn [mbind option_bind]. rewrite <- Hentries, Hms.
  cbn [mbind option_bind]. cbn zeta in Hrun. destruct (_ >? _)%Z.
  - eapply updateSubRowSpan_congr; [| done]. by apply sameColumn_setRowSpan.
  - subst h1'. eauto.
Qed.

Lemma appendSafe_success (data : list loc) (prevRow : loc) (ext : bool)
    (h : heap) (c : string) :
  appendSafe data prevRow ext h c = true →
  is_Some (appendStep data prevRow ext h c).
Proof.
  unfold appendSafe, appendStep.
  destruct (rowSpanMap (h prevRow) !! c) as [prs|]; [| eauto].
  destruct (if mainRow prs then Some prevRow
            else findPropLoc (mainRowKey prs) data h) as [m|];
    cbn [mbind option_bind]; [| done].
  destruct (rowSpanMap (h m) !! c) as [ms|];
    cbn [mbind option_bind]; [| done].
  destruct (_ >? _)%Z; [| eauto].
  intros Hpresent. apply updateSubRowSpan_success.
  rewrite setRowSpan_rowKey.
  rewrite <- (findPropIndex_same_keys _ data h); [done |].
  intros l. by rewrite setRowSpan_rowKey.
Qed.

(** Writing the main entry and then the sub entries, as both updates do:
    the main row keeps the entry written, the row at each offset has the
    sub entry of its offset, the other rows are untouched. *)
Lemma updateSubRowSpan_relinks (data : list loc) (mainRow' : loc) (c : string)
    (entry : RowSpan) (spanCount' : Z) (h h1 : heap) :
  let index := findPropIndex (rowKey (h mainRow')) (rowsOf data h) in
  NoDup data →
  arrGet data index = Some mainRow' →
  updateSubRowSpan data mainRow' c 1 spanCount'
    (setRowSpan h mainRow' c entry) = Some h1 →
  rowSpanMap (h1 mainRow') !! c = Some entry
  ∧ (∀ offset, (1 ≤ offset < spanCount')%Z →
       ∃ row, arrGet data (index + offset) = Some row
              ∧ rowSpanMap (h1 row) !! c
                = Some (createRowSpan false (rowKey (h mainRow')) (- offset)
                          spanCount'))
  ∧ (∀ l, l ≠ mainRow' →
          (∀ offset, (1 ≤ offset < spanCount')%Z →
             arrGet data (index + offset) ≠ Some l) →
          h1 l = h l).
Proof.
  intros index Hdata Hmain Hrun.
  set (hs := setRowSpan h mainRow' c entry) in Hrun.
  assert (findPropIndex (rowKey (hs mainRow')) (rowsOf data hs) = index)
    as Hindex.
  { subst hs index. rewrite setRowSpan_rowKey.
    apply findPropIndex_same_keys. intros l. by rewrite setRowSpan_rowKey. }
  assert (is_Some (updateSubRowSpan data mainRow' c 1 spanCount' hs)) as Hsome
    by eauto.
  apply updateSubRowSpan_success in Hsome. rewrite Hindex in Hsome.
  rewrite rowsPresent_spec in Hsome.
  destruct (updateSubRowSpan_spec data mainRow' c spanCount' hs h1 Hdata Hrun)
    as [Hwritten Huntouched].
  rewrite Hindex in Hwritten, Huntouched.
  split; [| split].
  - rewrite Huntouched.
    + subst hs. rewrite setRowSpan_entry. by rewrite decide_True.
    + intros offset Hoffset Hrow.
      pose proof (arrGet_inj data _ _ _ Hdata Hrow Hmain). lia.
  - intros offset Hoffset. destruct (Hsome offset Hoffset) as [row Hrow].
    exists row. split; [done |]. rewrite (Hwritten offset row Hoffset Hrow).
    subst hs. by rewrite setRowSpan_rowKey.
  - intros l Hl Hnot. rewrite (Huntouched l Hnot). subst hs.
    unfold setRowSpan. by apply heapSet_ne.
Qed.

(** C2, as stated, fails on a span that runs past the end of the rows: the
    only row before the appended one declares a span of 3 rows; the new row
    is within the span's range ([3 > 1]), so the main entry and the sub
    entries should be rewritten for a span of 4, but [data] has no row at
    offset 2 and the call raises. *)
Lemma updateRowSpanWhenAppend_raises_past_the_end :
  let h : heap := λ l,
    match l with
    | O => mkRow (Num 0) {["region" := createRowSpan true (Num 0) 3 3]} ∅
    | S _ => mkRow (Num 1) ∅ ∅
    end in
  rowSpanMap (h 0) !! "region" = Some (createRowSpan true (Num 0) 3 3)
  ∧ (3 >? 1)%Z = true
  ∧ updateRowSpanWhenAppend [0; 1] 0 false h = None.
Proof. repeat split; reflexivity. Qed.

(** C2, amended. When the span map of [prevRow] is empty the store is left
    as it is. Otherwise, let the rows of [data] have pairwise distinct keys,
    let [prevRow] be one of them, and let every spanned column of [prevRow]
    be intact ([appendSafe]: the main row is found and has an entry, and the
    rows of the span, once grown, are in [data]). Then the call returns, and
    with [startOffset = 1] when [prevRow] is the main row or
    [extendPrevRowSpan] is set, [-count + 1] otherwise: if [spanCount >
    startOffset] the main entry has its [count] and [spanCount] increased by
    one, the row at each offset [1 .. newSpanCount - 1] from the main row has
    the sub entry [(false, main row's key, -offset, newSpanCount)], and the
    entries on [c] of all other rows are unchanged; if not, no entry on [c]
    is changed. *)
Theorem updateRowSpanWhenAppend_spec :
  (∀ data prevRow ext (h : heap),
     rowSpanMap (h prevRow) = ∅ →
     updateRowSpanWhenAppend data prevRow ext h = Some h) ∧
  (∀ data prevRow ext (h : heap) c prevRowSpan,
     NoDup (rowKey <$> rowsOf data h) → prevRow ∈ data →
     rowSpanMap (h prevRow) !! c = Some prevRowSpan →
     forallb (appendSafe data prevRow ext h)
       (objectKeys (rowSpanMap (h prevRow))) = true →
     ∃ h' mainRow' mainRowSpan,
       updateRowSpanWhenAppend data prevRow ext h = Some h'
       ∧ (if mainRow prevRowSpan then Some prevRow
          else findPropLoc (mainRowKey prevRowSpan) data h) = Some mainRow'
       ∧ rowSpanMap (h mainRow') !! c = Some mainRowSpan
       ∧ let startOffset :=
           if mainRow prevRowSpan || ext then 1%Z
           else (- count prevRowSpan + 1)%Z in
         let index := findPropIndex (rowKey (h mainRow')) (rowsOf data h) in
         let grown := (spanCount mainRowSpan + 1)%Z in
         if (spanCount mainRowSpan >? startOffset)%Z then
           rowSpanMap (h' mainRow') !! c
           = Some (createRowSpan (mainRow mainRowSpan) (mainRowKey mainRowSpan)
                     (count mainRowSpan + 1) grown)
           ∧ (∀ offset, (1 ≤ offset < grown)%Z →
                ∃ row, arrGet data (index + offset) = Some row
                       ∧ rowSpanMap (h' row) !! c
                         = Some (createRowSpan false (rowKey (h mainRow'))
                                   (- offset) grown))
           ∧ (∀ l, l ≠ mainRow' →
                   (∀ offset, (1 ≤ offset < grown)%Z →
                      arrGet data (index + offset) ≠ Some l) →
                   rowSpanMap (h' l) !! c = rowSpanMap (h l) !! c)
         else ∀ l, rowSpanMap (h' l) !! c = rowSpanMap (h l) !! c).
Proof.
  split.
  { intros data prevRow ext h Hempty. unfold updateRowSpanWhenAppend.
    rewrite Hempty. done. }
  intros data prevRow ext h c prs Hkeys Hin Hprs Hsafe.
  pose proof (distinct_keys_NoDup data h Hkeys) as Hdata.
  pose proof (distinct_keys_found data h prevRow Hkeys Hin) as Hplace.
  set (keys := objectKeys (rowSpanMap (h prevRow))) in *.
  assert (c ∈ keys) as Hc by (apply elem_of_objectKeys; eauto).
  assert (is_Some (foldOpt (appendStep data prevRow ext) h keys)) as [h' Hrun].
  { apply keysLoop_success.
    - intros; by eapply appendStep_frame.
    - intros; by eapply appendStep_congr.
    - apply objectKeys_NoDup.
    - intros k Hk. apply appendSafe_success.
      rewrite forallb_forall in Hsafe. by apply Hsafe, list_elem_of_In. }
  destruct (keysLoop_column (appendStep data prevRow ext)
              (λ h h' c c', appendStep_frame data prevRow ext h h' c c')
              (λ h1 h2 h1' c, appendStep_congr data prevRow ext h1 h2 h1' c)
              keys c h h' (objectKeys_NoDup _) Hc Hrun)
    as (h1 & Hstep & Hsame).
  assert (∀ l, rowSpanMap (h' l) !! c = rowSpanMap (h1 l) !! c) as Hback
    by (intros l; by destruct (Hsame l) as (_ & ? & _)).
  apply appendStep_inv in Hstep
    as [[Hnone _] | (prs' & m & ms & Hprs' & Hm & Hms & Hstep)];
    [congruence |].
  rewrite Hprs in Hprs'. injection Hprs' as <-.
  exists h', m, ms. split.
  { unfold updateRowSpanWhenAppend. fold keys.
    assert (isEmpty (Some (rowSpanMap (h prevRow))) = false) as ->; [| done].
    apply bool_decide_eq_false. intros Hdom.
    apply dom_empty_inv_L in Hdom. rewrite Hdom in Hprs. done. }
  split; [done |]. split; [done |]. cbn zeta in *.
  destruct (_ >? _)%Z.
  - assert (arrGet data (findPropIndex (rowKey (h m)) (rowsOf data h))
            = Some m) as Hmain.
    { destruct (mainRow prs) eqn:Hkind.
      - by injection Hm as <-.
      - by apply findPropLoc_Some in Hm as [_ ?]. }
    destruct (updateSubRowSpan_relinks data m c _ _ h h1 Hdata Hmain Hstep)
      as (Hgrown & Hsubs & Hrest).
    split; [by rewrite Hback |]. split.
    + intros offset Hoffset. destruct (Hsubs offset Hoffset) as (row & ? & ?).
      exists row. by rewrite Hback.
    + intros l Hl Hnot. rewrite Hback. by rewrite Hrest.
  - subst h1. done.
Qed.

Lemma updateRowSpanWhenAppend_spec_witness :
  let h : heap := λ l,
    match l with
    | 0 => mkRow (Num 0) {["region" := createRowSpan true (Num 0) 3 3]} ∅
    | 1 => mkRow (Num 1) {["region" := createRowSpan false (Num 0) (-1) 3]} ∅
    | 2 => mkRow (Num 9) ∅ ∅
    | _ => mkRow (Num 2) {["region" := createRowSpan false (Num 0) (-2) 3]} ∅
    end in
  updateRowSpanWhenAppend [0; 1; 2; 3] 2 false h = Some h
  ∧ ∃ h', updateRowSpanWhenAppend [0; 1; 2; 3] 1 false h = Some h'
          ∧ rowSpanMap (h' 0) !! "region"
            = Some (createRowSpan true (Num 0) 4 4)
          ∧ rowSpanMap (h' 2) !! "region"
            = Some (createRowSpan false (Num 0) (-2) 4).
Proof.
  intros h. split.
  { apply (proj1 updateRowSpanWhenAppend_spec). reflexivity. }
  destruct (proj2 updateRowSpanWhenAppend_spec [0; 1; 2; 3] 1 false h "region"
              (createRowSpan false (Num 0) (-1) 3))
    as (h' & m & ms & Hrun & Hm & Hms & H).
  - apply (bool_decide_unpack _). vm_compute. exact I.
  - apply (bool_decide_unpack _). vm_compute. exact I.
  - reflexivity.
  - reflexivity.
  - vm_compute in Hm. injection Hm as <-.
    vm_compute in Hms. injection Hms as <-.
    cbn in H. change (3 >? - (-1) + 1)%Z with true in H.
    destruct H as (Hmain & Hsubs & _).
    exists h'. split; [exact Hrun |]. split; [exact Hmain |].
    destruct (Hsubs 2%Z) as (row & Hrow & Hentry); [lia |].
    vm_compute in Hrow. injection Hrow as <-. exact Hentry.
Defined.

(** ** One column of [updateRowSpanWhenRemove] *)

Lemma relinkOrDelete_inv (data : list loc) (mainRow' : loc) (c : string)
    (spanCount' : Z) (h h' : heap) :
  relinkOrDelete data mainRow' c spanCount' h = Some h' →
  if (spanCount' >? 1)%Z then
    ∃ mainRowSpan,
      rowSpanMap (h mainRow') !! c = Some mainRowSpan
      ∧ updateSubRowSpan data mainRow' c 1 spanCount'
          (setRowSpan h mainRow' c
             (createRowSpan (mainRow mainRowSpan) (mainRowKey mainRowSpan)
                spanCount' spanCount')) = Some h'
  else h' = deleteRowSpan h mainRow' c.
Proof.
  unfold relinkOrDelete. destruct (_ >? _)%Z; [| congruence].
  destruct (rowSpanMap (h mainRow') !! c) as [ms|];
    cbn [mbind option_bind]; [eauto | done].
Qed.

Lemma relinkOrDelete_frame (data : list loc) (mainRow' : loc) (c c' : string)
    (spanCount' : Z) (h h' : heap) :
  c ≠ c' → relinkOrDelete data mainRow' c' spanCount' h = Some h' →
  sameColumn c h h'.
Proof.
  intros Hc Hrun%relinkOrDelete_inv. destruct (_ >? _)%Z.
  - destruct Hrun as (ms & _ & Hrun).
    eapply sameColumn_trans; [| by eapply updateSubRowSpan_frame].
    by apply sameColumn_setRowSpan_other.
  - subst h'. by apply sameColumn_deleteRowSpan_other.
Qed.

Lemma relinkOrDelete_congr (data : list loc) (mainRow' : loc) (c : string)
    (spanCount' : Z) (h1 h2 h1' : heap) :
  sameColumn c h1 h2 → relinkOrDelete data mainRow' c spanCount' h1 = Some h1' →
  ∃ h2', relinkOrDelete data mainRow' c spanCount' h2 = Some h2'
         ∧ sameColumn c h1' h2'.
Proof.
  intros Hsame Hrun%relinkOrDelete_inv. unfold relinkOrDelete.
  destruct (_ >? _)%Z.
  - destruct Hrun as (ms & Hms & Hrun).
    destruct (Hsame mainRow') as (_ & <- & _). rewrite Hms.
    cbn [mbind option_bind].
    eapply updateSubRowSpan_congr; [| done]. by apply sameColumn_setRowSpan.
  - subst h1'. eexists. split; [done |]. by apply sameColumn_deleteRowSpan.
Qed.

(** Row keys and column values are not written by the relinking. *)
Lemma relinkOrDelete_keeps (data : list loc) (mainRow' : loc) (c : string)
    (spanCount' : Z) (h h' : heap) :
  relinkOrDelete data mainRow' c spanCount' h = Some h' →
  ∀ l, rowKey (h' l) = rowKey (h l) ∧ cells (h' l) = cells (h l).
Proof.
  intros Hrun%relinkOrDelete_inv l. destruct (_ >? _)%Z.
  - destruct Hrun as (ms & _ & Hrun). unfold updateSubRowSpan in Hrun.
    destruct (subLoop_keeps _ _ _ _ _ _ _ _ Hrun l) as (-> & -> & _).
    by rewrite setRowSpan_rowKey, setRowSpan_cells.
  - subst h'. by rewrite deleteRowSpan_rowKey, deleteRowSpan_cells.
Qed.

(** The store after the promotion of [nextRow] and the copy of the value. *)
Lemma removeStep_main (data : list loc) (removedRow nextRow : loc)
    (keep : bool) (h h' : heap) (c : string) (removedRowSpan : RowSpan) :
  rowSpanMap (h removedRow) !! c = Some removedRowSpan →
  mainRow removedRowSpan = true →
  removeStep data removedRow nextRow keep h c = Some h' →
  ∃ h1,
    (if (count removedRowSpan - 1 >? 1)%Z then
       ∃ nextRowSpan,
         rowSpanMap (h nextRow) !! c = Some nextRowSpan
         ∧ h1 = setRowSpan h nextRow c
                  (createRowSpan true (rowKey (h nextRow))
                     (count nextRowSpan) (spanCount nextRowSpan))
     else h1 = h)
    ∧ relinkOrDelete data nextRow c (count removedRowSpan - 1)
        (if keep
         then heapSet h1 nextRow
                (setCell (h1 nextRow) c (getCell (h1 removedRow) c))
         else h1) = Some h'.
Proof.
  intros Hrs Hmain. unfold removeStep. rewrite Hrs.
  cbn [mbind option_bind]. rewrite Hmain.
  destruct (_ >? _)%Z.
  - destruct (rowSpanMap (h nextRow) !! c) as [ne|];
      cbn [mbind option_bind]; [| done].
    intros Hrun. eexists. split; [by exists ne | done].
  - cbn [mbind option_bind]. intros Hrun. by exists h.
Qed.

Lemma removeStep_sub (data : list loc) (removedRow nextRow : loc)
    (keep : bool) (h h' : heap) (c : string) (removedRowSpan : RowSpan) :
  rowSpanMap (h removedRow) !! c = Some removedRowSpan →
  mainRow removedRowSpan = false →
  removeStep data removedRow nextRow keep h c = Some h' →
  ∃ mainRow' mainRowSpan,
    findPropLoc (mainRowKey removedRowSpan) data h = Some mainRow'
    ∧ rowSpanMap (h mainRow') !! c = Some mainRowSpan
    ∧ relinkOrDelete data mainRow' c (spanCount mainRowSpan - 1) h = Some h'.
Proof.
  intros Hrs Hmain. unfold removeStep. rewrite Hrs.
  cbn [mbind option_bind]. rewrite Hmain.
  destruct (findPropLoc _ data h) as [m|]; cbn [mbind option_bind]; [| done].
  destruct (rowSpanMap (h m) !! c) as [ms|] eqn:Hms; cbn [mbind option_bind];
    [| done].
  intros Hrun. by exists m, ms.
Qed.

Lemma removeStep_entry (data : list loc) (removedRow nextRow : loc)
    (keep : bool) (h h' : heap) (c : string) :
  removeStep data removedRow nextRow keep h c = Some h' →
  is_Some (rowSpanMap (h removedRow) !! c).
Proof.
  unfold removeStep. destruct (rowSpanMap (h removedRow) !! c); [eauto | done].
Qed.

Lemma removeStep_frame (data : list loc) (removedRow nextRow : loc)
    (keep : bool) (h h' : heap) (c c' : string) :
  c ≠ c' → removeStep data removedRow nextRow keep h c' = Some h' →
  sameColumn c h h'.
Proof.
  intros Hc Hrun. destruct (removeStep_entry _ _ _ _ _ _ _ Hrun) as [rs Hrs].
  destruct (mainRow rs) eqn:Hmain.
  - destruct (removeStep_main _ _ _ _ _ _ _ _ Hrs Hmain Hrun)
      as (h1 & Hh1 & Hrest).
    assert (sameColumn c h h1) as Hfirst.
    { destruct (_ >? _)%Z; [| subst h1; apply sameColumn_refl].
      destruct Hh1 as (ne & _ & ->). by apply sameColumn_setRowSpan_other. }
    eapply sameColumn_trans; [exact Hfirst |].
    eapply sameColumn_trans; [| by eapply relinkOrDelete_frame].
    destruct keep; [| apply sameColumn_refl].
    by apply sameColumn_setCell_other.
  - destruct (removeStep_sub _ _ _ _ _ _ _ _ Hrs Hmain Hrun)
      as (m & ms & _ & _ & Hrest).
    by eapply relinkOrDelete_frame.
Qed.

Lemma removeStep_congr (data : list loc) (removedRow nextRow : loc)
    (keep : bool) (h1 h2 h1' : heap) (c : string) :
  sameColumn c h1 h2 →
  removeStep data removedRow nextRow keep h1 c = Some h1' →
  ∃ h2', removeStep data removedRow nextRow keep h2 c = Some h2'
         ∧ sameColumn c h1' h2'.
Proof.
  intros Hsame Hrun.
  assert (∀ l, rowKey (h1 l) = rowKey (h2 l)) as Hkeys
    by (intros l; by destruct (Hsame l)).
  assert (∀ l, rowSpanMap (h1 l) !! c = rowSpanMap (h2 l) !! c) as Hentries
    by (intros l; by destruct (Hsame l) as (_ & ? & _)).
  destruct (removeStep_entry _ _ _ _ _ _ _ Hrun) as [rs Hrs].
  unfold removeStep. rewrite <- (Hentries removedRow), Hrs.
  cbn [mbind option_bind]. destruct (mainRow rs) eqn:Hmain.
  - destruct (removeStep_main _ _ _ _ _ _ _ _ Hrs Hmain Hrun)
      as (k1 & Hk1 & Hrest).
    destruct (_ >? _)%Z.
    + destruct Hk1 as (ne & Hne & ->). rewrite <- (Hentries nextRow), Hne.
      cbn [mbind option_bind]. rewrite <- Hkeys.
      eapply relinkOrDelete_congr; [| exact Hrest].
      set (k1 := setRowSpan h1 _ _ _). set (k2 := setRowSpan h2 _ _ _).
      assert (sameColumn c k1 k2) as Hsame'
        by (by apply sameColumn_setRowSpan).
      destruct keep; [| done]. apply sameColumn_setCell; [done |].
      by destruct (Hsame' removedRow) as (_ & _ & ?).
    + subst k1. cbn [mbind option_bind].
      eapply relinkOrDelete_congr; [| exact Hrest].
      destruct keep; [| done]. apply sameColumn_setCell; [done |].
      by destruct (Hsame removedRow) as (_ & _ & ?).
  - destruct (removeStep_sub _ _ _ _ _ _ _ _ Hrs Hmain Hrun)
      as (m & ms & Hm & Hms & Hrest).
    rewrite <- (findPropLoc_same_keys _ data h1 h2 Hkeys), Hm.
    cbn [mbind option_bind]. rewrite <- (Hentries m), Hms.
    cbn [mbind option_bind]. by eapply relinkOrDelete_congr.
Qed.

Lemma relinkOrDelete_success (data : list loc) (mainRow' : loc) (c : string)
    (spanCount' : Z) (h : heap) :
  ((spanCount' >? 1)%Z = true →
   is_Some (rowSpanMap (h mainRow') !! c)
   ∧ rowsPresent data (findPropIndex (rowKey (h mainRow')) (rowsOf data h))
       spanCount' = true) →
  is_Some (relinkOrDelete data mainRow' c spanCount' h).
Proof.
  unfold relinkOrDelete. destruct (_ >? _)%Z; [| eauto].
  intros [[ms Hms] Hpresent]; [done |]. rewrite Hms. cbn [mbind option_bind].
  apply updateSubRowSpan_success. rewrite setRowSpan_rowKey.
  rewrite <- (findPropIndex_same_keys _ data h); [done |].
  intros l. by rewrite setRowSpan_rowKey.
Qed.

Lemma removeSafe_success (data : list loc) (removedRow nextRow : loc)
    (keep : bool) (h : heap) (c : string) :
  removeSafe data removedRow nextRow h c = true →
  is_Some (removeStep data removedRow nextRow keep h c).
Proof.
  unfold removeSafe, removeStep.
  destruct (rowSpanMap (h removedRow) !! c) as [rs|]; [| done].
  cbn [mbind option_bind]. destruct (mainRow rs).
  - destruct (count rs - 1 >? 1)%Z eqn:Hlive.
    + intros [[ne Hne]%bool_decide_eq_true Hpresent]%andb_true_iff.
      rewrite Hne. cbn [mbind option_bind].
      set (h1 := setRowSpan h nextRow c _).
      set (h2 := if keep then _ else h1).
      assert (∀ l, rowKey (h2 l) = rowKey (h l)) as Hkeys.
      { intros l. subst h2 h1.
        destruct keep; rewrite ?setCell_rowKey; apply setRowSpan_rowKey. }
      apply relinkOrDelete_success. intros _. split.
      * subst h2 h1. destruct keep; rewrite ?setCell_rowSpanMap;
          rewrite setRowSpan_entry; rewrite decide_True; eauto.
      * rewrite Hkeys.
        by rewrite (findPropIndex_same_keys _ data h2 h Hkeys).
    + intros _. cbn [mbind option_bind]. apply relinkOrDelete_success.
      rewrite Hlive. done.
  - destruct (findPropLoc (mainRowKey rs) data h) as [m|]; [| done].
    cbn [mbind option_bind].
    destruct (rowSpanMap (h m) !! c) as [ms|] eqn:Hms; [| done].
    cbn [mbind option_bind]. intros Hsafe. apply relinkOrDelete_success.
    intros Hlive. rewrite Hlive in Hsafe. eauto.
Qed.

(** What the step for a column does when the removed row is the main row of
    the span: the value is copied when asked for; when one row at most
    remains the entry of [nextRow] is deleted; when more remain [nextRow]
    becomes the main row of a span one row shorter and the rows after it are
    linked to it. *)
Lemma removeStep_promotes (data : list loc) (removedRow nextRow : loc)
    (keep : bool) (h h1 : heap) (c : string) (removedRowSpan : RowSpan) :
  let index := findPropIndex (rowKey (h nextRow)) (rowsOf data h) in
  let remaining := (count removedRowSpan - 1)%Z in
  rowSpanMap (h removedRow) !! c = Some removedRowSpan →
  mainRow removedRowSpan = true →
  removeStep data removedRow nextRow keep h c = Some h1 →
  (∀ l, rowKey (h1 l) = rowKey (h l))
  ∧ (keep = true → getCell (h1 nextRow) c = getCell (h removedRow) c)
  ∧ ((remaining ≤ 1)%Z →
     rowSpanMap (h1 nextRow) !! c = None
     ∧ ∀ l, l ≠ nextRow → rowSpanMap (h1 l) !! c = rowSpanMap (h l) !! c)
  ∧ ((1 < remaining)%Z → NoDup data → arrGet data index = Some nextRow →
     rowSpanMap (h1 nextRow) !! c
     = Some (createRowSpan true (rowKey (h nextRow)) remaining remaining)
     ∧ (∀ offset, (1 ≤ offset < remaining)%Z →
          ∃ row, arrGet data (index + offset) = Some row
                 ∧ rowSpanMap (h1 row) !! c
                   = Some (createRowSpan false (rowKey (h nextRow))
                             (- offset) remaining))
     ∧ (∀ l, l ≠ nextRow →
             (∀ offset, (1 ≤ offset < remaining)%Z →
                arrGet data (index + offset) ≠ Some l) →
             rowSpanMap (h1 l) !! c = rowSpanMap (h l) !! c)).
Proof.
  intros index remaining Hrs Hmain Hrun.
  destruct (removeStep_main _ _ _ _ _ _ _ _ Hrs Hmain Hrun)
    as (ha & Hha & Hrest).
  fold remaining in Hha, Hrest.
  set (hb := if keep then _ else ha) in Hrest.
  assert (∀ l, rowKey (ha l) = rowKey (h l) ∧ cells (ha l) = cells (h l))
    as Hkeep_a.
  { intros l. destruct (_ >? _)%Z; [| by subst ha].
    destruct Hha as (ne & _ & ->).
    by rewrite setRowSpan_rowKey, setRowSpan_cells. }
  assert (∀ l, rowKey (hb l) = rowKey (h l)) as Hkeys_b.
  { intros l. subst hb. destruct keep; rewrite ?setCell_rowKey;
      by destruct (Hkeep_a l). }
  assert (∀ l, rowSpanMap (hb l) = rowSpanMap (ha l)) as Hmaps_b.
  { intros l. subst hb. destruct keep; by rewrite ?setCell_rowSpanMap. }
  split; [| split; [| split]].
  - intros l. destruct (relinkOrDelete_keeps _ _ _ _ _ _ Hrest l) as [-> _].
    apply Hkeys_b.
  - intros ->. destruct (relinkOrDelete_keeps _ _ _ _ _ _ Hrest nextRow)
      as [_ Hcells].
    unfold getCell at 1. rewrite Hcells. fold (getCell (hb nextRow) c).
    subst hb. rewrite setCell_getCell. rewrite decide_True by done.
    unfold getCell. by destruct (Hkeep_a removedRow) as [_ ->].
  - intros Hfew. apply relinkOrDelete_inv in Hrest.
    destruct (Z.gtb_spec remaining 1); [lia |]. subst h1 ha.
    split.
    + rewrite deleteRowSpan_entry. by rewrite decide_True.
    + intros l Hl. rewrite deleteRowSpan_entry.
      rewrite decide_False by tauto. by rewrite Hmaps_b.
  - intros Hmany Hdata Hplace. apply relinkOrDelete_inv in Hrest.
    destruct (Z.gtb_spec remaining 1); [| lia].
    destruct Hha as (ne & Hne & ->).
    destruct Hrest as (ms & Hms & Hrest).
    rewrite Hmaps_b, setRowSpan_entry in Hms.
    rewrite decide_True in Hms by done. injection Hms as <-.
    cbn [mainRow mainRowKey] in Hrest.
    assert (findPropIndex (rowKey (hb nextRow)) (rowsOf data hb) = index)
      as Hindex.
    { rewrite Hkeys_b. by apply findPropIndex_same_keys. }
    destruct (updateSubRowSpan_relinks data nextRow c
                (createRowSpan true (rowKey (h nextRow)) remaining remaining)
                remaining hb h1 Hdata)
      as (Hentry & Hsubs & Hothers); [by rewrite Hindex | done |].
    rewrite Hindex, Hkeys_b in Hsubs. rewrite Hindex in Hothers.
    split; [done |]. split; [done |].
    intros l Hl Hnot. rewrite (Hothers l Hl Hnot), Hmaps_b.
    rewrite setRowSpan_entry. rewrite decide_False; [done | tauto].
Qed.

(** ** Removing the main row of a span *)

(** When every spanned column of the removed row is intact the call returns,
    and on each of these columns the store is as the step for that column
    leaves it. *)
Lemma updateRowSpanWhenRemove_column (data : list loc)
    (removedRow nextRow : loc) (keep : bool) (h : heap) (c : string) :
  is_Some (rowSpanMap (h removedRow) !! c) →
  forallb (removeSafe data removedRow nextRow h)
    (objectKeys (rowSpanMap (h removedRow))) = true →
  ∃ h' h1, updateRowSpanWhenRemove data removedRow nextRow keep h = Some h'
           ∧ removeStep data removedRow nextRow keep h c = Some h1
           ∧ sameColumn c h1 h'.
Proof.
  intros [rs Hrs] Hsafe.
  set (keys := objectKeys (rowSpanMap (h removedRow))) in *.
  assert (c ∈ keys) as Hc by (apply elem_of_objectKeys; eauto).
  assert (is_Some (foldOpt (removeStep data removedRow nextRow keep) h keys))
    as [h' Hrun].
  { apply keysLoop_success.
    - intros; by eapply removeStep_frame.
    - intros; by eapply removeStep_congr.
    - apply objectKeys_NoDup.
    - intros k Hk. apply removeSafe_success.
      rewrite forallb_forall in Hsafe. by apply Hsafe, list_elem_of_In. }
  destruct (keysLoop_column (removeStep data removedRow nextRow keep)
              (λ h h' c c', removeStep_frame data removedRow nextRow keep
                              h h' c c')
              (λ h1 h2 h1' c, removeStep_congr data removedRow nextRow keep
                                h1 h2 h1' c)
              keys c h h' (objectKeys_NoDup _) Hc Hrun)
    as (h1 & Hstep & Hsame).
  exists h', h1. split; [| done].
  unfold updateRowSpanWhenRemove. fold keys.
  assert (isEmpty (Some (rowSpanMap (h removedRow))) = false) as ->; [| done].
  apply bool_decide_eq_false. intros Hdom.
  apply dom_empty_inv_L in Hdom. rewrite Hdom in Hrs. done.
Qed.

(** C3, as stated, fails in two ways. A span of size 3 that runs past the
    end of the rows: rows 0 and 1 carry a span declared for 3 rows; once
    row 0 is removed, [nextRow] becomes the main row of a span of 2, but
    [data] has no row after it and the call raises. And a span of size 2:
    the entry of [nextRow] is deleted, but the removed row, which the call
    never writes to, still has its entry. *)
Lemma updateRowSpanWhenRemove_past_the_end_and_stale_entry :
  let cut : heap := λ l,
    match l with
    | O => mkRow (Num 0) {["region" := createRowSpan true (Num 0) 3 3]} ∅
    | S _ => mkRow (Num 1) {["region" := createRowSpan false (Num 0) (-1) 3]} ∅
    end in
  let pair : heap := λ l,
    match l with
    | O => mkRow (Num 0) {["region" := createRowSpan true (Num 0) 2 2]} ∅
    | S _ => mkRow (Num 1) {["region" := createRowSpan false (Num 0) (-1) 2]} ∅
    end in
  updateRowSpanWhenRemove [1] 0 1 false cut = None
  ∧ (h' ← updateRowSpanWhenRemove [1] 0 1 false pair;
     Some (rowSpanMap (h' 1) !! "region", rowSpanMap (h' 0) !! "region"))
    = Some (None, Some (createRowSpan true (Num 0) 2 2)).
Proof. split; vm_compute; reflexivity. Qed.

(** C3, amended. Let the rows of [data] (from which the removed row has been
    taken out) have pairwise distinct keys, let [nextRow] be one of them,
    let the removed row hold the main entry of a span of size [k] on column
    [c], and let every spanned column of the removed row be intact
    ([removeSafe]: if more than one row remains, [nextRow] has an entry and
    the remaining rows are in [data] after it). Then the call
    returns and: row keys are unchanged; if [keepRowSpanData] is set, the
    value of [nextRow] on [c] is the removed row's; if [k >= 3], [nextRow]
    has the main entry [(true, its own key, k - 1, k - 1)] and the row at
    each offset [1 .. k - 2] after it has the sub entry [(false, key of
    nextRow, -offset, k - 1)]; if [k = 2], [nextRow] has no entry on [c] any
    more and no other entry on [c] is changed (in particular not the one of
    the removed row, which is no longer in [data]). *)
Theorem updateRowSpanWhenRemove_main_row (data : list loc)
    (removedRow nextRow : loc) (keep : bool) (h : heap) (c : string)
    (removedRowSpan : RowSpan) (k : Z) :
  let index := findPropIndex (rowKey (h nextRow)) (rowsOf data h) in
  NoDup (rowKey <$> rowsOf data h) → nextRow ∈ data →
  rowSpanMap (h removedRow) !! c = Some removedRowSpan →
  mainRow removedRowSpan = true →
  count removedRowSpan = k → spanCount removedRowSpan = k →
  forallb (removeSafe data removedRow nextRow h)
    (objectKeys (rowSpanMap (h removedRow))) = true →
  ∃ h',
    updateRowSpanWhenRemove data removedRow nextRow keep h = Some h'
    ∧ (∀ l, rowKey (h' l) = rowKey (h l))
    ∧ (keep = true → getCell (h' nextRow) c = getCell (h removedRow) c)
    ∧ ((3 ≤ k)%Z →
       rowSpanMap (h' nextRow) !! c
       = Some (createRowSpan true (rowKey (h' nextRow)) (k - 1) (k - 1))
       ∧ ∀ offset, (1 ≤ offset < k - 1)%Z →
           ∃ row, arrGet data (index + offset) = Some row
                  ∧ rowSpanMap (h' row) !! c
                    = Some (createRowSpan false (rowKey (h' nextRow))
                              (- offset) (k - 1)))
    ∧ (k = 2%Z →
       rowSpanMap (h' nextRow) !! c = None
       ∧ ∀ l, l ≠ nextRow → rowSpanMap (h' l) !! c = rowSpanMap (h l) !! c).
Proof.
  intros index Hdistinct Hin Hrs Hmain Hcount _ Hsafe.
  pose proof (distinct_keys_NoDup data h Hdistinct) as Hdata.
  pose proof (distinct_keys_found data h nextRow Hdistinct Hin) as Hplace.
  destruct (updateRowSpanWhenRemove_column data removedRow nextRow keep h c)
    as (h' & h1 & Hrun & Hstep & Hsame); [eauto | done |].
  destruct (removeStep_promotes _ _ _ _ _ _ _ _ Hrs Hmain Hstep)
    as (Hkeys & Hcopy & Hfew & Hmany).
  rewrite Hcount in Hfew, Hmany.
  assert (∀ l, rowSpanMap (h' l) !! c = rowSpanMap (h1 l) !! c) as Hentries
    by (intros l; by destruct (Hsame l) as (_ & ? & _)).
  assert (∀ l, rowKey (h' l) = rowKey (h l)) as Hkeys'.
  { intros l. destruct (Hsame l) as (<- & _ & _). apply Hkeys. }
  exists h'. split; [done |]. split; [done |]. split; [| split].
  - intros Hkeep. destruct (Hsame nextRow) as (_ & _ & <-). by apply Hcopy.
  - intros Hk. destruct Hmany as (Hentry & Hsubs & _); [lia | done | done |].
    rewrite Hkeys'. split; [by rewrite Hentries |].
    intros offset Hoffset. destruct (Hsubs offset Hoffset) as (row & ? & ?).
    exists row. by rewrite Hentries.
  - intros ->. destruct Hfew as [Hgone Hothers]; [lia |].
    split; [by rewrite Hentries |]. intros l Hl. rewrite Hentries.
    by apply Hothers.
Qed.

Lemma updateRowSpanWhenRemove_main_row_witness :
  let h : heap := λ l,
    match l with
    | 0 => mkRow (Num 0) {["region" := createRowSpan true (Num 0) 3 3]}
             {["region" := Str "Asia"]}
    | 1 => mkRow (Num 1) {["region" := createRowSpan false (Num 0) (-1) 3]} ∅
    | _ => mkRow (Num 2) {["region" := createRowSpan false (Num 0) (-2) 3]} ∅
    end in
  ∃ h', updateRowSpanWhenRemove [1; 2] 0 1 true h = Some h'
        ∧ getCell (h' 1) "region" = Str "Asia"
        ∧ rowSpanMap (h' 1) !! "region"
          = Some (createRowSpan true (rowKey (h' 1)) 2 2)
        ∧ rowSpanMap (h' 2) !! "region"
          = Some (createRowSpan false (rowKey (h' 1)) (-1) 2).
Proof.
  intros h.
  destruct (updateRowSpanWhenRemove_main_row [1; 2] 0 1 true h "region"
              (createRowSpan true (Num 0) 3 3) 3%Z)
    as (h' & Hrun & Hkeys & Hcopy & Hmany & _).
  - apply (bool_decide_unpack _). vm_compute. exact I.
  - apply (bool_decide_unpack _). vm_compute. exact I.
  - reflexivity.
  - reflexivity.
  - reflexivity.
  - reflexivity.
  - reflexivity.
  - destruct Hmany as [Hmain Hsubs]; [lia |].
    destruct (Hsubs 1%Z) as (row & Hrow & Hsub); [lia |].
    vm_compute in Hrow. injection Hrow as <-.
    exists h'. split; [exact Hrun |]. split; [exact (Hcopy eq_refl) |].
    split; [exact Hmain | exact Hsub].
Defined.

(** ** The value of the merged cell is kept, also when the span collapses *)

(** C9, as stated, fails when a span of the removed row on another column
    is not intact. The rows are built by [createData] from two input rows,
    the first of which declares a span of 2 rows on ["c"] and a span of 3
    rows on ["a"], which runs past the end of the dataset. The first row is
    removed with [keepRowSpanData] set: it holds the main entry of the span
    on ["c"], and yet the call raises (on column ["a"], where
    [updateSubRowSpan] reads a row that does not exist), so that it does not
    end with the value of the removed row copied into [nextRow]. *)
Lemma updateRowSpanWhenRemove_raises_without_copy :
  let rows :=
    createData
      [mkOptRow Undefined {["c" := Str "Asia"]}
         (Some {["a" := 3%Z; "c" := 2%Z]});
       mkOptRow Undefined {["c" := Str "Europe"]} None]
      (mkColumn None [] ∅) true None in
  let h := heapOf rows in
  rowSpanMap (h 0) !! "c" = Some (createRowSpan true (Num 0) 2 2)
  ∧ getCell (h 0) "c" = Str "Asia"
  ∧ getCell (h 1) "c" = Str "Europe"
  ∧ updateRowSpanWhenRemove [1] 0 1 true h = None.
Proof. repeat split; vm_compute; reflexivity. Qed.

(** C9, amended. When the removed row holds the main entry of a span on
    column [c], [keepRowSpanData] is set and every spanned column of the
    removed row is intact ([removeSafe]), the call returns and [nextRow]
    holds the removed row's value on [c] afterwards, whatever the size of
    the span; and when the span had at most 2 rows, the entry of [nextRow]
    on [c] is deleted: the row received the value without becoming a main
    row. *)
Theorem updateRowSpanWhenRemove_copies_value (data : list loc)
    (removedRow nextRow : loc) (h : heap) (c : string)
    (removedRowSpan : RowSpan) :
  rowSpanMap (h removedRow) !! c = Some removedRowSpan →
  mainRow removedRowSpan = true →
  forallb (removeSafe data removedRow nextRow h)
    (objectKeys (rowSpanMap (h removedRow))) = true →
  ∃ h',
    updateRowSpanWhenRemove data removedRow nextRow true h = Some h'
    ∧ getCell (h' nextRow) c = getCell (h removedRow) c
    ∧ ((count removedRowSpan ≤ 2)%Z → rowSpanMap (h' nextRow) !! c = None).
Proof.
  intros Hrs Hmain Hsafe.
  destruct (updateRowSpanWhenRemove_column data removedRow nextRow true h c)
    as (h' & h1 & Hrun & Hstep & Hsame); [eauto | done |].
  destruct (removeStep_promotes _ _ _ _ _ _ _ _ Hrs Hmain Hstep)
    as (_ & Hcopy & Hfew & _).
  destruct (Hsame nextRow) as (_ & Hentry & Hcell).
  exists h'. split; [done |]. split.
  - rewrite <- Hcell. by apply Hcopy.
  - intros Hsize. rewrite <- Hentry. apply Hfew. lia.
Qed.

Lemma updateRowSpanWhenRemove_copies_value_witness :
  let h : heap := λ l,
    match l with
    | O => mkRow (Num 0) {["region" := createRowSpan true (Num 0) 2 2]}
             {["region" := Str "Asia"]}
    | S _ => mkRow (Num 1) {["region" := createRowSpan false (Num 0) (-1) 2]}
               {["region" := Str "Europe"]}
    end in
  ∃ h', updateRowSpanWhenRemove [1] 0 1 true h = Some h'
        ∧ getCell (h' 1) "region" = Str "Asia"
        ∧ rowSpanMap (h' 1) !! "region" = None.
Proof.
  intros h.
  destruct (updateRowSpanWhenRemove_copies_value [1] 0 1 h "region"
              (createRowSpan true (Num 0) 2 2))
    as (h' & Hrun & Hcopy & Hgone).
  - reflexivity.
  - reflexivity.
  - reflexivity.
  - exists h'. split; [exact Hrun |]. split; [exact Hcopy |].
    apply Hgone. simpl. lia.
Defined.

(** * Further properties *)

(** ** What [getRowSpanRange] returns *)

Lemma getRowSpanRangeFuel_result (visibleColumns : list ColumnInfo)
    (rows : list Row) (colRange : Z * Z) (fuel : nat) (s e s' e' : Z) :
  getRowSpanRangeFuel fuel (s, e) colRange visibleColumns rows
  = Some (Some (s', e')) →
  (s' ≤ s)%Z ∧ (e ≤ e')%Z
  ∧ rowSpanRangePass (s', e') colRange visibleColumns rows = Some (s', e').
Proof.
  revert s e. induction fuel as [|fuel IH]; intros s e; [done |].
  cbn [getRowSpanRangeFuel].
  destruct (rowSpanRangePass (s, e) colRange visibleColumns rows)
    as [[s1 e1]|] eqn:Hpass; [| done].
  cbn [fst snd].
  destruct (bool_decide (s1 ≠ s) || bool_decide (e1 ≠ e)) eqn:Hchanged.
  - intros Hrest. apply IH in Hrest as (? & ? & ?).
    apply rowSpanRange_fold_widens in Hpass as (? & ? & _).
    split; [lia |]. split; [lia | done].
  - intros [= <- <-]. apply orb_false_iff in Hchanged as [Hs He].
    apply bool_decide_eq_false in Hs, He.
    assert (s1 = s) as -> by (destruct (decide (s1 = s)); tauto).
    assert (e1 = e) as -> by (destruct (decide (e1 = e)); tauto).
    split; [lia |]. split; [lia | done].
Qed.

Lemma getRowSpanRange_fixed (visibleColumns : list ColumnInfo) (data : Data)
    (colRange r : Z * Z) :
  rowSpanRangePass r colRange visibleColumns (rawData data) = Some r →
  getRowSpanRange r colRange visibleColumns data = Some r.
Proof.
  intros Hpass. unfold getRowSpanRange.
  replace (2 * length (rawData data) + 2)
    with (S (2 * length (rawData data) + 1)) by lia.
  cbn [getRowSpanRangeFuel]. rewrite Hpass. destruct r as [s e].
  cbn [fst snd]. rewrite !bool_decide_eq_false_2 by (intros H; by apply H).
  done.
Qed.

Lemma getRowSpanRange_result (visibleColumns : list ColumnInfo) (data : Data)
    (rowRange colRange r : Z * Z) :
  getRowSpanRange rowRange colRange visibleColumns data = Some r →
  (r.1 ≤ rowRange.1)%Z ∧ (rowRange.2 ≤ r.2)%Z
  ∧ rowSpanRangePass r colRange visibleColumns (rawData data) = Some r.
Proof.
  unfold getRowSpanRange. destruct rowRange as [s e], r as [s' e'].
  destruct (getRowSpanRangeFuel _ _ _ _ _) as [[found|]|] eqn:Hrun;
    cbn [mjoin option_join]; try done.
  intros [= ->]. by apply getRowSpanRangeFuel_result in Hrun.
Qed.

(** X1. Whenever [getRowSpanRange] returns, the range returned contains the
    range given, one more pass over the columns leaves it as it is, and
    calling [getRowSpanRange] on it returns it again. *)
Theorem getRowSpanRange_widens_to_fixed_point
    (visibleColumns : list ColumnInfo) (data : Data)
    (rowRange colRange r : Z * Z) :
  getRowSpanRange rowRange colRange visibleColumns data = Some r →
  (r.1 ≤ rowRange.1)%Z ∧ (rowRange.2 ≤ r.2)%Z
  ∧ rowSpanRangePass r colRange visibleColumns (rawData data) = Some r
  ∧ getRowSpanRange r colRange visibleColumns data = Some r.
Proof.
  intros (? & ? & Hpass)%getRowSpanRange_result.
  repeat split; try done. by apply getRowSpanRange_fixed.
Qed.

Lemma getRowSpanRange_widens_to_fixed_point_witness :
  let natural := mkSortState true [mkSortedColumn "sortKey" true] in
  let rows :=
    createData
      [mkOptRow Undefined ∅ None;
       mkOptRow Undefined ∅ (Some {["region" := 2%Z; "country" := 3%Z]});
       mkOptRow Undefined ∅ None; mkOptRow Undefined ∅ None]
      (mkColumn None [] ∅) true None in
  let visibleColumns :=
    [mkColumnInfo "region" false; mkColumnInfo "country" false] in
  (1 ≤ 2)%Z ∧ (2 ≤ 3)%Z
  ∧ rowSpanRangePass (1, 3)%Z (0, 1)%Z visibleColumns rows = Some (1, 3)%Z
  ∧ getRowSpanRange (1, 3)%Z (0, 1)%Z visibleColumns (mkData rows natural)
    = Some (1, 3)%Z.
Proof.
  intros natural rows visibleColumns.
  apply (getRowSpanRange_widens_to_fixed_point visibleColumns
           (mkData rows natural) (2, 2)%Z (0, 1)%Z (1, 3)%Z).
  vm_compute. reflexivity.
Defined.

(** X2. [getRowSpanRange] with an empty column range (end before start)
    returns the row range as given, whatever it is; with a column range that
    is not empty it raises as soon as the start row or the end row is not a
    row of the data, or the first column index is not a visible column. *)
Theorem getRowSpanRange_edges (visibleColumns : list ColumnInfo) (data : Data)
    (rowRange colRange : Z * Z) :
  ((colRange.2 < colRange.1)%Z →
   getRowSpanRange rowRange colRange visibleColumns data = Some rowRange) ∧
  ((colRange.1 ≤ colRange.2)%Z →
   arrGet (rawData data) rowRange.1 = None
   ∨ arrGet (rawData data) rowRange.2 = None
   ∨ arrGet visibleColumns colRange.1 = None →
   getRowSpanRange rowRange colRange visibleColumns data = None).
Proof.
  split.
  - intros Hempty. apply getRowSpanRange_fixed. unfold rowSpanRangePass.
    assert (seqZ colRange.1 (colRange.2 - colRange.1 + 1) = []) as ->; [| done].
    unfold seqZ. replace (Z.to_nat (colRange.2 - colRange.1 + 1)) with 0 by lia.
    done.
  - intros Hsome Hmissing. unfold getRowSpanRange.
    replace (2 * length (rawData data) + 2)
      with (S (2 * length (rawData data) + 1)) by lia.
    cbn [getRowSpanRangeFuel].
    assert (rowSpanRangePass rowRange colRange visibleColumns (rawData data)
            = None) as ->; [| done].
    unfold rowSpanRangePass.
    assert (seqZ colRange.1 (colRange.2 - colRange.1 + 1)
            = colRange.1 :: seqZ (colRange.1 + 1) (colRange.2 - colRange.1))
      as ->.
    { rewrite (seqZ_cons colRange.1) by lia. do 2 f_equal; lia. }
    cbn [foldOpt].
    assert (rowSpanRangeStep visibleColumns (rawData data) rowRange colRange.1
            = None) as ->; [| done].
    unfold rowSpanRangeStep. destruct rowRange as [s e]. cbn [fst snd] in *.
    destruct (arrGet (rawData data) s); [| done].
    destruct (arrGet (rawData data) e); [| done].
    destruct (arrGet visibleColumns colRange.1); [| done].
    destruct Hmissing as [? | [? | ?]]; done.
Qed.

Lemma getRowSpanRange_edges_witness :
  let natural := mkSortState true [mkSortedColumn "sortKey" true] in
  let data := mkData [mkRow (Num 0) ∅ ∅] natural in
  getRowSpanRange (5, 9)%Z (1, 0)%Z [] data = Some (5, 9)%Z
  ∧ getRowSpanRange (0, 1)%Z (0, 0)%Z [mkColumnInfo "region" false] data = None.
Proof.
  intros natural data. split.
  - apply (proj1 (getRowSpanRange_edges [] data (5, 9)%Z (1, 0)%Z)).
    simpl. lia.
  - apply (proj2 (getRowSpanRange_edges [mkColumnInfo "region" false] data
                    (0, 1)%Z (0, 0)%Z)).
    + simpl. lia.
    + right. left. reflexivity.
Defined.

(** X3. [getMaxRowSpanRange] starts from the focus row whenever there is
    one, and returns a range that contains the range between that start and
    the end row given, in the same direction: downwards when the start is
    not below the end, upwards (first component the larger) otherwise. *)
Theorem getMaxRowSpanRange_keeps_direction
    (visibleColumns : list ColumnInfo) (data : Data)
    (rowRange colRange r : Z * Z) (focusRowIndex : option Z) :
  let start := default rowRange.1 focusRowIndex in
  getMaxRowSpanRange rowRange colRange visibleColumns focusRowIndex data
  = Some r →
  if (start >? rowRange.2)%Z
  then (r.2 ≤ rowRange.2)%Z ∧ (start ≤ r.1)%Z
  else (r.1 ≤ start)%Z ∧ (rowRange.2 ≤ r.2)%Z.
Proof.
  intros start. unfold getMaxRowSpanRange.
  assert ((match focusRowIndex with
           | Some focus =>
               if bool_decide (rowRange.1 ≠ focus) then focus else rowRange.1
           | None => rowRange.1
           end) = start) as ->.
  { subst start. destruct focusRowIndex as [f|]; [| done]. simpl.
    case_bool_decide as Hf; [done |].
    destruct (decide (rowRange.1 = f)); [done | tauto]. }
  destruct (getRowSpanRange _ _ _ _) as [[s' e']|] eqn:Hrun;
    cbn [mbind option_bind]; [| done].
  apply getRowSpanRange_result in Hrun as (Hs & He & _).
  unfold getSortedRange in Hs, He. cbn [fst snd] in Hs, He.
  destruct (Z.gtb_spec start rowRange.2); intros [= <-]; cbn [fst snd] in *;
    lia.
Qed.

Lemma getMaxRowSpanRange_keeps_direction_witness :
  let natural := mkSortState true [mkSortedColumn "sortKey" true] in
  let rows :=
    createData
      [mkOptRow Undefined ∅ (Some {["region" := 2%Z]});
       mkOptRow Undefined ∅ None;
       mkOptRow Undefined ∅ (Some {["region" := 2%Z]});
       mkOptRow Undefined ∅ None]
      (mkColumn None [] ∅) true None in
  getMaxRowSpanRange (0, 1)%Z (0, 0)%Z [mkColumnInfo "region" false]
    (Some 3%Z) (mkData rows natural) = Some (3, 0)%Z
  ∧ (0 ≤ 1)%Z ∧ (3 ≤ 3)%Z.
Proof.
  intros natural rows.
  assert (getMaxRowSpanRange (0, 1)%Z (0, 0)%Z [mkColumnInfo "region" false]
            (Some 3%Z) (mkData rows natural) = Some (3, 0)%Z) as Hrun
    by (vm_compute; reflexivity).
  split; [exact Hrun |].
  exact (getMaxRowSpanRange_keeps_direction [mkColumnInfo "region" false]
           (mkData rows natural) (0, 1)%Z (0, 0)%Z (3, 0)%Z (Some 3%Z) Hrun).
Defined.

(** ** Entries of a dataset built in one forward pass *)

Lemma subRowSpanOf_inv (e sub : RowSpan) :
  subRowSpanOf e = Some sub →
  (spanCount e > 1 - count e)%Z
  ∧ sub = createRowSpan false (mainRowKey e)
            (if (count e >=? 0)%Z then (-1)%Z else (count e - 1)%Z)
            (spanCount e).
Proof.
  unfold subRowSpanOf. destruct (Z.gtb_spec (spanCount e) (1 - count e));
    [| done].
  intros [= <-]. split; [lia | done].
Qed.

Section linked_entries.
Variable data : list OptRow.
Variable column : Column.
Variable lazyObservable : bool.
Variable c : string.

Let rows := createData data column lazyObservable None.

(** Every entry is the main entry of its own row, with equal [count] and
    [spanCount], or a sub entry lying [d = -count] rows below the row that
    holds the main entry of its span. *)
Lemma createData_entry_linked (i : nat) (out : Row) (e : RowSpan) :
  rows !! i = Some out → rowSpanMap out !! c = Some e →
  (mainRow e = true ∧ mainRowKey e = rowKey out ∧ count e = spanCount e) ∨
  (mainRow e = false ∧
   ∃ d src, 1 ≤ d ≤ i ∧ count e = (- Z.of_nat d)%Z
            ∧ rows !! (i - d) = Some src
            ∧ rowSpanMap src !! c
              = Some (createRowSpan true (rowKey src) (spanCount e)
                        (spanCount e))
            ∧ mainRowKey e = rowKey src
            ∧ (1 ≤ spanCount e)%Z
            ∧ (d = 1 ∨ (Z.of_nat d < spanCount e)%Z)).
Proof.
  revert out e. induction i as [|i IH]; intros out e Hout He.
  - assert (is_Some (data !! 0)) as [row Hrow].
    { apply lookup_lt_is_Some.
      rewrite <- (createData_length data column lazyObservable).
      by eapply lookup_lt_Some. }
    destruct (createData_entry data column lazyObservable c 0 row Hrow)
      as (out' & Hout' & _ & Hentry).
    fold rows in Hout'. rewrite Hout in Hout'. injection Hout' as <-.
    rewrite He in Hentry. unfold entryOf in Hentry. simpl in Hentry.
    destruct (optRowSpan row ≫= (.!! c)) as [k|]; [| done].
    injection Hentry as ->. by left.
  - assert (is_Some (data !! S i)) as [row Hrow].
    { apply lookup_lt_is_Some.
      rewrite <- (createData_length data column lazyObservable).
      by eapply lookup_lt_Some. }
    destruct (createData_entry data column lazyObservable c (S i) row Hrow)
      as (out' & Hout' & _ & Hentry).
    fold rows in Hout', Hentry. rewrite Hout in Hout'. injection Hout' as <-.
    rewrite He in Hentry. unfold entryOf in Hentry.
    assert (∀ k, Some e = (λ n, createRowSpan true (rowKey out) n n) <$> k →
              mainRow e = true ∧ mainRowKey e = rowKey out
              ∧ count e = spanCount e) as Hdeclared.
    { intros [k|] [= ->]. done. }
    destruct (rows !! i) as [prev|] eqn:Hprev; simpl in Hentry;
      [| left; eauto].
    destruct (rowSpanMap prev !! c) as [e'|] eqn:He'; simpl in Hentry;
      [| left; eauto].
    destruct (subRowSpanOf e') as [sub|] eqn:Hsub; [| left; eauto].
    injection Hentry as ->. right.
    apply subRowSpanOf_inv in Hsub as [Hlive ->]. simpl. split; [done |].
    destruct (IH prev e' eq_refl He')
      as [(Hmain & Hkey & Hcount)
         | (Hmain & d & src & Hd & Hcount & Hsrc & Hsrcentry & Hkey & Hk & Hin)].
    + exists 1, prev. replace (S i - 1) with i by lia.
      destruct (Z.geb_spec (count e') 0); [| lia].
      split; [lia |]. split; [done |]. split; [done |].
      split; [| split; [done | split; [lia | by left]]].
      rewrite He'. f_equal. destruct e' as [m k n sc]. simpl in *. congruence.
    + exists (S d), src. replace (S i - S d) with (i - d) by lia.
      destruct (Z.geb_spec (count e') 0); [lia |].
      split; [lia |]. split; [lia |]. split; [done |]. split; [done |].
      split; [done |]. split; [done |]. right. lia.
Qed.

End linked_entries.

(** X4. In a dataset built by [createData] in one forward pass, on every
    column each entry is well linked: a main entry carries the key of its
    own row and equal [count] and [spanCount]; a sub entry has a negative
    [count = -d], lies [d] rows below a row holding the main entry of the
    same [spanCount], carries the key of that row, and [d] is below the
    [spanCount] (or is 1). In particular no entry points to a missing row. *)
Theorem createData_entries_well_linked (data : list OptRow) (column : Column)
    (lazyObservable : bool) (c : string) (i : nat) (out : Row) (e : RowSpan) :
  let rows := createData data column lazyObservable None in
  rows !! i = Some out → rowSpanMap out !! c = Some e →
  (mainRow e = true ∧ mainRowKey e = rowKey out ∧ count e = spanCount e) ∨
  (mainRow e = false ∧
   ∃ d src, 1 ≤ d ≤ i ∧ count e = (- Z.of_nat d)%Z
            ∧ rows !! (i - d) = Some src
            ∧ rowSpanMap src !! c
              = Some (createRowSpan true (rowKey src) (spanCount e)
                        (spanCount e))
            ∧ mainRowKey e = rowKey src
            ∧ (1 ≤ spanCount e)%Z
            ∧ (d = 1 ∨ (Z.of_nat d < spanCount e)%Z)).
Proof. apply createData_entry_linked. Qed.

Lemma createData_entries_well_linked_witness :
  let data :=
    [mkOptRow Undefined ∅ None;
     mkOptRow Undefined ∅ (Some {["region" := 3%Z]});
     mkOptRow Undefined ∅ None; mkOptRow Undefined ∅ None] in
  let rows := createData data (mkColumn None [] ∅) true None in
  let e := createRowSpan false (Num 1) (-2) 3 in
  (mainRow e = true ∧ mainRowKey e = Num 3 ∧ count e = spanCount e) ∨
  (mainRow e = false ∧
   ∃ d src, 1 ≤ d ≤ 3 ∧ count e = (- Z.of_nat d)%Z
            ∧ rows !! (3 - d) = Some src
            ∧ rowSpanMap src !! "region"
              = Some (createRowSpan true (rowKey src) (spanCount e)
                        (spanCount e))
            ∧ mainRowKey e = rowKey src
            ∧ (1 ≤ spanCount e)%Z
            ∧ (d = 1 ∨ (Z.of_nat d < spanCount e)%Z)).
Proof.
  intros data rows e.
  apply (createData_entries_well_linked data (mkColumn None [] ∅) true
           "region" 3 (mkRow (Num 3) {["region" := e]} ∅) e).
  - vm_compute. reflexivity.
  - reflexivity.
Defined.

Lemma findPropIndex_distinct (rows : list Row) (j : nat) (src : Row) :
  NoDup (rowKey <$> rows) → rows !! j = Some src →
  findPropIndex (rowKey src) rows = Z.of_nat j.
Proof.
  intros Hkeys Hsrc. apply (findPropIndex_found _ _ j src Hsrc eq_refl).
  intros j' r Hj' Hr Hsame.
  pose proof (distinct_keys_same_row _ _ _ _ _ Hkeys Hr Hsrc Hsame). lia.
Qed.

(** The row holding the main entry of the span an entry belongs to. *)
Lemma createData_entry_main (data : list OptRow) (column : Column)
    (lazyObservable : bool) (c : string) (i : nat) (out : Row) (e : RowSpan) :
  let rows := createData data column lazyObservable None in
  rows !! i = Some out → rowSpanMap out !! c = Some e →
  ∃ top main,
    top ≤ i ∧ rows !! top = Some main ∧ mainRowKey e = rowKey main
    ∧ rowSpanMap main !! c
      = Some (createRowSpan true (rowKey main) (spanCount e) (spanCount e))
    ∧ (mainRow e = true → top = i)
    ∧ ((2 ≤ spanCount e)%Z → (Z.of_nat i < Z.of_nat top + spanCount e)%Z).
Proof.
  intros rows Hout He.
  destruct (createData_entry_linked data column lazyObservable c i out e
              Hout He)
    as [(Hmain & Hkey & Hcount)
       | (Hmain & d & src & Hd & Hcount & Hsrc & Hsrcentry & Hkey & Hk & Hin)].
  - exists i, out. split; [lia |]. split; [done |]. split; [done |].
    split; [| split; [done | lia]].
    rewrite He. f_equal. destruct e as [m k n sc]. simpl in *. congruence.
  - exists (i - d), src. split; [lia |]. split; [done |]. split; [done |].
    split; [done |]. split; [congruence | lia].
Qed.

(** X5. With [lazyObservable] set and no key column configured (none, or
    the empty name), [createData] gives the row at index [i] the key [i];
    the row keys are then pairwise distinct. *)
Theorem createData_index_keys (data : list OptRow) (column : Column) :
  let rows := createData data column true None in
  keyColumnName column = None ∨ keyColumnName column = Some "" →
  (∀ i out, rows !! i = Some out → rowKey out = Num (Z.of_nat i))
  ∧ NoDup (rowKey <$> rows).
Proof.
  intros rows Hkey.
  assert (∀ i out, rows !! i = Some out → rowKey out = Num (Z.of_nat i))
    as Hindex.
  { intros i out Hout.
    assert (is_Some (data !! i)) as [row Hrow].
    { apply lookup_lt_is_Some. rewrite <- (createData_length data column true).
      by eapply lookup_lt_Some. }
    destruct (createData_entry data column true "" i row Hrow)
      as (out' & Hout' & Hkeyof & _).
    fold rows in Hout'. rewrite Hout in Hout'. injection Hout' as <-.
    rewrite Hkeyof. unfold keyOf, createRawRow.
    destruct Hkey as [-> | ->]; done. }
  split; [done |]. apply NoDup_alt. intros i j key Hi Hj.
  rewrite list_lookup_fmap in Hi, Hj.
  destruct (rows !! i) as [a|] eqn:Ha; [| done].
  destruct (rows !! j) as [b|] eqn:Hb; [| done].
  simpl in Hi, Hj. rewrite (Hindex i a Ha) in Hi. rewrite (Hindex j b Hb) in Hj.
  assert (Num (Z.of_nat i) = Num (Z.of_nat j)) as [= ?] by congruence. lia.
Qed.

Lemma createData_index_keys_witness :
  let rows :=
    createData [mkOptRow (Num 7) ∅ None; mkOptRow (Num 7) ∅ None]
      (mkColumn None [] ∅) true None in
  (∀ i out, rows !! i = Some out → rowKey out = Num (Z.of_nat i))
  ∧ NoDup (rowKey <$> rows).
Proof.
  intros rows.
  apply (createData_index_keys
           [mkOptRow (Num 7) ∅ None; mkOptRow (Num 7) ∅ None]
           (mkColumn None [] ∅)).
  left. reflexivity.
Defined.

(** X6. In a dataset built by [createData] with pairwise distinct row keys,
    [getRowSpanTopIndex] and [getRowSpanBottomIndex] give, for every row
    with an entry on the column, the same pair of indices as for the main
    row of its span: the index of the main row, at or above the row, and
    that index plus [spanCount - 1]; for a span of two rows or more the row
    lies between the two. *)
Theorem getRowSpan_indexes_of_members (data : list OptRow) (column : Column)
    (lazyObservable : bool) (c : string) (i : nat) (out : Row) (e : RowSpan) :
  let rows := createData data column lazyObservable None in
  NoDup (rowKey <$> rows) →
  rows !! i = Some out → rowSpanMap out !! c = Some e →
  ∃ top,
    top ≤ i
    ∧ getRowSpanTopIndex (Z.of_nat i) c rows = Some (Z.of_nat top)
    ∧ getRowSpanBottomIndex (Z.of_nat i) c rows
      = Some (Finite (Z.of_nat top + spanCount e - 1))
    ∧ getRowSpanTopIndex (Z.of_nat top) c rows = Some (Z.of_nat top)
    ∧ getRowSpanBottomIndex (Z.of_nat top) c rows
      = Some (Finite (Z.of_nat top + spanCount e - 1))
    ∧ ((2 ≤ spanCount e)%Z → (Z.of_nat i ≤ Z.of_nat top + spanCount e - 1)%Z).
Proof.
  intros rows Hkeys Hout He.
  destruct (createData_entry_main data column lazyObservable c i out e Hout He)
    as (top & main & Htop & Hmain & Hkey & Hentry & _ & Hin).
  fold rows in Hmain.
  pose proof (findPropIndex_distinct rows top main Hkeys Hmain) as Hindex.
  exists top. split; [done |].
  unfold getRowSpanTopIndex, getRowSpanBottomIndex, getRowSpan.
  rewrite !arrGet_nat, Hout, Hmain. simpl.
  rewrite (readSpan_own _ _ _ He), (readSpan_own _ _ _ Hentry). simpl.
  rewrite Hkey, Hindex. repeat split; try done. lia.
Qed.

Lemma getRowSpan_indexes_of_members_witness :
  let data :=
    [mkOptRow Undefined ∅ None;
     mkOptRow Undefined ∅ (Some {["region" := 3%Z]});
     mkOptRow Undefined ∅ None; mkOptRow Undefined ∅ None] in
  let rows := createData data (mkColumn None [] ∅) true None in
  ∃ top,
    top ≤ 3
    ∧ getRowSpanTopIndex 3%Z "region" rows = Some (Z.of_nat top)
    ∧ getRowSpanBottomIndex 3%Z "region" rows
      = Some (Finite (Z.of_nat top + 3 - 1))
    ∧ getRowSpanTopIndex (Z.of_nat top) "region" rows = Some (Z.of_nat top)
    ∧ getRowSpanBottomIndex (Z.of_nat top) "region" rows
      = Some (Finite (Z.of_nat top + 3 - 1))
    ∧ ((2 ≤ 3)%Z → (3 ≤ Z.of_nat top + 3 - 1)%Z).
Proof.
  intros data rows.
  apply (getRowSpan_indexes_of_members data (mkColumn None [] ∅) true "region"
           3 (mkRow (Num 3) {["region" := createRowSpan false (Num 1) (-2) 3]} ∅)
           (createRowSpan false (Num 1) (-2) 3)).
  - apply (bool_decide_unpack _). vm_compute. exact I.
  - vm_compute. reflexivity.
  - reflexivity.
Defined.

(** X7. In a dataset built by [createData] with pairwise distinct row keys,
    [getMainRowSpan] never raises on the entry of a row: it returns the main
    entry of the span, which has the key and the [spanCount] of the entry
    given and a [count] equal to its [spanCount]. *)
Theorem getMainRowSpan_of_built_entry (data : list OptRow) (column : Column)
    (lazyObservable : bool) (c : string) (i : nat) (out : Row) (e : RowSpan) :
  let rows := createData data column lazyObservable None in
  NoDup (rowKey <$> rows) →
  rows !! i = Some out → rowSpanMap out !! c = Some e →
  getMainRowSpan c e rows
  = Some (Some (createRowSpan true (mainRowKey e) (spanCount e) (spanCount e))).
Proof.
  intros rows Hkeys Hout He.
  destruct (createData_entry_main data column lazyObservable c i out e Hout He)
    as (top & main & Htop & Hmain & Hkey & Hentry & Hself & _).
  fold rows in Hmain. unfold getMainRowSpan.
  destruct (mainRow e) eqn:Hkind.
  - specialize (Hself eq_refl). subst top.
    rewrite Hout in Hmain. injection Hmain as <-.
    rewrite He in Hentry. rewrite Hkey. by rewrite Hentry.
  - rewrite Hkey, (findPropIndex_distinct rows top main Hkeys Hmain).
    rewrite arrGet_nat, Hmain. simpl. by rewrite Hentry.
Qed.

Lemma getMainRowSpan_of_built_entry_witness :
  let data :=
    [mkOptRow Undefined ∅ (Some {["region" := 2%Z]});
     mkOptRow Undefined ∅ None] in
  let rows := createData data (mkColumn None [] ∅) true None in
  getMainRowSpan "region" (createRowSpan false (Num 0) (-1) 2) rows
  = Some (Some (createRowSpan true (Num 0) 2 2)).
Proof.
  intros data rows.
  apply (getMainRowSpan_of_built_entry data (mkColumn None [] ∅) true "region"
           1 (mkRow (Num 1) {["region" := createRowSpan false (Num 0) (-1) 2]} ∅)
           (createRowSpan false (Num 0) (-1) 2)).
  - apply (bool_decide_unpack _). vm_compute. exact I.
  - vm_compute. reflexivity.
  - reflexivity.
Defined.

(** ** Largest span count of a row *)

Lemma maxSpanCount_fold (m : gmap string RowSpan) (keys : list string)
    (acc : Z) :
  (∀ k, k ∈ keys → is_Some (m !! k)) →
  ∃ n, foldOpt (maxSpanCountStep m) acc keys = Some n
       ∧ (acc ≤ n)%Z
       ∧ (∀ k e, k ∈ keys → m !! k = Some e → (spanCount e ≤ n)%Z)
       ∧ (n = acc ∨ ∃ k e, k ∈ keys ∧ m !! k = Some e ∧ spanCount e = n).
Proof.
  revert acc. induction keys as [|k keys IH]; intros acc Hkeys; cbn [foldOpt].
  - exists acc. split; [done |]. split; [lia |]. split; [| by left].
    intros k e Hk. by apply elem_of_nil in Hk.
  - destruct (Hkeys k) as [e He]; [by left |].
    assert (maxSpanCountStep m acc k = Some (Z.max acc (spanCount e))) as ->
      by (unfold maxSpanCountStep; by rewrite He).
    cbn [mbind option_bind].
    destruct (IH (Z.max acc (spanCount e))) as (n & -> & Hacc & Hall & Hsome).
    { intros k' Hk'. apply Hkeys. by right. }
    exists n. split; [done |]. split; [lia |]. split.
    + intros k' e' [-> | Hk']%elem_of_cons He'; [| by eapply Hall].
      rewrite He in He'. injection He' as <-. lia.
    + destruct Hsome as [-> | (k' & e' & Hk' & He' & <-)].
      * destruct (Z.max_spec acc (spanCount e)) as [[_ ->] | [_ ->]];
          [| by left].
        right. exists k, e. split; [by left | done].
      * right. exists k', e'. split; [by right | done].
Qed.

(** X8. [getMaxRowSpanCount] raises when the index is not a row of the
    data. Otherwise it returns a number that is at least 0 and at least the
    [spanCount] of every entry of the row, and that is 0 or the [spanCount]
    of one of the entries: the largest span count of the row, 0 when the row
    has no entry (or only entries of negative span count). *)
Theorem getMaxRowSpanCount_is_max (rowIndex : Z) (data : list Row) :
  (arrGet data rowIndex = None → getMaxRowSpanCount rowIndex data = None) ∧
  (∀ row, arrGet data rowIndex = Some row →
     ∃ n, getMaxRowSpanCount rowIndex data = Some n
          ∧ (0 ≤ n)%Z
          ∧ (∀ c e, rowSpanMap row !! c = Some e → (spanCount e ≤ n)%Z)
          ∧ (n = 0%Z ∨ ∃ c e, rowSpanMap row !! c = Some e ∧ spanCount e = n)).
Proof.
  unfold getMaxRowSpanCount. split; [by intros -> |].
  intros row ->. cbn [mbind option_bind].
  destruct (isEmpty (Some (rowSpanMap row))) eqn:Hempty.
  - apply bool_decide_eq_true, dom_empty_inv_L in Hempty.
    exists 0%Z. split; [done |]. split; [lia |]. split; [| by left].
    intros c e. by rewrite Hempty, lookup_empty.
  - destruct (maxSpanCount_fold (rowSpanMap row)
                (objectKeys (rowSpanMap row)) 0%Z)
      as (n & -> & Hpos & Hall & Hsome).
    { intros k Hk. by apply elem_of_objectKeys. }
    exists n. split; [done |]. split; [done |]. split.
    + intros c e He. apply (Hall c e); [| done].
      apply elem_of_objectKeys. eauto.
    + destruct Hsome as [-> | (k & e & _ & He & <-)]; [by left | eauto].
Qed.

Lemma getMaxRowSpanCount_is_max_witness :
  let row :=
    mkRow (Num 0) {["region" := createRowSpan true (Num 0) 2 2;
                    "country" := createRowSpan true (Num 0) 3 3]} ∅ in
  getMaxRowSpanCount 1%Z [row] = None
  ∧ ∃ n, getMaxRowSpanCount 0%Z [row] = Some n
         ∧ (0 ≤ n)%Z
         ∧ (∀ c e, rowSpanMap row !! c = Some e → (spanCount e ≤ n)%Z)
         ∧ (n = 0%Z ∨ ∃ c e, rowSpanMap row !! c = Some e ∧ spanCount e = n).
Proof.
  intros row. split.
  - apply (proj1 (getMaxRowSpanCount_is_max 1%Z [row])). reflexivity.
  - apply (proj2 (getMaxRowSpanCount_is_max 0%Z [row]) row). reflexivity.
Defined.

(** ** Vertical position of a merged cell *)

Lemma heights_fold (heights : list Z) (m n j : nat) (acc : Z) :
  m + j + n ≤ length heights →
  foldl (λ bottom count,
           pixelAdd bottom (pixelAt heights (Z.of_nat m + count)))
    (Px acc) (seqZ (Z.of_nat j) (Z.of_nat n))
  = Px (acc + foldr Z.add 0 (take n (drop (m + j) heights)))%Z.
Proof.
  revert j acc. induction n as [|n IH]; intros j acc Hlen.
  - simpl. f_equal. lia.
  - rewrite seqZ_cons by lia. cbn [foldl].
    destruct (lookup_lt_is_Some_2 heights (m + j)) as [x Hx]; [lia |].
    assert (pixelAt heights (Z.of_nat m + Z.of_nat j) = Px x) as ->.
    { unfold pixelAt. replace (Z.of_nat m + Z.of_nat j)%Z
        with (Z.of_nat (m + j)) by lia. by rewrite arrGet_nat, Hx. }
    cbn [pixelAdd].
    replace (Z.succ (Z.of_nat j)) with (Z.of_nat (S j)) by lia.
    replace (Z.pred (Z.of_nat (S n))) with (Z.of_nat n) by lia.
    rewrite IH by lia.
    rewrite (drop_S heights x (m + j) Hx). cbn [take foldr].
    replace (m + S j) with (S (m + j)) by lia. f_equal. lia.
Qed.

(** X9. When the main entry of the span is found ([getMainRowSpan] gives an
    entry, whose key is first found at index [m]) and the row coordinates
    cover the rows of the span, [getVerticalPosWithRowSpan] returns the top
    offset of the main row and, as bottom, that offset plus the sum of the
    heights of the [spanCount] rows from the main row on. *)
Theorem getVerticalPosWithRowSpan_sums_heights (columnName : string)
    (rowSpan mainRowSpan : RowSpan) (rowCoords : RowCoords) (data : list Row)
    (m : nat) (top : Z) :
  getMainRowSpan columnName rowSpan data = Some (Some mainRowSpan) →
  findPropIndex (mainRowKey mainRowSpan) data = Z.of_nat m →
  offsets rowCoords !! m = Some top →
  (0 ≤ spanCount mainRowSpan)%Z →
  m + Z.to_nat (spanCount mainRowSpan) ≤ length (heights rowCoords) →
  getVerticalPosWithRowSpan columnName rowSpan rowCoords data
  = Some (Px top,
          Px (top + foldr Z.add 0
                      (take (Z.to_nat (spanCount mainRowSpan))
                         (drop m (heights rowCoords))))%Z).
Proof.
  intros Hmain Hindex Htop Hk Hlen. unfold getVerticalPosWithRowSpan.
  rewrite Hmain. cbn [mbind option_bind]. rewrite Hindex.
  assert (pixelAt (offsets rowCoords) (Z.of_nat m) = Px top) as ->.
  { unfold pixelAt. by rewrite arrGet_nat, Htop. }
  do 2 f_equal.
  pose proof (heights_fold (heights rowCoords) m
                (Z.to_nat (spanCount mainRowSpan)) 0 top) as Hsum.
  rewrite Z2Nat.id in Hsum by done. rewrite Nat.add_0_r in Hsum.
  apply Hsum. lia.
Qed.

Lemma getVerticalPosWithRowSpan_sums_heights_witness :
  let rows :=
    createData
      [mkOptRow Undefined ∅ None;
       mkOptRow Undefined ∅ (Some {["region" := 2%Z]});
       mkOptRow Undefined ∅ None]
      (mkColumn None [] ∅) true None in
  let rowCoords := mkRowCoords [0; 40; 70]%Z [40; 30; 50]%Z in
  getVerticalPosWithRowSpan "region" (createRowSpan false (Num 1) (-1) 2)
    rowCoords rows
  = Some (Px 40, Px (40 + foldr Z.add 0 (take 2 (drop 1 [40; 30; 50])))%Z).
Proof.
  intros rows rowCoords.
  apply (getVerticalPosWithRowSpan_sums_heights "region"
           (createRowSpan false (Num 1) (-1) 2)
           (createRowSpan true (Num 1) 2 2) rowCoords rows 1 40%Z).
  - vm_compute. reflexivity.
  - vm_compute. reflexivity.
  - reflexivity.
  - simpl. lia.
  - simpl. lia.
Defined.

(** ** Outcomes of [changeFocus] *)

Lemma focusAfter_writes (store : Store) (c : option string) (k : CellValue) :
  focusAfter store (focusWrites (focus store) c k)
  = Focus.mk k c (Focus.rowKey (focus store)) (Focus.columnName (focus store))
      (Focus.editingAddress (focus store)) (Focus.navigating (focus store))
      (Focus.forcedDestroyEditing (focus store)).
Proof. done. Qed.

(** What a call of [changeFocus] that wrote to the focus went through. *)
Lemma changeFocus_inv (store : Store) (key : CellValue) (col : option string)
    (isStopped : GridEvent.t → bool) (writes : list Focus.t) :
  changeFocus store key col isStopped = Some writes → writes ≠ [] →
  isFocusedCell (focus store) key col = false
  ∧ (∀ c, col = Some c → c ≠ "" → isHiddenColumn (column store) c = Some false)
  ∧ isStopped (GridEvent.mk key col (Focus.columnName (focus store))
                 (Focus.rowKey (focus store))) = false
  ∧ ∃ target,
      writes = focusWrites (focus store) col target
      ∧ (target = key
         ∨ ∃ c rs, col = Some c ∧ c ≠ "" ∧ truthy key = true
                   ∧ isRowSpanEnabled (sortState (data store)) = Some true
                   ∧ getRowSpanByRowKey key c (rawData (data store))
                     = Some (Some rs)
                   ∧ target = mainRowKeyOf rs).
Proof.
  unfold changeFocus. intros Hrun Hwrites.
  destruct (isFocusedCell (focus store) key col).
  { simpl in Hrun. congruence. }
  split; [done |].
  assert (∀ c, col = Some c → c ≠ "" →
            isHiddenColumn (column store) c = Some false
            ∧ truthyName col = true) as Hvisible.
  { intros c -> Hc.
    assert (truthyName (Some c) = true) as Hname
      by (simpl; by rewrite (bool_decide_eq_false_2 _ Hc)).
    rewrite Hname in Hrun.
    destruct (isHiddenColumn (column store) c) as [[|]|]; simpl in Hrun;
      [congruence | done | done]. }
  split; [intros c Hcol Hc; by destruct (Hvisible c Hcol Hc) |].
  match type of Hrun with (?skip ≫= _) = _ => destruct skip as [[|]|] end;
    simpl in Hrun; [congruence | | done].
  destruct (isStopped _); [congruence |]. split; [done |].
  destruct col as [c|]; simpl in Hrun.
  - destruct (truthy key) eqn:Hkey; simpl in Hrun.
    + destruct (bool_decide (c = "")) eqn:Hc; simpl in Hrun.
      { injection Hrun as <-. exists key. split; [done | by left]. }
      apply bool_decide_eq_false in Hc.
      destruct (isRowSpanEnabled (sortState (data store))) as [[|]|] eqn:Hon;
        simpl in Hrun; [| | done].
      * destruct (getRowSpanByRowKey key c (rawData (data store)))
          as [[rs|]|] eqn:Hspan; simpl in Hrun; [| | done].
        -- injection Hrun as <-. exists (mainRowKeyOf rs). split; [done |].
           right. by exists c, rs.
        -- injection Hrun as <-. exists key. split; [done | by left].
      * injection Hrun as <-. exists key. split; [done | by left].
    + injection Hrun as <-. exists key. split; [done | by left].
  - injection Hrun as <-. exists key. split; [done | by left].
Qed.

Lemma changeFocus_focused (store : Store) (key : CellValue)
    (col : option string) (isStopped : GridEvent.t → bool) :
  isFocusedCell (focus store) key col = true →
  changeFocus store key col isStopped = Some [].
Proof. intros Hfocused. unfold changeFocus. by rewrite Hfocused. Qed.

(** X10. [changeFocus] writes nothing to the focus when the target is the
    focused address, when the (non-empty) column name is that of a hidden
    column, or when the listeners stopped the [focusChange] event. *)
Theorem changeFocus_skips (store : Store) (key : CellValue)
    (col : option string) (isStopped : GridEvent.t → bool) :
  (isFocusedCell (focus store) key col = true →
   changeFocus store key col isStopped = Some []) ∧
  (∀ c, col = Some c → c ≠ "" →
        isHiddenColumn (column store) c = Some true →
        changeFocus store key col isStopped = Some []) ∧
  (∀ writes,
     isStopped (GridEvent.mk key col (Focus.columnName (focus store))
                  (Focus.rowKey (focus store))) = true →
     changeFocus store key col isStopped = Some writes → writes = []).
Proof.
  split; [| split].
  - apply changeFocus_focused.
  - intros c -> Hc Hhidden. unfold changeFocus.
    destruct (isFocusedCell _ _ _); [done |]. simpl.
    rewrite (bool_decide_eq_false_2 _ Hc). simpl. by rewrite Hhidden.
  - intros writes Hstop Hrun. destruct writes as [|f writes]; [done |].
    apply changeFocus_inv in Hrun as (_ & _ & Hgo & _); [| done]. congruence.
Qed.

Lemma changeFocus_skips_witness :
  let natural := mkSortState true [mkSortedColumn "sortKey" true] in
  let columnMap : gmap string ColumnInfo :=
    {["region" := mkColumnInfo "region" true]} in
  let focused := Focus.mk (Num 1) (Some "name") Null None None true false in
  let store :=
    mkStore (mkData [] natural) focused (mkColumn None [] columnMap) in
  changeFocus store (Num 1) (Some "name") (λ _, false) = Some []
  ∧ changeFocus store (Num 2) (Some "region") (λ _, false) = Some [].
Proof.
  intros natural columnMap focused store. split.
  - apply (proj1 (changeFocus_skips store (Num 1) (Some "name") (λ _, false))).
    reflexivity.
  - apply (proj1 (proj2 (changeFocus_skips store (Num 2) (Some "region")
                           (λ _, false))) "region").
    + reflexivity.
    + discriminate.
    + reflexivity.
Defined.

(** What the lookup found when it does not return [null]. *)
Lemma getRowSpanByRowKey_value (key : RowKey) (c : string) (rows : list Row)
    (value : SpanValue) :
  getRowSpanByRowKey key c rows = Some (Some value) →
  ∃ row,
    findProp key rows = Some row
    ∧ ((∃ rowSpan, rowSpanMap row !! c = Some rowSpan
                   ∧ value = OwnSpan rowSpan)
       ∨ (rowSpanMap row !! c = None ∧ c ∈ objectPrototypeNames
          ∧ value = Inherited)).
Proof.
  rewrite getRowSpanByRowKey_total. intros [= Hvalue].
  destruct (findProp key rows) as [row|]; [| done]. simpl in Hvalue.
  exists row. split; [done |]. unfold readSpan in Hvalue.
  destruct (rowSpanMap row !! c) as [rowSpan|].
  - injection Hvalue as <-. left. by exists rowSpan.
  - case_bool_decide; [| done]. injection Hvalue as <-. by right.
Qed.

(** X11. Whatever [changeFocus] writes, the editing address and the flags
    [navigating] and [forcedDestroyEditing] keep their values in every
    state written; and when it wrote, the focus ends with the column name
    requested, with the former address as previous address, and with a row
    key that is the one requested, or the [mainRowKey] of the span entry
    that the target row holds on the column, or [undefined] when the target
    row holds no entry on the column and the column name is that of a
    member of [Object.prototype]. *)
Theorem changeFocus_outcome (store : Store) (key : CellValue)
    (col : option string) (isStopped : GridEvent.t → bool)
    (writes : list Focus.t) :
  changeFocus store key col isStopped = Some writes →
  (∀ f, f ∈ writes →
     Focus.editingAddress f = Focus.editingAddress (focus store)
     ∧ Focus.navigating f = Focus.navigating (focus store)
     ∧ Focus.forcedDestroyEditing f
       = Focus.forcedDestroyEditing (focus store)) ∧
  (writes ≠ [] →
   let after := focusAfter store writes in
   Focus.columnName after = col
   ∧ Focus.prevRowKey after = Focus.rowKey (focus store)
   ∧ Focus.prevColumnName after = Focus.columnName (focus store)
   ∧ (Focus.rowKey after = key
      ∨ (∃ c row rowSpan,
           col = Some c
           ∧ findProp key (rawData (data store)) = Some row
           ∧ rowSpanMap row !! c = Some rowSpan
           ∧ Focus.rowKey after = mainRowKey rowSpan)
      ∨ (∃ c row,
           col = Some c ∧ c ∈ objectPrototypeNames
           ∧ findProp key (rawData (data store)) = Some row
           ∧ rowSpanMap row !! c = None
           ∧ Focus.rowKey after = Undefined))).
Proof.
  intros Hrun. split.
  - intros f Hf.
    destruct (changeFocus_writes _ _ _ _ _ Hrun) as [-> | [k ->]].
    { by apply elem_of_nil in Hf. }
    unfold focusWrites in Hf.
    repeat (apply elem_of_cons in Hf as [-> | Hf]; [done |]).
    by apply elem_of_nil in Hf.
  - intros Hwrites.
    apply changeFocus_inv in Hrun as (_ & _ & _ & target & -> & Htarget);
      [| done].
    cbn zeta. rewrite focusAfter_writes. simpl. repeat split; try done.
    destruct Htarget as [-> | (c & rs & -> & _ & _ & _ & Hspan & ->)];
      [by left |].
    right.
    destruct (getRowSpanByRowKey_value _ _ _ _ Hspan)
      as (row & Hrow & [(rowSpan & Hentry & ->) | (Hentry & Hc & ->)]).
    + left. by exists c, row, rowSpan.
    + right. by exists c, row.
Qed.

Lemma changeFocus_outcome_witness :
  let natural := mkSortState true [mkSortedColumn "sortKey" true] in
  let columnMap : gmap string ColumnInfo :=
    {["region" := mkColumnInfo "region" false]} in
  let rows :=
    [mkRow (Num 1) {["region" := createRowSpan true (Num 1) 2 2]} ∅;
     mkRow (Num 2) {["region" := createRowSpan false (Num 1) (-1) 2]} ∅] in
  let focused :=
    Focus.mk (Num 9) (Some "name") Null None (Some (Num 9, "name")) false true in
  let store := mkStore (mkData rows natural) focused (mkColumn None [] columnMap) in
  let writes :=
    focusWrites focused (Some "region") (Num 1) in
  let after := focusAfter store writes in
  Focus.columnName after = Some "region"
  ∧ Focus.prevRowKey after = Num 9
  ∧ Focus.prevColumnName after = Some "name"
  ∧ (Focus.rowKey after = Num 2
     ∨ (∃ c row rowSpan,
          Some "region" = Some c
          ∧ findProp (Num 2) rows = Some row
          ∧ rowSpanMap row !! c = Some rowSpan
          ∧ Focus.rowKey after = mainRowKey rowSpan)
     ∨ (∃ c row,
          Some "region" = Some c ∧ c ∈ objectPrototypeNames
          ∧ findProp (Num 2) rows = Some row
          ∧ rowSpanMap row !! c = None
          ∧ Focus.rowKey after = Undefined)).
Proof.
  intros natural columnMap rows focused store writes.
  exact (proj2 (changeFocus_outcome store (Num 2) (Some "region") (λ _, false)
                  writes ltac:(vm_compute; reflexivity))
           ltac:(discriminate)).
Defined.

(** X12. Calling [changeFocus] again with the same target on the store it
    left behind: when the first call stored the row key requested, the
    second call writes nothing; when the first call redirected the focus to
    the main row of a span, the second call is not taken for the focused
    address: unless its event is stopped it writes again, and the previous
    address becomes the address of the main cell itself. *)
Theorem changeFocus_again (store : Store) (key : CellValue) (c : string)
    (isStopped isStopped' : GridEvent.t → bool) (writes : list Focus.t) :
  let after := focusAfter store writes in
  let store' := mkStore (data store) after (column store) in
  changeFocus store key (Some c) isStopped = Some writes → writes ≠ [] →
  (Focus.rowKey after = key →
   changeFocus store' key (Some c) isStopped' = Some []) ∧
  (Focus.rowKey after ≠ key →
   isStopped' (GridEvent.mk key (Some c) (Some c) (Focus.rowKey after))
   = false →
   ∃ writes', changeFocus store' key (Some c) isStopped' = Some writes'
              ∧ Focus.rowKey (focusAfter store' writes') = Focus.rowKey after
              ∧ Focus.prevRowKey (focusAfter store' writes')
                = Focus.rowKey after
              ∧ Focus.columnName (focusAfter store' writes') = Some c
              ∧ Focus.prevColumnName (focusAfter store' writes') = Some c).
Proof.
  intros after store' Hrun Hwrites.
  apply changeFocus_inv in Hrun
    as (_ & Hvisible & _ & target & Hw & Htarget); [| done].
  assert (after = Focus.mk target (Some c) (Focus.rowKey (focus store))
                    (Focus.columnName (focus store))
                    (Focus.editingAddress (focus store))
                    (Focus.navigating (focus store))
                    (Focus.forcedDestroyEditing (focus store))) as Hafter
    by (subst after; rewrite Hw; apply focusAfter_writes).
  subst store'. clearbody after. subst after. cbn [Focus.rowKey]. split.
  - intros ->. apply changeFocus_focused. unfold isFocusedCell. simpl.
    by rewrite !bool_decide_eq_true_2.
  - intros Hmoved Hgo.
    destruct Htarget as [-> | (c' & rs & [= <-] & Hc & Hkey & Hon & Hspan & ->)];
      [done |].
    eexists. split.
    + apply (changeFocus_redirects _ key c isStopped' rs); try done.
      * unfold isFocusedCell. simpl. by rewrite bool_decide_eq_false_2.
      * simpl. by apply Hvisible.
    + by rewrite focusAfter_writes.
Qed.

Lemma changeFocus_again_witness :
  let natural := mkSortState true [mkSortedColumn "sortKey" true] in
  let columnMap : gmap string ColumnInfo :=
    {["region" := mkColumnInfo "region" false]} in
  let rows :=
    [mkRow (Num 1) {["region" := createRowSpan true (Num 1) 2 2]} ∅;
     mkRow (Num 2) {["region" := createRowSpan false (Num 1) (-1) 2]} ∅] in
  let initial := Focus.mk Null None Null None None false false in
  let store := mkStore (mkData rows natural) initial (mkColumn None [] columnMap) in
  let writes := focusWrites initial (Some "region") (Num 1) in
  let store' :=
    mkStore (mkData rows natural) (focusAfter store writes)
      (mkColumn None [] columnMap) in
  ∃ writes', changeFocus store' (Num 2) (Some "region") (λ _, false)
             = Some writes'
             ∧ Focus.rowKey (focusAfter store' writes') = Num 1
             ∧ Focus.prevRowKey (focusAfter store' writes') = Num 1
             ∧ Focus.columnName (focusAfter store' writes') = Some "region"
             ∧ Focus.prevColumnName (focusAfter store' writes')
               = Some "region".
Proof.
  intros natural columnMap rows initial store writes store'.
  apply (proj2 (changeFocus_again store (Num 2) "region" (λ _, false)
                  (λ _, false) writes ltac:(vm_compute; reflexivity)
                  ltac:(discriminate))).
  - discriminate.
  - reflexivity.
Defined.

(** ** Filters *)

Lemma filter_sublist {A : Type} (p : A → bool) (l : list A) :
  List.filter p l `sublist_of` l.
Proof.
  induction l as [|x l IH]; simpl; [constructor |].
  destruct (p x); by constructor.
Qed.

Lemma filter_filter {A : Type} (p q : A → bool) (l : list A) :
  List.filter q (List.filter p l) = List.filter (λ x, p x && q x) l.
Proof.
  induction l as [|x l IH]; simpl; [done |].
  destruct (p x); simpl; [| done]. destruct (q x); by rewrite IH.
Qed.

Lemma filterRows_nil (fs : list Filter) : foldOpt filterRows [] fs = Some [].
Proof.
  induction fs as [|f fs IH]; [done |]. cbn [foldOpt].
  assert (filterRows [] f = Some []) as ->
    by (unfold filterRows; by destruct (conditionFn f)).
  exact IH.
Qed.

Lemma filterRows_sublist (fs : list Filter) (acc rows : list Row) :
  foldOpt filterRows acc fs = Some rows → rows `sublist_of` acc.
Proof.
  revert acc. induction fs as [|f fs IH]; intros acc; cbn [foldOpt].
  - by intros [= ->].
  - destruct (filterRows acc f) as [acc'|] eqn:Hf; cbn [mbind option_bind];
      [| done].
    intros Hrest. etrans; [by apply IH |].
    unfold filterRows in Hf. destruct (conditionFn f).
    + injection Hf as <-. apply filter_sublist.
    + destruct acc; [by injection Hf as <- | done].
Qed.

Lemma filterRows_all (fs : list Filter) (acc : list Row) :
  Forall (λ f, is_Some (conditionFn f)) fs →
  foldOpt filterRows acc fs = Some (List.filter (passesFilters fs) acc).
Proof.
  intros Hfs. revert acc.
  induction Hfs as [|f fs [fn Hfn] _ IH]; intros acc; cbn [foldOpt].
  - f_equal. induction acc as [|x acc IHacc]; simpl; [done |]. by f_equal.
  - assert (filterRows acc f
            = Some (List.filter (λ row, fn (getCell row (filterColumnName f)))
                      acc)) as -> by (unfold filterRows; by rewrite Hfn).
    cbn [mbind option_bind]. rewrite IH, filter_filter. f_equal.
    apply List.filter_ext. intros row. simpl. by rewrite Hfn.
Qed.

Lemma passesFilters_perm (fs fs' : list Filter) (row : Row) :
  fs ≡ₚ fs' → passesFilters fs row = passesFilters fs' row.
Proof.
  unfold passesFilters. induction 1 as [|f l l' _ IH|f g l|l l' l'' _ IH1 _ IH2];
    simpl; [done | by rewrite IH | | congruence].
  generalize (forallb (λ filter, match conditionFn filter with
                                 | Some fn =>
                                     fn (getCell row (filterColumnName filter))
                                 | None => false
                                 end) l).
  intros rest.
  destruct (conditionFn g) as [fg|], (conditionFn f) as [ff|]; simpl;
    repeat match goal with
           | |- context [?fn (getCell row ?c)] => destruct (fn (getCell row c))
           end;
    by destruct rest.
Qed.

(** X13. When every filter has a [conditionFn], [applyFilterToRawData]
    returns the rows that pass all the filters, in the order of the data;
    the order of the filters does not change the result. *)
Theorem applyFilterToRawData_conjunction (rawData : list Row)
    (filters : list Filter) :
  Forall (λ f, is_Some (conditionFn f)) filters →
  applyFilterToRawData rawData (Some filters)
  = Some (List.filter (passesFilters filters) rawData)
  ∧ ∀ filters', filters' ≡ₚ filters →
      applyFilterToRawData rawData (Some filters')
      = applyFilterToRawData rawData (Some filters).
Proof.
  intros Hfs. unfold applyFilterToRawData. split; [by apply filterRows_all |].
  intros fs' Hperm.
  assert (Forall (λ f, is_Some (conditionFn f)) fs') as Hfs'
    by (by rewrite Hperm).
  rewrite !filterRows_all by done. f_equal. apply List.filter_ext.
  intros row. by apply passesFilters_perm.
Qed.

Lemma applyFilterToRawData_conjunction_witness :
  let isAsia := λ v, bool_decide (v = Str "Asia") in
  let isSet := λ v, negb (bool_decide (v = Undefined)) in
  let row0 := mkRow (Num 0) ∅ {["region" := Str "Asia"; "city" := Str "Seoul"]} in
  let row1 := mkRow (Num 1) ∅ {["region" := Str "Europe"; "city" := Str "Oslo"]} in
  let row2 := mkRow (Num 2) ∅ {["region" := Str "Asia"]} in
  let filters :=
    [mkFilter "region" (Some isAsia); mkFilter "city" (Some isSet)] in
  applyFilterToRawData [row0; row1; row2] (Some filters) = Some [row0].
Proof.
  intros isAsia isSet row0 row1 row2 filters.
  rewrite (proj1 (applyFilterToRawData_conjunction [row0; row1; row2] filters
                    ltac:(apply (bool_decide_unpack _); vm_compute; exact I))).
  vm_compute. reflexivity.
Defined.

(** X14. A filter without [conditionFn] raises exactly when a row reaches
    it: after filters that all have one, the call raises if some row passes
    them, and returns the empty list (whatever the later filters are) if no
    row does. *)
Theorem applyFilterToRawData_missing_condition (rawData : list Row)
    (before after : list Filter) (filter : Filter) :
  conditionFn filter = None →
  Forall (λ f, is_Some (conditionFn f)) before →
  applyFilterToRawData rawData (Some (before ++ filter :: after))
  = match List.filter (passesFilters before) rawData with
    | [] => Some []
    | _ :: _ => None
    end.
Proof.
  intros Hnone Hbefore. unfold applyFilterToRawData.
  generalize (filterRows_all before rawData Hbefore).
  generalize (List.filter (passesFilters before) rawData). intros kept.
  revert rawData. induction before as [|f before IH]; intros rawData;
    cbn [foldOpt app].
  - intros [= ->].
    assert (filterRows kept filter
            = match kept with [] => Some [] | _ :: _ => None end) as ->
      by (unfold filterRows; by rewrite Hnone).
    destruct kept; cbn [mbind option_bind]; [apply filterRows_nil | done].
  - destruct (filterRows rawData f) as [acc|]; cbn [mbind option_bind];
      [| done].
    apply IH. by inversion Hbefore.
Qed.

Lemma applyFilterToRawData_missing_condition_witness :
  let isAsia := λ v, bool_decide (v = Str "Asia") in
  let row0 := mkRow (Num 0) ∅ {["region" := Str "Asia"]} in
  let row1 := mkRow (Num 1) ∅ {["region" := Str "Europe"]} in
  applyFilterToRawData [row0; row1]
    (Some [mkFilter "region" (Some isAsia); mkFilter "city" None]) = None
  ∧ applyFilterToRawData [row1]
      (Some [mkFilter "region" (Some isAsia); mkFilter "city" None])
    = Some [].
Proof.
  intros isAsia row0 row1. split.
  - exact (applyFilterToRawData_missing_condition [row0; row1]
             [mkFilter "region" (Some isAsia)] [] (mkFilter "city" None)
             eq_refl
             ltac:(apply (bool_decide_unpack _); vm_compute; exact I)).
  - exact (applyFilterToRawData_missing_condition [row1]
             [mkFilter "region" (Some isAsia)] [] (mkFilter "city" None)
             eq_refl
             ltac:(apply (bool_decide_unpack _); vm_compute; exact I)).
Defined.

Lemma sublist_positions {A : Type} (l' l : list A) :
  l' `sublist_of` l →
  ∀ j1 j2 a b, j1 < j2 → l' !! j1 = Some a → l' !! j2 = Some b →
  ∃ i1 i2, i1 < i2 ∧ l !! i1 = Some a ∧ l !! i2 = Some b.
Proof.
  induction 1 as [|x l1 l2 Hsub IH|x l1 l2 Hsub IH]; intros j1 j2 a b Hlt Ha Hb.
  - done.
  - destruct j2 as [|j2]; [lia |]. destruct j1 as [|j1].
    + injection Ha as <-. simpl in Hb.
      assert (b ∈ l2) as [i Hi]%list_elem_of_lookup_1
        by (eapply elem_of_sublist; [by eapply list_elem_of_lookup_2 | done]).
      exists 0, (S i). split; [lia | done].
    + destruct (IH j1 j2 a b ltac:(lia) Ha Hb) as (i1 & i2 & ? & ? & ?).
      exists (S i1), (S i2). split; [lia | done].
  - destruct (IH j1 j2 a b Hlt Ha Hb) as (i1 & i2 & ? & ? & ?).
    exists (S i1), (S i2). split; [lia | done].
Qed.

Lemma filteredRawData_sublist (rawData rows : list Row)
    (filters : option (list Filter)) :
  filteredRawData rawData filters = Some rows → rows `sublist_of` rawData.
Proof.
  unfold filteredRawData, applyFilterToRawData. destruct filters as [fs|].
  - apply filterRows_sublist.
  - by intros [= ->].
Qed.

(** X15. When the row keys of the data are pairwise distinct, the getter
    [filteredIndex] gives for each row of [filteredRawData] the index at
    which that very row sits in [rawData], and these indices are strictly
    increasing: the filtered rows keep the order of the data. *)
Theorem filteredIndex_round_trip (rawData rows : list Row)
    (filters : option (list Filter)) :
  NoDup (rowKey <$> rawData) →
  filteredRawData rawData filters = Some rows →
  ∃ indices,
    filteredIndex rawData filters = Some indices
    ∧ length indices = length rows
    ∧ (∀ j row, rows !! j = Some row →
         ∃ i, indices !! j = Some (Z.of_nat i) ∧ rawData !! i = Some row)
    ∧ (∀ j1 j2 i1 i2, j1 < j2 →
         indices !! j1 = Some i1 → indices !! j2 = Some i2 → (i1 < i2)%Z).
Proof.
  intros Hkeys Hrows. pose proof (filteredRawData_sublist _ _ _ Hrows) as Hsub.
  unfold filteredIndex. rewrite Hrows. eexists. split; [done |].
  split; [by rewrite length_fmap |]. split.
  - intros j row Hrow.
    assert (row ∈ rawData) as [i Hi]%list_elem_of_lookup_1
      by (eapply elem_of_sublist; [by eapply list_elem_of_lookup_2 | done]).
    exists i. split; [| done].
    rewrite list_lookup_fmap, Hrow. simpl.
    by rewrite (findPropIndex_distinct rawData i row).
  - intros j1 j2 i1 i2 Hlt (a & -> & Ha)%list_lookup_fmap_Some
      (b & -> & Hb)%list_lookup_fmap_Some.
    destruct (sublist_positions _ _ Hsub j1 j2 a b Hlt Ha Hb)
      as (p1 & p2 & Hp & Hp1 & Hp2).
    rewrite (findPropIndex_distinct rawData p1 a),
      (findPropIndex_distinct rawData p2 b) by done.
    lia.
Qed.

Lemma filteredIndex_round_trip_witness :
  let isAsia := λ v, bool_decide (v = Str "Asia") in
  let row0 := mkRow (Num 10) ∅ {["region" := Str "Asia"]} in
  let row1 := mkRow (Num 11) ∅ {["region" := Str "Europe"]} in
  let row2 := mkRow (Num 12) ∅ {["region" := Str "Asia"]} in
  let rawData := [row0; row1; row2] in
  let filters := Some [mkFilter "region" (Some isAsia)] in
  ∃ indices,
    filteredIndex rawData filters = Some indices
    ∧ length indices = 2
    ∧ (∀ j row, [row0; row2] !! j = Some row →
         ∃ i, indices !! j = Some (Z.of_nat i) ∧ rawData !! i = Some row)
    ∧ (∀ j1 j2 i1 i2, j1 < j2 →
         indices !! j1 = Some i1 → indices !! j2 = Some i2 → (i1 < i2)%Z).
Proof.
  intros isAsia row0 row1 row2 rawData filters.
  apply (filteredIndex_round_trip rawData [row0; row2] filters).
  - apply (bool_decide_unpack _). vm_compute. exact I.
  - vm_compute. reflexivity.
Defined.

(** ** Paging *)

(** X16. The getter [pageRowRange]: without client paging it is the whole
    data, whatever the page. With client paging the range starts at
    [(page - 1) * perPage] and never ends past the data; for a positive
    [perPage] a row index of the data lies in the range exactly when the
    page is the one of quotient [index / perPage] (counted from 1), so the
    pages tile the data; and a page that starts at or past the end of the
    data gives a range whose end is not above its start. *)
Theorem pageRowRange_pages (length : Z) (pageOptions : PageOptions) :
  let range := pageRowRange length pageOptions in
  (pageUseClient pageOptions = false → range = (0%Z, length)) ∧
  (pageUseClient pageOptions = true →
   range.1 = ((page pageOptions - 1) * perPage pageOptions)%Z
   ∧ (range.2 ≤ length)%Z
   ∧ ((0 < perPage pageOptions)%Z →
      ∀ index, (0 ≤ index < length)%Z →
        (range.1 ≤ index < range.2)%Z
        ↔ page pageOptions = (index / perPage pageOptions + 1)%Z)
   ∧ ((length ≤ (page pageOptions - 1) * perPage pageOptions)%Z →
      (range.2 ≤ range.1)%Z)).
Proof.
  unfold pageRowRange. destruct pageOptions as [useClient p n]. simpl.
  split; [by intros -> |]. intros ->. simpl.
  assert (∀ index, (0 < n)%Z → ((p - 1) * n ≤ index < p * n)%Z
                   ↔ p = (index / n + 1)%Z) as Hpage.
  { intros index Hn.
    pose proof (Z.mul_div_le index n Hn).
    pose proof (Z.mul_succ_div_gt index n Hn). split.
    - intros [Hlo Hhi]. assert (index / n = p - 1)%Z; [| lia].
      symmetry.
      apply (Z.div_unique_pos index n (p - 1) (index - (p - 1) * n)); lia.
    - intros ->. lia. }
  destruct (Z.ltb_spec (p * n) length) as [Hlast | Hlast]; simpl.
  - split; [done |]. split; [lia |]. split; [| lia].
    intros Hn index Hindex. by apply Hpage.
  - split; [done |]. split; [lia |]. split; [| lia].
    intros Hn index Hindex. rewrite <- (Hpage index Hn). lia.
Qed.

Lemma pageRowRange_pages_witness :
  let range := pageRowRange 7 (mkPageOptions true 2 3) in
  (range.1 ≤ 4 < range.2)%Z ↔ 2%Z = (4 / 3 + 1)%Z.
Proof.
  intros range.
  apply (proj1 (proj2 (proj2 (proj2 (pageRowRange_pages 7
                                       (mkPageOptions true 2 3)) eq_refl)))
           ltac:(simpl; lia) 4%Z ltac:(lia)).
Defined.

(** ** Removing a sub row of a span *)

(** What [removeStep] does on a column where the removed row holds a sub
    entry: the span of the main row shrinks by one row. *)
Lemma removeStep_shrinks (data : list loc) (removedRow nextRow : loc)
    (keep : bool) (h h1 : heap) (c : string)
    (removedRowSpan mainRowSpan : RowSpan) (mainRow' : loc) :
  let index := findPropIndex (rowKey (h mainRow')) (rowsOf data h) in
  let remaining := (spanCount mainRowSpan - 1)%Z in
  rowSpanMap (h removedRow) !! c = Some removedRowSpan →
  mainRow removedRowSpan = false →
  findPropLoc (mainRowKey removedRowSpan) data h = Some mainRow' →
  rowSpanMap (h mainRow') !! c = Some mainRowSpan →
  removeStep data removedRow nextRow keep h c = Some h1 →
  (∀ l, rowKey (h1 l) = rowKey (h l) ∧ cells (h1 l) = cells (h l))
  ∧ ((remaining ≤ 1)%Z →
     rowSpanMap (h1 mainRow') !! c = None
     ∧ ∀ l, l ≠ mainRow' → rowSpanMap (h1 l) !! c = rowSpanMap (h l) !! c)
  ∧ ((1 < remaining)%Z → NoDup data →
     rowSpanMap (h1 mainRow') !! c
     = Some (createRowSpan (mainRow mainRowSpan) (mainRowKey mainRowSpan)
               remaining remaining)
     ∧ (∀ offset, (1 ≤ offset < remaining)%Z →
          ∃ row, arrGet data (index + offset) = Some row
                 ∧ rowSpanMap (h1 row) !! c
                   = Some (createRowSpan false (rowKey (h mainRow'))
                             (- offset) remaining))
     ∧ (∀ l, l ≠ mainRow' →
             (∀ offset, (1 ≤ offset < remaining)%Z →
                arrGet data (index + offset) ≠ Some l) →
             rowSpanMap (h1 l) !! c = rowSpanMap (h l) !! c)).
Proof.
  intros index remaining Hrs Hsub Hmain Hms Hstep.
  destruct (removeStep_sub _ _ _ _ _ _ _ _ Hrs Hsub Hstep)
    as (m & ms & Hm & Hms' & Hrest).
  rewrite Hmain in Hm. injection Hm as <-.
  rewrite Hms in Hms'. injection Hms' as <-.
  fold remaining in Hrest.
  split; [exact (relinkOrDelete_keeps _ _ _ _ _ _ Hrest) |].
  apply relinkOrDelete_inv in Hrest. split.
  - intros Hfew. destruct (Z.gtb_spec remaining 1); [lia |]. subst h1. split.
    + rewrite deleteRowSpan_entry. by rewrite decide_True.
    + intros l Hl. rewrite deleteRowSpan_entry.
      rewrite decide_False; [done | tauto].
  - intros Hmany Hdata. destruct (Z.gtb_spec remaining 1); [| lia].
    destruct Hrest as (ms & Hms' & Hrest).
    rewrite Hms in Hms'. injection Hms' as <-.
    destruct (findPropLoc_Some _ _ _ _ Hmain) as [_ Hplace].
    destruct (updateSubRowSpan_relinks data mainRow' c
                (createRowSpan (mainRow mainRowSpan) (mainRowKey mainRowSpan)
                   remaining remaining)
                remaining h h1 Hdata Hplace Hrest)
      as (Hentry & Hsubs & Hothers).
    split; [done |]. split; [done |].
    intros l Hl Hnot. by rewrite (Hothers l Hl Hnot).
Qed.

(** X17. Let the rows of [data] have pairwise distinct keys, let the
    removed row hold a sub entry on column [c] of a span whose main row is
    found in [data] and holds an entry of [spanCount = k], and let every
    spanned column of the removed row be intact ([removeSafe]). Then
    [updateRowSpanWhenRemove] returns, and it changes no row key and no
    value of the column, whatever [keepRowSpanData] is. For [k ≥ 3] the
    main row's entry gets
    [count = spanCount = k - 1] and the rows at the offsets [1 .. k - 2]
    below the main row in [data] get sub entries of that span; every other
    row keeps its entry. For [k ≤ 2] the entry of the main row is deleted
    and every other row keeps its entry. *)
Theorem updateRowSpanWhenRemove_sub_row (data : list loc)
    (removedRow nextRow : loc) (keep : bool) (h : heap) (c : string)
    (removedRowSpan mainRowSpan : RowSpan) (mainRow' : loc) (k : Z) :
  let index := findPropIndex (rowKey (h mainRow')) (rowsOf data h) in
  NoDup (rowKey <$> rowsOf data h) →
  rowSpanMap (h removedRow) !! c = Some removedRowSpan →
  mainRow removedRowSpan = false →
  findPropLoc (mainRowKey removedRowSpan) data h = Some mainRow' →
  rowSpanMap (h mainRow') !! c = Some mainRowSpan →
  spanCount mainRowSpan = k →
  forallb (removeSafe data removedRow nextRow h)
    (objectKeys (rowSpanMap (h removedRow))) = true →
  ∃ h',
    updateRowSpanWhenRemove data removedRow nextRow keep h = Some h'
    ∧ (∀ l, rowKey (h' l) = rowKey (h l)
            ∧ getCell (h' l) c = getCell (h l) c)
    ∧ ((3 ≤ k)%Z →
       rowSpanMap (h' mainRow') !! c
       = Some (createRowSpan (mainRow mainRowSpan) (mainRowKey mainRowSpan)
                 (k - 1) (k - 1))
       ∧ (∀ offset, (1 ≤ offset < k - 1)%Z →
            ∃ row, arrGet data (index + offset) = Some row
                   ∧ rowSpanMap (h' row) !! c
                     = Some (createRowSpan false (rowKey (h mainRow'))
                               (- offset) (k - 1)))
       ∧ (∀ l, l ≠ mainRow' →
               (∀ offset, (1 ≤ offset < k - 1)%Z →
                  arrGet data (index + offset) ≠ Some l) →
               rowSpanMap (h' l) !! c = rowSpanMap (h l) !! c))
    ∧ ((k ≤ 2)%Z →
       rowSpanMap (h' mainRow') !! c = None
       ∧ ∀ l, l ≠ mainRow' → rowSpanMap (h' l) !! c = rowSpanMap (h l) !! c).
Proof.
  intros index Hdistinct Hrs Hsub Hmain Hms Hk Hsafe.
  destruct (updateRowSpanWhenRemove_column data removedRow nextRow keep h c)
    as (h' & h1 & Hrun & Hstep & Hsame); [eauto | done |].
  destruct (removeStep_shrinks _ _ _ _ _ _ _ _ _ _ Hrs Hsub Hmain Hms Hstep)
    as (Hkeeps & Hfew & Hmany).
  rewrite Hk in Hfew, Hmany.
  assert (∀ l, rowSpanMap (h' l) !! c = rowSpanMap (h1 l) !! c) as Hentries
    by (intros l; by destruct (Hsame l) as (_ & ? & _)).
  exists h'. split; [done |]. split; [| split].
  - intros l. destruct (Hsame l) as (<- & _ & <-).
    destruct (Hkeeps l) as [Hkey Hcells]. split; [done |].
    unfold getCell. by rewrite Hcells.
  - intros Hlarge.
    destruct Hmany as (Hentry & Hsubs & Hothers);
      [lia | by eapply distinct_keys_NoDup |].
    split; [by rewrite Hentries |]. split.
    + intros offset Hoffset. destruct (Hsubs offset Hoffset) as (row & ? & ?).
      exists row. by rewrite Hentries.
    + intros l Hl Hnot. rewrite Hentries. by apply Hothers.
  - intros Hsmall. destruct Hfew as [Hgone Hothers]; [lia |].
    split; [by rewrite Hentries |]. intros l Hl. rewrite Hentries.
    by apply Hothers.
Qed.

Lemma updateRowSpanWhenRemove_sub_row_witness :
  let h : heap := λ l,
    match l with
    | 0 => mkRow (Num 0) {["region" := createRowSpan true (Num 0) 3 3]}
             {["region" := Str "Asia"]}
    | 1 => mkRow (Num 1) {["region" := createRowSpan false (Num 0) (-1) 3]}
             {["region" := Str "Europe"]}
    | _ => mkRow (Num 2) {["region" := createRowSpan false (Num 0) (-2) 3]} ∅
    end in
  ∃ h', updateRowSpanWhenRemove [0; 2] 1 2 true h = Some h'
        ∧ getCell (h' 2) "region" = Undefined
        ∧ rowSpanMap (h' 0) !! "region"
          = Some (createRowSpan true (Num 0) 2 2)
        ∧ rowSpanMap (h' 2) !! "region"
          = Some (createRowSpan false (Num 0) (-1) 2).
Proof.
  intros h.
  destruct (updateRowSpanWhenRemove_sub_row [0; 2] 1 2 true h "region"
              (createRowSpan false (Num 0) (-1) 3)
              (createRowSpan true (Num 0) 3 3) 0 3%Z)
    as (h' & Hrun & Hkeeps & Hmany & _).
  - apply (bool_decide_unpack _). vm_compute. exact I.
  - reflexivity.
  - reflexivity.
  - vm_compute. reflexivity.
  - reflexivity.
  - reflexivity.
  - vm_compute. reflexivity.
  - destruct Hmany as (Hmain & Hsubs & _); [lia |].
    destruct (Hsubs 1%Z) as (row & Hrow & Hsub); [lia |].
    vm_compute in Hrow. injection Hrow as <-.
    exists h'. split; [exact Hrun |].
    split; [exact (proj2 (Hkeeps 2)) |].
    split; [exact Hmain | exact Hsub].
Defined.

(** ** Codes that exclude one another *)

(** X18. The codes returned by [getValidationCode] are pairwise distinct.
    [TYPE_STRING] and [TYPE_NUMBER] are never reported together; [MIN] and
    [MAX] are reported for numbers only, hence never with [REQUIRED],
    [TYPE_NUMBER] or [REGEXP]; [REGEXP] is reported for strings only, hence
    never with [TYPE_STRING]; and [MIN] and [MAX] come together only when
    the upper bound is below the lower one. *)
Theorem getValidationCode_exclusions (value : CellValue)
    (validation : option Validation.t) :
  let codes := getValidationCode value validation in
  NoDup codes
  ∧ ¬ (TYPE_STRING ∈ codes ∧ TYPE_NUMBER ∈ codes)
  ∧ (MIN ∈ codes ∨ MAX ∈ codes →
     (∃ n, value = Num n)
     ∧ ¬ REQUIRED ∈ codes ∧ ¬ TYPE_NUMBER ∈ codes ∧ ¬ REGEXP ∈ codes)
  ∧ (REGEXP ∈ codes → (∃ s, value = Str s) ∧ ¬ TYPE_STRING ∈ codes)
  ∧ (MIN ∈ codes → MAX ∈ codes →
     ∃ rules v lower upper,
       validation = Some rules ∧ value = Num v
       ∧ Validation.min rules = Some lower
       ∧ Validation.max rules = Some upper
       ∧ (upper < v < lower)%Z).
Proof.
  intros codes. destruct validation as [v|].
  { destruct (getValidationCode_codes value v)
      as (Hsub & Hreq & Hstr & Hnum & Hmin & Hmax & Hre & _).
    fold codes in Hsub, Hreq, Hstr, Hnum, Hmin, Hmax, Hre.
    split.
    { eapply sublist_NoDup; last exact Hsub.
      apply (bool_decide_unpack _). vm_compute. exact I. }
    rewrite Hreq, Hstr, Hnum, Hmin, Hmax, Hre. clear.
    unfold belowMin, aboveMax, failsRegExp, isBlank, isString, isNumber.
    split; [intros [[? _] [? _]]; congruence |]. split; [| split].
    - intros Hbound.
      assert (∃ n, value = Num n) as [n ->].
      { destruct Hbound as [H | H].
        - destruct (Validation.min v), value; try done. eauto.
        - destruct (Validation.max v), value; try done. eauto. }
      split; [eauto |]. split; [by intros [_ ?] |].
      split; [by intros [_ ?] |]. by destruct (Validation.regExp v).
    - intros Hre.
      assert (∃ s, value = Str s) as [s ->]
        by (destruct (Validation.regExp v), value; try done; eauto).
      split; [eauto |]. by intros [_ ?].
    - intros Hlo Hhi. simpl.
      destruct (Validation.min v) as [lower|] eqn:Hlower,
        value as [| |n| |]; try done.
      destruct (Validation.max v) as [upper|] eqn:Hupper; [| done].
      apply andb_true_iff in Hlo as [_ Hlo%Z.ltb_lt].
      apply andb_true_iff in Hhi as [_ Hhi%Z.gtb_lt].
      exists v, n, lower, upper. repeat split; try done; lia. }
  subst codes. simpl. split; [constructor |].
  setoid_rewrite elem_of_nil. tauto.
Qed.

(** ** The editing address *)

Lemma isEditingCell_address (focus : Focus.t) (key : CellValue)
    (col : string) :
  isEditingCell focus key col
  = bool_decide (Focus.editingAddress focus = Some (key, col)).
Proof.
  unfold isEditingCell. destruct (Focus.editingAddress focus) as [[k c]|].
  - rewrite <- bool_decide_and. apply bool_decide_ext.
    split; [by intros [-> ->] | by intros [= -> ->]].
  - by rewrite bool_decide_eq_false_2.
Qed.

(** X19. [finishEditing] never changes the focused address, the previous
    address or [forcedDestroyEditing]. It acts exactly when the event is not
    stopped and the address given is the one being edited, and then clears
    the editing address and sets [navigating]; otherwise the focus is left
    as it is, in particular when another cell is being edited. Doing it
    twice is doing it once, and after [initFocus], which keeps
    [forcedDestroyEditing] and clears the rest, it has no effect. *)
Theorem finishEditing_outcome (focus : Focus.t) (key : CellValue)
    (col : string) (value : CellValue)
    (isStopped : CellValue * string * CellValue → bool) :
  let after := finishEditing focus key col value isStopped in
  (Focus.rowKey after = Focus.rowKey focus
   ∧ Focus.columnName after = Focus.columnName focus
   ∧ Focus.prevRowKey after = Focus.prevRowKey focus
   ∧ Focus.prevColumnName after = Focus.prevColumnName focus
   ∧ Focus.forcedDestroyEditing after = Focus.forcedDestroyEditing focus)
  ∧ (if negb (isStopped (key, col, value))
        && bool_decide (Focus.editingAddress focus = Some (key, col))
     then Focus.editingAddress after = None ∧ Focus.navigating after = true
     else after = focus)
  ∧ finishEditing after key col value isStopped = after
  ∧ Focus.forcedDestroyEditing (initFocus focus)
    = Focus.forcedDestroyEditing focus
  ∧ finishEditing (initFocus focus) key col value isStopped = initFocus focus.
Proof.
  intros after. subst after. unfold finishEditing.
  rewrite !isEditingCell_address.
  destruct (isStopped (key, col, value)); simpl; [done |].
  destruct (bool_decide (Focus.editingAddress focus = Some (key, col)))
    eqn:Hedit; simpl.
  - rewrite ?isEditingCell_address. simpl.
    by rewrite ?bool_decide_eq_false_2.
  - rewrite ?isEditingCell_address. simpl. rewrite ?Hedit.
    by rewrite ?bool_decide_eq_false_2.
Qed.

(** ** What append and remove leave alone *)

Lemma foldOpt_invariant {A S : Type} (R : S → S → Prop)
    (f : S → A → option S) :
  (∀ s, R s s) → (∀ s1 s2 s3, R s1 s2 → R s2 s3 → R s1 s3) →
  (∀ s x s', f s x = Some s' → R s s') →
  ∀ l s s', foldOpt f s l = Some s' → R s s'.
Proof.
  intros Hrefl Htrans Hstep l.
  induction l as [|x l IH]; intros s s'; cbn [foldOpt].
  - intros [= <-]. apply Hrefl.
  - destruct (f s x) as [s1|] eqn:Hx; cbn [mbind option_bind]; [| done].
    intros Hrest. eapply Htrans; [by eapply Hstep | by apply IH].
Qed.

Lemma arrGet_elem_of {A : Type} (arr : list A) (i : Z) (x : A) :
  arrGet arr i = Some x → x ∈ arr.
Proof. intros [_ Hx]%arrGet_Some. by eapply list_elem_of_lookup_2. Qed.

Lemma findPropLoc_elem_of (key : RowKey) (data : list loc) (h : heap)
    (l : loc) :
  findPropLoc key data h = Some l → l ∈ data.
Proof. unfold findPropLoc. apply arrGet_elem_of. Qed.

(** [updateSubRowSpan] writes span entries, to rows of [data] only. *)
Lemma updateSubRowSpan_keeps (data : list loc) (mainRow' : loc) (c : string)
    (startOffset spanCount' : Z) (h h' : heap) :
  updateSubRowSpan data mainRow' c startOffset spanCount' h = Some h' →
  (∀ l, rowKey (h' l) = rowKey (h l) ∧ cells (h' l) = cells (h l))
  ∧ (∀ l c', is_Some (rowSpanMap (h l) !! c') →
             is_Some (rowSpanMap (h' l) !! c'))
  ∧ (∀ l, l ∉ data → h' l = h l).
Proof.
  unfold updateSubRowSpan. intros Hrun. split; [| split].
  - intros l. by destruct (subLoop_keeps _ _ _ _ _ _ _ _ Hrun l) as (? & ? & _).
  - revert Hrun.
    apply (foldOpt_invariant
             (λ h h' : heap, ∀ l c', is_Some (rowSpanMap (h l) !! c') →
                                     is_Some (rowSpanMap (h' l) !! c'))).
    + done.
    + intros h1 h2 h3 H12 H23 l c' Hl. by apply H23, H12.
    + intros h1 offset h2 (row & _ & ->)%updateSubRowSpanStep_Some l c' Hl.
      rewrite setRowSpan_entry. by case_decide.
  - intros l Hl. eapply subLoop_untouched; [exact Hrun |].
    intros offset _ Hrow. by apply Hl, (arrGet_elem_of _ _ _ Hrow).
Qed.

Lemma appendStep_keeps (data : list loc) (prevRow : loc) (ext : bool)
    (h h' : heap) (c : string) :
  appendStep data prevRow ext h c = Some h' →
  (∀ l, rowKey (h' l) = rowKey (h l) ∧ cells (h' l) = cells (h l))
  ∧ (∀ l c', is_Some (rowSpanMap (h l) !! c') →
             is_Some (rowSpanMap (h' l) !! c'))
  ∧ (∀ l, l ∉ data → l ≠ prevRow → h' l = h l).
Proof.
  intros [[_ ->] | (prs & m & ms & _ & Hm & _ & Hrun)]%appendStep_inv; [done |].
  cbn zeta in Hrun. destruct (_ >? _)%Z; [| by subst h'].
  apply updateSubRowSpan_keeps in Hrun as (Hkeeps & Hstay & Hout).
  split; [| split].
  - intros l. destruct (Hkeeps l) as [-> ->].
    by rewrite setRowSpan_rowKey, setRowSpan_cells.
  - intros l c' Hl. apply Hstay. rewrite setRowSpan_entry. by case_decide.
  - intros l Hl Hprev. rewrite (Hout l Hl). unfold setRowSpan.
    apply heapSet_ne. intros ->. destruct (mainRow prs).
    + by injection Hm as ->.
    + by apply Hl, (findPropLoc_elem_of _ _ _ _ Hm).
Qed.

(** X20. Whenever [updateRowSpanWhenAppend] returns, it has changed no row
    key and no cell value, it has removed no span entry from any row, it has
    left alone every row that is neither in [data] nor [prevRow], and on the
    columns on which [prevRow] has no entry it has changed no entry at
    all. *)
Theorem updateRowSpanWhenAppend_leaves_alone (data : list loc)
    (prevRow : loc) (ext : bool) (h h' : heap) :
  updateRowSpanWhenAppend data prevRow ext h = Some h' →
  (∀ l, rowKey (h' l) = rowKey (h l) ∧ cells (h' l) = cells (h l))
  ∧ (∀ l c, is_Some (rowSpanMap (h l) !! c) →
            is_Some (rowSpanMap (h' l) !! c))
  ∧ (∀ l, l ∉ data → l ≠ prevRow → h' l = h l)
  ∧ (∀ c, rowSpanMap (h prevRow) !! c = None →
          ∀ l, rowSpanMap (h' l) !! c = rowSpanMap (h l) !! c).
Proof.
  unfold updateRowSpanWhenAppend.
  destruct (isEmpty (Some (rowSpanMap (h prevRow)))); [by intros [= <-] |].
  intros Hrun. split; [| split; [| split]].
  - revert Hrun.
    apply (foldOpt_invariant
             (λ h h' : heap, ∀ l, rowKey (h' l) = rowKey (h l)
                                  ∧ cells (h' l) = cells (h l))).
    + done.
    + intros h1 h2 h3 H12 H23 l. destruct (H12 l) as [<- <-]. apply H23.
    + intros h1 c h2 Hstep. by apply appendStep_keeps in Hstep as (? & _).
  - revert Hrun.
    apply (foldOpt_invariant
             (λ h h' : heap, ∀ l c, is_Some (rowSpanMap (h l) !! c) →
                                    is_Some (rowSpanMap (h' l) !! c))).
    + done.
    + intros h1 h2 h3 H12 H23 l c Hl. by apply H23, H12.
    + intros h1 c h2 Hstep. by apply appendStep_keeps in Hstep as (_ & ? & _).
  - revert Hrun.
    apply (foldOpt_invariant
             (λ h h' : heap, ∀ l, l ∉ data → l ≠ prevRow → h' l = h l)).
    + done.
    + intros h1 h2 h3 H12 H23 l Hl Hprev.
      by rewrite (H23 l Hl Hprev), (H12 l Hl Hprev).
    + intros h1 c h2 Hstep. by apply appendStep_keeps in Hstep as (_ & _ & ?).
  - intros c Hc l.
    assert (sameColumn c h h') as Hsame.
    { eapply keysLoop_frame; [| | exact Hrun].
      - intros; by eapply appendStep_frame.
      - rewrite elem_of_objectKeys, Hc. by intros [? ?]. }
    by destruct (Hsame l) as (_ & <- & _).
Qed.

Lemma updateRowSpanWhenAppend_leaves_alone_witness :
  let h : heap := λ l,
    match l with
    | 0 => mkRow (Num 0) {["region" := createRowSpan true (Num 0) 2 2]}
             {["region" := Str "Asia"]}
    | 1 => mkRow (Num 1) {["city" := createRowSpan true (Num 1) 1 1]} ∅
    | _ => mkRow (Num 2) {["region" := createRowSpan false (Num 0) (-1) 2]} ∅
    end in
  let h' := default h (updateRowSpanWhenAppend [0; 1; 2] 0 false h) in
  (rowKey (h' 1) = Num 1 ∧ cells (h' 1) = ∅)
  ∧ is_Some (rowSpanMap (h' 1) !! "city")
  ∧ rowSpanMap (h' 1) !! "city" = Some (createRowSpan true (Num 1) 1 1).
Proof.
  intros h h'.
  destruct (updateRowSpanWhenAppend_leaves_alone [0; 1; 2] 0 false h h')
    as (Hkeeps & Hstay & _ & Hcolumn).
  - vm_compute. reflexivity.
  - split; [exact (Hkeeps 1) |]. split.
    + apply Hstay. by eexists.
    + exact (Hcolumn "city" eq_refl 1).
Defined.

Lemma relinkOrDelete_outside (data : list loc) (mainRow' : loc) (c : string)
    (spanCount' : Z) (h h' : heap) :
  relinkOrDelete data mainRow' c spanCount' h = Some h' →
  ∀ l, l ∉ data → l ≠ mainRow' → h' l = h l.
Proof.
  intros Hrun%relinkOrDelete_inv l Hl Hmain. destruct (_ >? _)%Z.
  - destruct Hrun as (ms & _ & Hrun).
    apply updateSubRowSpan_keeps in Hrun as (_ & _ & Hout).
    rewrite (Hout l Hl). unfold setRowSpan. by apply heapSet_ne.
  - subst h'. unfold deleteRowSpan. by apply heapSet_ne.
Qed.

Lemma removeStep_keeps (data : list loc) (removedRow nextRow : loc)
    (keep : bool) (h h' : heap) (c : string) :
  removeStep data removedRow nextRow keep h c = Some h' →
  (∀ l, rowKey (h' l) = rowKey (h l))
  ∧ (∀ l, l ≠ nextRow ∨ keep = false → cells (h' l) = cells (h l))
  ∧ (∀ l, l ∉ data → l ≠ nextRow → h' l = h l).
Proof.
  intros Hstep. destruct (removeStep_entry _ _ _ _ _ _ _ Hstep) as [rs Hrs].
  destruct (mainRow rs) eqn:Hmain.
  - destruct (removeStep_main _ _ _ _ _ _ _ _ Hrs Hmain Hstep)
      as (h1 & Hh1 & Hrest).
    assert (∀ l, rowKey (h1 l) = rowKey (h l) ∧ cells (h1 l) = cells (h l)
                 ∧ (l ≠ nextRow → h1 l = h l)) as Hfirst.
    { intros l. destruct (_ >? _)%Z; [| by subst h1].
      destruct Hh1 as (ne & _ & ->).
      rewrite setRowSpan_rowKey, setRowSpan_cells. split; [done |].
      split; [done |]. intros Hl. unfold setRowSpan. by apply heapSet_ne. }
    set (h2 := if keep then _ else h1) in Hrest.
    assert (∀ l, rowKey (h2 l) = rowKey (h l)
                 ∧ (l ≠ nextRow ∨ keep = false → cells (h2 l) = cells (h l))
                 ∧ (l ≠ nextRow → h2 l = h l)) as Hsecond.
    { intros l. destruct (Hfirst l) as (Hkey & Hcells & Hout). subst h2.
      destruct keep; [| by auto].
      rewrite setCell_rowKey. split; [done |]. split.
      - intros [Hl | ?]; [| done]. by rewrite heapSet_ne.
      - intros Hl. rewrite heapSet_ne by done. by apply Hout. }
    split; [| split].
    + intros l. destruct (relinkOrDelete_keeps _ _ _ _ _ _ Hrest l) as [-> _].
      by destruct (Hsecond l).
    + intros l Hl. destruct (relinkOrDelete_keeps _ _ _ _ _ _ Hrest l)
        as [_ ->].
      destruct (Hsecond l) as (_ & Hcells & _). by apply Hcells.
    + intros l Hl Hnext.
      rewrite (relinkOrDelete_outside _ _ _ _ _ _ Hrest l Hl Hnext).
      destruct (Hsecond l) as (_ & _ & Hout). by apply Hout.
  - destruct (removeStep_sub _ _ _ _ _ _ _ _ Hrs Hmain Hstep)
      as (m & ms & Hm & _ & Hrest).
    split; [| split].
    + intros l. by destruct (relinkOrDelete_keeps _ _ _ _ _ _ Hrest l).
    + intros l _. by destruct (relinkOrDelete_keeps _ _ _ _ _ _ Hrest l).
    + intros l Hl _. apply (relinkOrDelete_outside _ _ _ _ _ _ Hrest l Hl).
      intros ->. by apply Hl, (findPropLoc_elem_of _ _ _ _ Hm).
Qed.

(** X21. Whenever [updateRowSpanWhenRemove] returns, it has changed no row
    key; it has changed no cell value of a row other than [nextRow], and
    none at all unless [keepRowSpanData] is set; it has left alone every row
    that is neither in [data] nor [nextRow], the removed row included once
    it is out of [data]; and on the columns on which the removed row has no
    entry it has changed neither an entry nor a value. *)
Theorem updateRowSpanWhenRemove_leaves_alone (data : list loc)
    (removedRow nextRow : loc) (keep : bool) (h h' : heap) :
  updateRowSpanWhenRemove data removedRow nextRow keep h = Some h' →
  (∀ l, rowKey (h' l) = rowKey (h l))
  ∧ (∀ l, l ≠ nextRow ∨ keep = false → cells (h' l) = cells (h l))
  ∧ (∀ l, l ∉ data → l ≠ nextRow → h' l = h l)
  ∧ (∀ c, rowSpanMap (h removedRow) !! c = None →
          ∀ l, rowSpanMap (h' l) !! c = rowSpanMap (h l) !! c
               ∧ getCell (h' l) c = getCell (h l) c).
Proof.
  unfold updateRowSpanWhenRemove.
  destruct (isEmpty (Some (rowSpanMap (h removedRow)))); [by intros [= <-] |].
  intros Hrun. split; [| split; [| split]].
  - revert Hrun.
    apply (foldOpt_invariant
             (λ h h' : heap, ∀ l, rowKey (h' l) = rowKey (h l))).
    + done.
    + intros h1 h2 h3 H12 H23 l. by rewrite H23, H12.
    + intros h1 c h2 Hstep. by apply removeStep_keeps in Hstep as (? & _).
  - revert Hrun.
    apply (foldOpt_invariant
             (λ h h' : heap, ∀ l, l ≠ nextRow ∨ keep = false →
                                  cells (h' l) = cells (h l))).
    + done.
    + intros h1 h2 h3 H12 H23 l Hl. by rewrite (H23 l Hl), (H12 l Hl).
    + intros h1 c h2 Hstep. by apply removeStep_keeps in Hstep as (_ & ? & _).
  - revert Hrun.
    apply (foldOpt_invariant
             (λ h h' : heap, ∀ l, l ∉ data → l ≠ nextRow → h' l = h l)).
    + done.
    + intros h1 h2 h3 H12 H23 l Hl Hnext.
      by rewrite (H23 l Hl Hnext), (H12 l Hl Hnext).
    + intros h1 c h2 Hstep. by apply removeStep_keeps in Hstep as (_ & _ & ?).
  - intros c Hc l.
    assert (sameColumn c h h') as Hsame.
    { eapply keysLoop_frame; [| | exact Hrun].
      - intros; by eapply removeStep_frame.
      - rewrite elem_of_objectKeys, Hc. by intros [? ?]. }
    by destruct (Hsame l) as (_ & <- & <-).
Qed.

Lemma updateRowSpanWhenRemove_leaves_alone_witness :
  let h : heap := λ l,
    match l with
    | 0 => mkRow (Num 0) {["region" := createRowSpan true (Num 0) 3 3]}
             {["region" := Str "Asia"; "city" := Str "Seoul"]}
    | 1 => mkRow (Num 1) {["region" := createRowSpan false (Num 0) (-1) 3]}
             {["city" := Str "Busan"]}
    | _ => mkRow (Num 2) {["region" := createRowSpan false (Num 0) (-2) 3]} ∅
    end in
  let h' := default h (updateRowSpanWhenRemove [1; 2] 0 1 true h) in
  rowKey (h' 1) = Num 1
  ∧ cells (h' 2) = ∅
  ∧ h' 0 = h 0
  ∧ getCell (h' 1) "city" = Str "Busan".
Proof.
  intros h h'.
  assert (updateRowSpanWhenRemove [1; 2] 0 1 true h = Some h') as Hrun
    by (vm_compute; reflexivity).
  clearbody h'.
  destruct (updateRowSpanWhenRemove_leaves_alone [1; 2] 0 1 true h h' Hrun)
    as (Hkeys & Hcells & Hout & Hcolumn).
  split; [exact (Hkeys 1) |]. split.
  { rewrite (Hcells 2) by (left; discriminate). vm_compute. reflexivity. }
  split.
  - apply Hout; [| discriminate].
    apply (bool_decide_unpack _). vm_compute. exact I.
  - rewrite (proj2 (Hcolumn "city" eq_refl 1)). vm_compute. reflexivity.
Defined.

(** ** Appending a row inside spans and removing it again *)

Lemma intactSpan_spec (data : list loc) (h : heap) (row : loc) (c : string)
    (e : RowSpan) :
  intactSpan data h row c = true → rowSpanMap (h row) !! c = Some e →
  ∃ main,
    findPropLoc (mainRowKey e) data h = Some main
    ∧ rowSpanMap (h main) !! c
      = Some (createRowSpan true (rowKey (h main)) (spanCount e) (spanCount e))
    ∧ (0 ≤ (if mainRow e then 0 else - count e) < spanCount e)%Z
    ∧ arrGet data (findPropIndex (rowKey (h main)) (rowsOf data h)
                   + (if mainRow e then 0 else - count e)) = Some row
    ∧ ∀ j, (1 ≤ j < spanCount e)%Z →
        ∃ r, arrGet data (findPropIndex (rowKey (h main)) (rowsOf data h) + j)
             = Some r
             ∧ rowSpanMap (h r) !! c
               = Some (createRowSpan false (rowKey (h main)) (- j)
                         (spanCount e)).
Proof.
  unfold intactSpan. intros Hintact He. rewrite He in Hintact.
  destruct (findPropLoc (mainRowKey e) data h) as [main|]; [| done].
  cbn zeta in Hintact.
  repeat (apply andb_true_iff in Hintact as [Hintact ?]).
  exists main. split; [done |].
  split; [by apply bool_decide_eq_true in Hintact |].
  split; [lia |]. split; [by eapply bool_decide_eq_true |].
  intros j Hj.
  match goal with H : forallb _ _ = true |- _ =>
    rewrite forallb_forall in H;
    specialize (H j ltac:(apply list_elem_of_In, elem_of_seqZ; lia)) end.
  destruct (arrGet data (findPropIndex (rowKey (h main)) (rowsOf data h) + j))
    as [r|]; [| done].
  exists r. split; [done |]. by eapply bool_decide_eq_true.
Qed.

Lemma arrGet_insert_before {A : Type} (before after : list A) (new : A)
    (i : Z) :
  (i < Z.of_nat (length before))%Z →
  arrGet (before ++ new :: after) i = arrGet (before ++ after) i.
Proof.
  intros Hi. unfold arrGet. destruct (0 <=? i)%Z eqn:Hpos; [| done].
  apply Z.leb_le in Hpos. by rewrite !lookup_app_l by lia.
Qed.

Lemma arrGet_insert_at {A : Type} (before after : list A) (new : A) :
  arrGet (before ++ new :: after) (Z.of_nat (length before)) = Some new.
Proof. rewrite arrGet_nat. by rewrite list_lookup_middle. Qed.

Lemma arrGet_insert_after {A : Type} (before after : list A) (new : A)
    (i : Z) :
  (Z.of_nat (length before) ≤ i)%Z →
  arrGet (before ++ new :: after) (i + 1) = arrGet (before ++ after) i.
Proof.
  intros Hi. unfold arrGet.
  destruct (Z.leb_spec 0 (i + 1)), (Z.leb_spec 0 i); try lia.
  rewrite !lookup_app_r by lia.
  replace (Z.to_nat (i + 1) - length before)
    with (S (Z.to_nat i - length before)) by lia.
  done.
Qed.

Lemma arrGet_last {A : Type} (before after : list A) (x : A) :
  last before = Some x →
  arrGet (before ++ after) (Z.of_nat (length before) - 1) = Some x.
Proof.
  intros Hlast. rewrite last_lookup in Hlast.
  assert (0 < length before) by (destruct before; [done | simpl; lia]).
  replace (Z.of_nat (length before) - 1)%Z
    with (Z.of_nat (pred (length before))) by lia.
  rewrite arrGet_nat. rewrite lookup_app_l by lia. done.
Qed.

Section append_then_remove.
Variables before after : list loc.
Variables prevRow new nextRow main : loc.
Variables ext keep : bool.
Variable h : heap.
Variable c : string.
Variable e : RowSpan.

Let data0 := before ++ after.
Let data1 := before ++ new :: after.
Let m0 := findPropIndex (rowKey (h main)) (rowsOf data0 h).
Let k := spanCount e.
Let j0 := if mainRow e then 0%Z else (- count e)%Z.

Hypothesis distinct : NoDup (rowKey <$> rowsOf data1 h).
Hypothesis prev_last : last before = Some prevRow.
Hypothesis prev_entry : rowSpanMap (h prevRow) !! c = Some e.
Hypothesis main_found : findPropLoc (mainRowKey e) data0 h = Some main.
Hypothesis main_entry :
  rowSpanMap (h main) !! c = Some (createRowSpan true (rowKey (h main)) k k).
Hypothesis offset_inside : (0 ≤ j0 < k)%Z.
Hypothesis prev_place : arrGet data0 (m0 + j0) = Some prevRow.
Hypothesis subs_intact :
  ∀ j, (1 ≤ j < k)%Z →
    ∃ r, arrGet data0 (m0 + j) = Some r
         ∧ rowSpanMap (h r) !! c
           = Some (createRowSpan false (rowKey (h main)) (- j) k).

Lemma inserted_sublist : data0 `sublist_of` data1.
Proof. apply sublist_app; [done | by apply sublist_cons]. Qed.

Lemma inserted_distinct : NoDup (rowKey <$> rowsOf data0 h).
Proof.
  eapply sublist_NoDup; [exact distinct |]. unfold rowsOf.
  apply fmap_sublist, fmap_sublist, inserted_sublist.
Qed.

Lemma inserted_main_place :
  arrGet data0 m0 = Some main ∧ rowKey (h main) = mainRowKey e.
Proof.
  destruct (findPropLoc_Some _ _ _ _ main_found) as [Hkey Hplace]. done.
Qed.

Lemma inserted_prev_index :
  (m0 + j0 = Z.of_nat (length before) - 1)%Z.
Proof.
  eapply (arrGet_inj data0 _ _ prevRow).
  - eapply distinct_keys_NoDup, inserted_distinct.
  - exact prev_place.
  - by apply arrGet_last.
Qed.

Lemma inserted_main_index :
  findPropIndex (rowKey (h main)) (rowsOf data1 h) = m0.
Proof.
  destruct inserted_main_place as [Hplace _].
  pose proof inserted_prev_index as Hindex.
  assert (arrGet data1 m0 = Some main) as Hplace1.
  { unfold data1. rewrite arrGet_insert_before; [done | lia]. }
  apply arrGet_Some in Hplace1 as [Hpos Hplace1].
  rewrite (findPropIndex_distinct (rowsOf data1 h) (Z.to_nat m0) (h main)).
  - lia.
  - exact distinct.
  - unfold rowsOf. by rewrite list_lookup_fmap, Hplace1.
Qed.

Lemma inserted_main_loc :
  (if mainRow e then Some prevRow
   else findPropLoc (mainRowKey e) data1 h) = Some main.
Proof.
  destruct inserted_main_place as [Hplace Hkey].
  pose proof prev_place as Hprev. pose proof inserted_prev_index as Hindex.
  pose proof inserted_main_index as Hmain. unfold j0 in Hprev.
  revert Hprev. generalize (mainRow e). intros [|] Hprev.
  - rewrite Z.add_0_r in Hprev. congruence.
  - unfold findPropLoc. rewrite <- Hkey, Hmain.
    unfold data1. rewrite arrGet_insert_before; [done |].
    pose proof offset_inside. lia.
Qed.

Lemma inserted_new_place : arrGet data1 (m0 + (j0 + 1)) = Some new.
Proof.
  pose proof inserted_prev_index.
  replace (m0 + (j0 + 1))%Z with (Z.of_nat (length before)) by lia.
  apply arrGet_insert_at.
Qed.

(** The rows of the grown span in the list with the new row are the new
    row and the rows of the span in the list without it. *)
Lemma inserted_positions (j : Z) :
  (1 ≤ j < k + 1)%Z →
  ∃ l, arrGet data1 (m0 + j) = Some l
       ∧ (l = new ∨ ∃ j', (1 ≤ j' < k)%Z ∧ arrGet data0 (m0 + j') = Some l).
Proof.
  intros Hj. pose proof inserted_prev_index as Hindex.
  destruct (Z.lt_trichotomy (m0 + j) (Z.of_nat (length before)))
    as [Hlt | [Heq | Hgt]].
  - destruct (subs_intact j ltac:(lia)) as (r & Hr & _).
    exists r. unfold data1. rewrite arrGet_insert_before by done.
    split; [done |]. right. exists j. split; [lia | done].
  - exists new. rewrite Heq. split; [apply arrGet_insert_at | by left].
  - destruct (subs_intact (j - 1)%Z ltac:(lia)) as (r & Hr & _).
    exists r. replace (m0 + j)%Z with (m0 + (j - 1) + 1)%Z by lia.
    unfold data1. rewrite arrGet_insert_after by lia.
    split; [done |]. right. exists (j - 1)%Z. split; [lia | done].
Qed.

Lemma appendStep_stays :
  (k >? (if mainRow e || ext then 1 else - count e + 1))%Z = false →
  appendStep data1 prevRow ext h c = Some h.
Proof.
  intros Htest. unfold appendStep. rewrite prev_entry, inserted_main_loc.
  cbn [mbind option_bind]. rewrite main_entry. cbn [mbind option_bind].
  cbn [spanCount]. fold k. by rewrite Htest.
Qed.

Lemma appendStep_grows :
  (k >? (if mainRow e || ext then 1 else - count e + 1))%Z = true →
  ∃ hs,
    appendStep data1 prevRow ext h c = Some hs
    ∧ (∀ l, rowKey (hs l) = rowKey (h l) ∧ cells (hs l) = cells (h l))
    ∧ rowSpanMap (hs main) !! c
      = Some (createRowSpan true (rowKey (h main)) (k + 1) (k + 1))
    ∧ rowSpanMap (hs new) !! c
      = Some (createRowSpan false (rowKey (h main)) (- (j0 + 1)) (k + 1))
    ∧ (∀ l, l ≠ main → l ≠ new →
            (∀ j, (1 ≤ j < k)%Z → arrGet data0 (m0 + j) ≠ Some l) →
            hs l = h l).
Proof.
  intros Htest.
  set (grown := createRowSpan true (rowKey (h main)) (k + 1) (k + 1)).
  assert (appendStep data1 prevRow ext h c
          = updateSubRowSpan data1 main c 1 (k + 1)
              (setRowSpan h main c grown)) as Hstep.
  { unfold appendStep. rewrite prev_entry, inserted_main_loc.
    cbn [mbind option_bind]. rewrite main_entry. cbn [mbind option_bind].
    cbn [spanCount mainRow mainRowKey count]. fold k. by rewrite Htest. }
  assert (NoDup data1) as Hdata1 by (by eapply distinct_keys_NoDup).
  assert (arrGet data1 (findPropIndex (rowKey (h main)) (rowsOf data1 h))
          = Some main) as Hplace1.
  { rewrite inserted_main_index. destruct inserted_main_place as [Hplace _].
    unfold data1. rewrite arrGet_insert_before; [done |].
    pose proof inserted_prev_index. lia. }
  assert (is_Some (updateSubRowSpan data1 main c 1 (k + 1)
                     (setRowSpan h main c grown))) as [hs Hrun].
  { apply updateSubRowSpan_success. rewrite setRowSpan_rowKey.
    rewrite (findPropIndex_same_keys _ data1 _ h)
      by (intros l; by rewrite setRowSpan_rowKey).
    rewrite inserted_main_index. apply rowsPresent_spec. intros j Hj.
    destruct (inserted_positions j Hj) as (l & -> & _). by eexists. }
  exists hs. split; [by rewrite Hstep |].
  destruct (updateSubRowSpan_relinks data1 main c grown (k + 1) h hs
              Hdata1 Hplace1 Hrun) as (Hmain & Hsubs & Hothers).
  rewrite inserted_main_index in Hsubs, Hothers.
  split; [| split; [done | split]].
  - intros l. apply updateSubRowSpan_keeps in Hrun as (Hkeeps & _).
    destruct (Hkeeps l) as [-> ->].
    by rewrite setRowSpan_rowKey, setRowSpan_cells.
  - destruct (Hsubs (j0 + 1)%Z ltac:(lia)) as (row & Hrow & Hentry).
    rewrite inserted_new_place in Hrow. by injection Hrow as <-.
  - intros l Hmain' Hnew Hnot. apply Hothers; [done |].
    intros j Hj Hl. destruct (inserted_positions j Hj) as (l' & Hl' & Hwhere).
    rewrite Hl in Hl'. injection Hl' as <-.
    destruct Hwhere as [-> | (j' & Hj' & Hl')]; [done |].
    by apply (Hnot j' Hj').
Qed.

Lemma removeStep_restores (hs : heap) :
  (2 ≤ k)%Z →
  (∀ l, rowKey (hs l) = rowKey (h l) ∧ cells (hs l) = cells (h l)) →
  rowSpanMap (hs main) !! c
  = Some (createRowSpan true (rowKey (h main)) (k + 1) (k + 1)) →
  rowSpanMap (hs new) !! c
  = Some (createRowSpan false (rowKey (h main)) (- (j0 + 1)) (k + 1)) →
  (∀ l, l ≠ main → l ≠ new →
        (∀ j, (1 ≤ j < k)%Z → arrGet data0 (m0 + j) ≠ Some l) →
        hs l = h l) →
  ∃ hr,
    removeStep data0 new nextRow keep hs c = Some hr
    ∧ ∀ l, l ≠ new →
        rowKey (hr l) = rowKey (h l)
        ∧ rowSpanMap (hr l) !! c = rowSpanMap (h l) !! c
        ∧ getCell (hr l) c = getCell (h l) c.
Proof.
  intros Hk Hkeeps Hmain Hnew Hothers.
  destruct inserted_main_place as [Hplace Hkey].
  assert (∀ l, rowKey (hs l) = rowKey (h l)) as Hkeys
    by (intros l; by destruct (Hkeeps l)).
  assert (findPropIndex (rowKey (hs main)) (rowsOf data0 hs) = m0) as Hindex.
  { rewrite Hkeys. by apply findPropIndex_same_keys. }
  assert (findPropLoc (rowKey (h main)) data0 hs = Some main) as Hfound.
  { rewrite (findPropLoc_same_keys _ data0 hs h Hkeys). by rewrite Hkey. }
  assert (NoDup data0) as Hdata0
    by (eapply distinct_keys_NoDup, inserted_distinct).
  assert (is_Some (removeStep data0 new nextRow keep hs c)) as [hr Hstep].
  { unfold removeStep. rewrite Hnew. cbn [mbind option_bind mainRow mainRowKey].
    rewrite Hfound. cbn [mbind option_bind]. rewrite Hmain.
    cbn [mbind option_bind spanCount]. apply relinkOrDelete_success.
    intros _. split; [by rewrite Hmain |].
    rewrite Hindex. apply rowsPresent_spec. intros j Hj.
    destruct (subs_intact j ltac:(lia)) as (r & -> & _). by eexists. }
  exists hr. split; [done |].
  destruct (removeStep_shrinks data0 new nextRow keep hs hr c _ _ main
              Hnew eq_refl Hfound Hmain Hstep) as (Hkeeps' & _ & Hmany).
  cbn [spanCount mainRow mainRowKey] in Hmany.
  destruct Hmany as (Hmain' & Hsubs & Hrest); [lia | done |].
  rewrite Hindex in Hsubs, Hrest.
  replace (k + 1 - 1)%Z with k in Hmain', Hsubs, Hrest by lia.
  intros l Hl. destruct (Hkeeps' l) as [Hkey' Hcells'].
  destruct (Hkeeps l) as [Hkey'' Hcells''].
  split; [by rewrite Hkey' |].
  split; [| unfold getCell; by rewrite Hcells', Hcells''].
  destruct (decide (l = main)) as [-> | Hne]; [by rewrite Hmain', main_entry |].
  destruct (decide (l ∈ data0)) as [[i Hi]%list_elem_of_lookup_1 | Hout].
  - destruct (decide (1 ≤ Z.of_nat i - m0 < k)%Z) as [Hin | Hnotin].
    + destruct (Hsubs _ Hin) as (row & Hrow & Hentry).
      destruct (subs_intact _ Hin) as (r & Hr & Horig).
      replace (m0 + (Z.of_nat i - m0))%Z with (Z.of_nat i) in Hrow, Hr by lia.
      rewrite arrGet_nat in Hrow, Hr.
      rewrite Hi in Hrow, Hr. injection Hrow as <-. injection Hr as <-.
      by rewrite Hentry, Horig, Hkeys.
    + assert (∀ j, (1 ≤ j < k)%Z → arrGet data0 (m0 + j) ≠ Some l) as Hnot.
      { intros j Hj Hl'. rewrite <- (arrGet_nat data0 i) in Hi.
        pose proof (arrGet_inj data0 _ _ l Hdata0 Hl' Hi). lia. }
      rewrite (Hrest l Hne Hnot). by rewrite (Hothers l Hne Hl Hnot).
  - assert (∀ j, (1 ≤ j < k)%Z → arrGet data0 (m0 + j) ≠ Some l) as Hnot.
    { intros j Hj Hl'. by apply Hout, (arrGet_elem_of _ _ _ Hl'). }
    rewrite (Hrest l Hne Hnot). by rewrite (Hothers l Hne Hl Hnot).
Qed.

End append_then_remove.

Lemma objectKeys_empty {V : Type} (m : gmap string V) :
  isEmpty (Some m) = true → objectKeys m = [].
Proof.
  unfold isEmpty, objectKeys. intros Hdom%bool_decide_eq_true.
  apply dom_empty_inv_L in Hdom. subst m. by rewrite map_to_list_empty.
Qed.

Lemma updateRowSpanWhenAppend_fold (data : list loc) (prevRow : loc)
    (ext : bool) (h : heap) :
  updateRowSpanWhenAppend data prevRow ext h
  = foldOpt (appendStep data prevRow ext) h
      (objectKeys (rowSpanMap (h prevRow))).
Proof.
  unfold updateRowSpanWhenAppend.
  destruct (isEmpty (Some (rowSpanMap (h prevRow)))) eqn:Hempty; [| done].
  by rewrite (objectKeys_empty _ Hempty).
Qed.

Lemma updateRowSpanWhenRemove_fold (data : list loc)
    (removedRow nextRow : loc) (keep : bool) (h : heap) :
  updateRowSpanWhenRemove data removedRow nextRow keep h
  = foldOpt (removeStep data removedRow nextRow keep) h
      (objectKeys (rowSpanMap (h removedRow))).
Proof.
  unfold updateRowSpanWhenRemove.
  destruct (isEmpty (Some (rowSpanMap (h removedRow)))) eqn:Hempty; [| done].
  by rewrite (objectKeys_empty _ Hempty).
Qed.

(** On one column: the step of the append either leaves the store as it is,
    or gives the new row an entry, and then the step of the removal of the
    new row gives every other row its entry back. *)
Lemma column_round_trip (before after : list loc)
    (prevRow new nextRow : loc) (ext keep : bool) (h : heap) (c : string) :
  NoDup (rowKey <$> rowsOf (before ++ new :: after) h) →
  last before = Some prevRow →
  intactSpan (before ++ after) h prevRow c = true →
  ∃ hs,
    appendStep (before ++ new :: after) prevRow ext h c = Some hs
    ∧ (hs = h
       ∨ is_Some (rowSpanMap (hs new) !! c)
         ∧ ∃ hr,
             removeStep (before ++ after) new nextRow keep hs c = Some hr
             ∧ ∀ l, l ≠ new →
                 rowKey (hr l) = rowKey (h l)
                 ∧ rowSpanMap (hr l) !! c = rowSpanMap (h l) !! c
                 ∧ getCell (hr l) c = getCell (h l) c).
Proof.
  intros Hdistinct Hlast Hintact.
  destruct (rowSpanMap (h prevRow) !! c) as [e|] eqn:He.
  2: { exists h. split; [| by left]. unfold appendStep. by rewrite He. }
  destruct (intactSpan_spec _ _ _ _ _ Hintact He)
    as (main & Hfound & Hmain & Hinside & Hplace & Hsubs).
  destruct (spanCount e >? (if mainRow e || ext then 1 else - count e + 1))%Z
    eqn:Htest.
  - destruct (appendStep_grows before after prevRow new main ext h c e
                Hdistinct Hlast He Hfound Hmain Hinside Hplace Hsubs Htest)
      as (hs & Hstep & Hkeeps & Hgrown & Hnew & Hothers).
    exists hs. split; [done |]. right. split; [by rewrite Hnew |].
    apply (removeStep_restores before after new nextRow main keep h c e
             Hdistinct Hfound Hmain Hsubs hs); try done.
    apply Z.gtb_lt in Htest.
    destruct (mainRow e), ext; simpl in Htest; lia.
  - exists h. split; [| by left].
    by apply (appendStep_stays before after prevRow new main ext h c e).
Qed.

(** X22. A fresh row (without span entry) is inserted after [prevRow], and
    every span [prevRow] belongs to is intact in the rows before the
    insertion. Then [updateRowSpanWhenAppend], called on the rows with the
    new row, returns; [updateRowSpanWhenRemove], called for the new row on
    the rows without it, returns as well; and every row other than the new
    one has the same key, the same span map and the same values as before
    the two calls, whatever [extendPrevRowSpan], [keepRowSpanData] and
    [nextRow] are. *)
Theorem updateRowSpanWhenRemove_undoes_append (before after : list loc)
    (prevRow new nextRow : loc) (ext keep : bool) (h : heap) :
  let data0 := before ++ after in
  let data1 := before ++ new :: after in
  NoDup (rowKey <$> rowsOf data1 h) →
  last before = Some prevRow →
  rowSpanMap (h new) = ∅ →
  forallb (intactSpan data0 h prevRow) (objectKeys (rowSpanMap (h prevRow)))
  = true →
  ∃ h1 h2,
    updateRowSpanWhenAppend data1 prevRow ext h = Some h1
    ∧ updateRowSpanWhenRemove data0 new nextRow keep h1 = Some h2
    ∧ ∀ l, l ≠ new →
        rowKey (h2 l) = rowKey (h l)
        ∧ rowSpanMap (h2 l) = rowSpanMap (h l)
        ∧ ∀ c, getCell (h2 l) c = getCell (h l) c.
Proof.
  intros data0 data1. subst data0 data1.
  intros Hdistinct Hlast Hfresh Hintact.
  set (keys1 := objectKeys (rowSpanMap (h prevRow))) in *.
  assert (∀ c, intactSpan (before ++ after) h prevRow c = true) as Hall.
  { intros c. destruct (rowSpanMap (h prevRow) !! c) as [e|] eqn:He.
    - rewrite forallb_forall in Hintact. apply Hintact, list_elem_of_In.
      apply elem_of_objectKeys. by rewrite He.
    - unfold intactSpan. by rewrite He. }
  pose proof (λ c, column_round_trip before after prevRow new nextRow ext keep
                     h c Hdistinct Hlast (Hall c)) as Hcolumn.
  assert (∀ c, rowSpanMap (h new) !! c = None) as Hnone
    by (intros c; by rewrite Hfresh).
  (* the append *)
  assert (is_Some (foldOpt (appendStep (before ++ new :: after) prevRow ext) h keys1))
    as [h1 Hrun1].
  { apply keysLoop_success.
    - intros; by eapply appendStep_frame.
    - intros; by eapply appendStep_congr.
    - apply objectKeys_NoDup.
    - intros c _. destruct (Hcolumn c) as (hs & -> & _). by eexists. }
  assert (∀ c, ∃ hs, appendStep (before ++ new :: after) prevRow ext h c = Some hs
                     ∧ sameColumn c hs h1) as Hfirst.
  { intros c. destruct (decide (c ∈ keys1)) as [Hc | Hc].
    - apply (keysLoop_column (appendStep (before ++ new :: after) prevRow ext)
               (λ h h' c c', appendStep_frame (before ++ new :: after) prevRow ext h h' c c')
               (λ h1 h2 h1' c, appendStep_congr (before ++ new :: after) prevRow ext h1 h2 h1' c)
               keys1 c h h1 (objectKeys_NoDup _) Hc Hrun1).
    - exists h. split.
      + unfold appendStep.
        destruct (rowSpanMap (h prevRow) !! c) eqn:He; [| done].
        exfalso. apply Hc, elem_of_objectKeys. by rewrite He.
      + eapply keysLoop_frame; [| exact Hc | exact Hrun1].
        intros; by eapply appendStep_frame. }
  (* the removal *)
  set (keys2 := objectKeys (rowSpanMap (h1 new))).
  assert (∀ c, c ∈ keys2 →
            ∃ hs hr hr1,
              sameColumn c hs h1
              ∧ removeStep (before ++ after) new nextRow keep h1 c = Some hr1
              ∧ sameColumn c hr hr1
              ∧ ∀ l, l ≠ new →
                  rowKey (hr l) = rowKey (h l)
                  ∧ rowSpanMap (hr l) !! c = rowSpanMap (h l) !! c
                  ∧ getCell (hr l) c = getCell (h l) c) as Hgrown.
  { intros c Hc%elem_of_objectKeys.
    destruct (Hfirst c) as (hs & Hstep & Hsame).
    destruct (Hcolumn c) as (hs' & Hstep' & Hcases).
    rewrite Hstep in Hstep'. injection Hstep' as <-.
    destruct (Hsame new) as (_ & Hentry & _). rewrite <- Hentry in Hc.
    destruct Hcases as [-> | (_ & hr & Hremove & Hrestored)].
    { rewrite Hnone in Hc. by destruct Hc. }
    destruct (removeStep_congr _ _ _ _ _ _ _ _ Hsame Hremove)
      as (hr1 & Hremove1 & Hsame1).
    by exists hs, hr, hr1. }
  assert (is_Some (foldOpt (removeStep (before ++ after) new nextRow keep) h1 keys2))
    as [h2 Hrun2].
  { apply keysLoop_success.
    - intros; by eapply removeStep_frame.
    - intros; by eapply removeStep_congr.
    - apply objectKeys_NoDup.
    - intros c Hc. destruct (Hgrown c Hc) as (_ & _ & hr1 & _ & -> & _).
      by eexists. }
  exists h1, h2.
  split; [by rewrite updateRowSpanWhenAppend_fold |].
  split; [by rewrite updateRowSpanWhenRemove_fold |].
  assert (∀ c l, l ≠ new →
            rowKey (h2 l) = rowKey (h l)
            ∧ rowSpanMap (h2 l) !! c = rowSpanMap (h l) !! c
            ∧ getCell (h2 l) c = getCell (h l) c) as Hrestored.
  { intros c l Hl. destruct (decide (c ∈ keys2)) as [Hc | Hc].
    - destruct (Hgrown c Hc) as (hs & hr & hr1 & _ & Hremove & Hsame & Hback).
      destruct (keysLoop_column (removeStep (before ++ after) new nextRow keep)
                  (λ h h' c c', removeStep_frame (before ++ after) new nextRow keep
                                  h h' c c')
                  (λ h1 h2 h1' c, removeStep_congr (before ++ after) new nextRow keep
                                    h1 h2 h1' c)
                  keys2 c h1 h2 (objectKeys_NoDup _) Hc Hrun2)
        as (hr1' & Hremove' & Hsame').
      rewrite Hremove in Hremove'. injection Hremove' as <-.
      destruct (Hsame' l) as (<- & <- & <-).
      destruct (Hsame l) as (<- & <- & <-). by apply Hback.
    - assert (sameColumn c h1 h2) as Hsame2.
      { eapply keysLoop_frame; [| exact Hc | exact Hrun2].
        intros; by eapply removeStep_frame. }
      destruct (Hfirst c) as (hs & Hstep & Hsame).
      destruct (Hcolumn c) as (hs' & Hstep' & Hcases).
      rewrite Hstep in Hstep'. injection Hstep' as <-.
      destruct Hcases as [-> | (Hentry & _)].
      + destruct (Hsame2 l) as (<- & <- & <-).
        by destruct (Hsame l) as (<- & <- & <-).
      + exfalso. apply Hc, elem_of_objectKeys.
        destruct (Hsame new) as (_ & <- & _). done. }
  intros l Hl. split; [by destruct (Hrestored "" l Hl) |]. split.
  - apply map_eq. intros c. by destruct (Hrestored c l Hl) as (_ & ? & _).
  - intros c. by destruct (Hrestored c l Hl) as (_ & _ & ?).
Qed.

Lemma updateRowSpanWhenRemove_undoes_append_witness :
  let h : heap := λ l,
    match l with
    | 0 => mkRow (Num 0) {["region" := createRowSpan true (Num 0) 3 3]}
             {["region" := Str "Asia"]}
    | 1 => mkRow (Num 1) {["region" := createRowSpan false (Num 0) (-1) 3]} ∅
    | 2 => mkRow (Num 2) {["region" := createRowSpan false (Num 0) (-2) 3]} ∅
    | _ => mkRow (Num 3) ∅ {["region" := Str "Africa"]}
    end in
  ∃ h1 h2,
    updateRowSpanWhenAppend [0; 1; 3; 2] 1 false h = Some h1
    ∧ updateRowSpanWhenRemove [0; 1; 2] 3 2 true h1 = Some h2
    ∧ rowSpanMap (h2 0) = rowSpanMap (h 0)
    ∧ rowSpanMap (h2 2) = rowSpanMap (h 2)
    ∧ getCell (h2 2) "region" = getCell (h 2) "region".
Proof.
  intros h.
  destruct (updateRowSpanWhenRemove_undoes_append [0; 1] [2] 1 3 2 false true
              h) as (h1 & h2 & Happend & Hremove & Hback).
  - apply (bool_decide_unpack _). vm_compute. exact I.
  - reflexivity.
  - vm_compute. reflexivity.
  - vm_compute. reflexivity.
  - exists h1, h2. split; [exact Happend |]. split; [exact Hremove |].
    split; [exact (proj1 (proj2 (Hback 0 ltac:(discriminate)))) |].
    split; [exact (proj1 (proj2 (Hback 2 ltac:(discriminate)))) |].
    exact (proj2 (proj2 (Hback 2 ltac:(discriminate))) "region").
Defined.

(** ** The spans built by [createData] are intact *)

Lemma heapOf_lookup (rows : list Row) (i : nat) (row : Row) :
  rows !! i = Some row → heapOf rows i = row.
Proof. intros Hrow. unfold heapOf. cbv beta. by rewrite Hrow. Qed.

Lemma rowsOf_heapOf (rows : list Row) :
  rowsOf (seq 0 (length rows)) (heapOf rows) = rows.
Proof.
  unfold rowsOf. apply list_eq. intros j. rewrite list_lookup_fmap.
  destruct (decide (j < length rows)) as [Hj | Hj].
  - rewrite lookup_seq_lt by done. simpl.
    destruct (lookup_lt_is_Some_2 rows j Hj) as [row Hrow].
    by rewrite (heapOf_lookup _ _ _ Hrow).
  - rewrite lookup_seq_ge by lia. simpl. symmetry.
    apply lookup_ge_None. lia.
Qed.

(** Below a main entry of [k] rows, the row at each offset [j < k] holds
    the sub entry of that offset. *)
Lemma createData_span_below (data : list OptRow) (column : Column)
    (lazyObservable : bool) (c : string) (s : nat) (main : Row) (k : Z)
    (j : nat) :
  let rows := createData data column lazyObservable None in
  rows !! s = Some main →
  rowSpanMap main !! c = Some (createRowSpan true (rowKey main) k k) →
  1 ≤ j → (Z.of_nat j < k)%Z → s + j < length rows →
  ∃ r, rows !! (s + j) = Some r
       ∧ rowSpanMap r !! c
         = Some (createRowSpan false (rowKey main) (- Z.of_nat j) k).
Proof.
  intros rows Hmain Hentry Hj. induction Hj as [|j Hj IH]; intros Hk Hfits.
  - assert (is_Some (data !! (s + 1))) as [row Hrow].
    { apply lookup_lt_is_Some.
      pose proof (createData_length data column lazyObservable) as Hlength.
      unfold rows in Hfits. lia. }
    destruct (createData_entry data column lazyObservable c _ _ Hrow)
      as (out & Hout & _ & Hspan).
    exists out. split; [done |]. rewrite Hspan.
    replace (s + 1) with (S s) by lia. cbn match. fold rows.
    rewrite Hmain. cbn [mbind option_bind]. rewrite Hentry.
    unfold entryOf. cbn [mbind option_bind]. unfold subRowSpanOf.
    cbn [spanCount count mainRowKey].
    destruct (Z.gtb_spec k (1 - k)); [| lia].
    destruct (Z.geb_spec k 0); [done | lia].
  - destruct IH as (prev & Hprev & Hprev_entry); [lia | lia |].
    assert (is_Some (data !! (s + S j))) as [row Hrow].
    { apply lookup_lt_is_Some.
      pose proof (createData_length data column lazyObservable) as Hlength.
      unfold rows in Hfits. lia. }
    destruct (createData_entry data column lazyObservable c _ _ Hrow)
      as (out & Hout & _ & Hspan).
    exists out. split; [done |]. rewrite Hspan.
    replace (s + S j) with (S (s + j)) by lia. cbn match. fold rows.
    rewrite Hprev. cbn [mbind option_bind]. rewrite Hprev_entry.
    unfold entryOf. cbn [mbind option_bind]. unfold subRowSpanOf.
    cbn [spanCount count mainRowKey].
    destruct (Z.gtb_spec k (1 - - Z.of_nat j)); [| lia].
    destruct (Z.geb_spec (- Z.of_nat j) 0); [lia |].
    do 2 f_equal. lia.
Qed.

(** X23. In a dataset built by [createData] with pairwise distinct row
    keys, the span of every entry is intact as soon as it ends inside the
    data and has at least the rows it uses (1 for a main entry, 2 for a sub
    entry): the main row is found by the key of the entry and holds the
    main entry, the row lies at the offset its entry tells, and each row
    below the main row holds the sub entry of its offset. *)
Theorem createData_spans_intact (data : list OptRow) (column : Column)
    (lazyObservable : bool) (c : string) (i : nat) (out : Row) (e : RowSpan) :
  let rows := createData data column lazyObservable None in
  NoDup (rowKey <$> rows) →
  rows !! i = Some out → rowSpanMap out !! c = Some e →
  ((if mainRow e then 1 else 2) ≤ spanCount e)%Z →
  (Z.of_nat i + (if mainRow e then 0 else count e) + spanCount e
   ≤ Z.of_nat (length rows))%Z →
  intactSpan (seq 0 (length rows)) (heapOf rows) i c = true.
Proof.
  intros rows Hkeys Hout He Hsize Hfits.
  assert (∃ top main,
            top ≤ i ∧ rows !! top = Some main ∧ mainRowKey e = rowKey main
            ∧ rowSpanMap main !! c
              = Some (createRowSpan true (rowKey main) (spanCount e)
                        (spanCount e))
            ∧ (if mainRow e then 0 else - count e)%Z = Z.of_nat (i - top)
            ∧ (Z.of_nat (i - top) < spanCount e)%Z)
    as (top & main & Htop & Hmain & Hkey & Hentry & Hoffset & Hinside).
  { destruct (createData_entry_linked data column lazyObservable c i out e
                Hout He)
      as [(Hflag & Hkey & Hcount)
         | (Hflag & d & src & Hd & Hcount & Hsrc & Hentry & Hkey & _ & Hlast)].
    - exists i, out. rewrite Hflag in Hsize |- *.
      repeat split; try done; try lia.
      rewrite He. f_equal. destruct e as [flag key n k]. simpl in *.
      by subst.
    - exists (i - d), src. rewrite Hflag in Hsize |- *.
      repeat split; try done; lia. }
  unfold intactSpan. rewrite (heapOf_lookup _ _ _ Hout), He.
  assert (findPropIndex (rowKey main) rows = Z.of_nat top) as Hindex
    by (by apply findPropIndex_distinct).
  assert (findPropLoc (mainRowKey e) (seq 0 (length rows)) (heapOf rows)
          = Some top) as ->.
  { unfold findPropLoc. rewrite rowsOf_heapOf, Hkey, Hindex, arrGet_nat.
    apply lookup_seq. split; [done |]. by eapply lookup_lt_Some. }
  cbn zeta. rewrite rowsOf_heapOf, (heapOf_lookup _ _ _ Hmain), Hindex.
  rewrite Hoffset.
  repeat (apply andb_true_iff; split).
  - by apply bool_decide_eq_true.
  - apply Z.leb_le. lia.
  - by apply Z.ltb_lt.
  - apply bool_decide_eq_true.
    replace (Z.of_nat top + Z.of_nat (i - top))%Z with (Z.of_nat i) by lia.
    rewrite arrGet_nat. apply lookup_seq. split; [done |].
    by eapply lookup_lt_Some.
  - rewrite forallb_forall. intros j Hj%list_elem_of_In%elem_of_seqZ.
    assert (top + Z.to_nat j < length rows) as Hbelow.
    { destruct (mainRow e); lia. }
    destruct (createData_span_below data column lazyObservable c top main
                (spanCount e) (Z.to_nat j) Hmain Hentry ltac:(lia) ltac:(lia)
                Hbelow) as (r & Hr & Hsub).
    replace (Z.of_nat top + j)%Z with (Z.of_nat (top + Z.to_nat j)) by lia.
    rewrite arrGet_nat, lookup_seq_lt by done. simpl. fold rows in Hr.
    rewrite (heapOf_lookup _ _ _ Hr). apply bool_decide_eq_true.
    rewrite Hsub. do 2 f_equal. lia.
Qed.

Lemma createData_spans_intact_witness :
  let data :=
    [mkOptRow Undefined ∅ None;
     mkOptRow Undefined ∅ (Some {["region" := 3%Z]});
     mkOptRow Undefined ∅ None; mkOptRow Undefined ∅ None] in
  let rows := createData data (mkColumn None [] ∅) true None in
  intactSpan (seq 0 (length rows)) (heapOf rows) 3 "region" = true.
Proof.
  intros data rows.
  apply (createData_spans_intact data (mkColumn None [] ∅) true "region" 3
           (mkRow (Num 3) {["region" := createRowSpan false (Num 1) (-2) 3]} ∅)
           (createRowSpan false (Num 1) (-2) 3)).
  - apply (bool_decide_unpack _). vm_compute. exact I.
  - vm_compute. reflexivity.
  - reflexivity.
  - simpl. lia.
  - vm_compute. discriminate.
Defined.

(** ** The loop of [updateSubRowSpan] *)

(** X24. [updateSubRowSpan] returns exactly when [data] holds a row at each
    offset from [startOffset] to [spanCount - 1] below the index at which
    the key of the main row is found, and it changes nothing when there is
    no such offset. When it returns, the row at each of these offsets holds
    the sub entry of its offset, with the key of the main row and the span
    count given, and every row that is at none of these offsets is as it
    was. *)
Theorem updateSubRowSpan_outcome (data : list loc) (mainRow' : loc)
    (c : string) (startOffset spanCount' : Z) (h : heap) :
  let index := findPropIndex (rowKey (h mainRow')) (rowsOf data h) in
  (is_Some (updateSubRowSpan data mainRow' c startOffset spanCount' h) ↔
   ∀ offset, (startOffset ≤ offset < spanCount')%Z →
             is_Some (arrGet data (index + offset)))
  ∧ ((spanCount' ≤ startOffset)%Z →
     updateSubRowSpan data mainRow' c startOffset spanCount' h = Some h)
  ∧ (∀ h', NoDup data →
       updateSubRowSpan data mainRow' c startOffset spanCount' h = Some h' →
       (∀ offset l, (startOffset ≤ offset < spanCount')%Z →
          arrGet data (index + offset) = Some l →
          rowSpanMap (h' l) !! c
          = Some (createRowSpan false (rowKey (h mainRow')) (- offset)
                    spanCount'))
       ∧ (∀ l, (∀ offset, (startOffset ≤ offset < spanCount')%Z →
                  arrGet data (index + offset) ≠ Some l) →
               h' l = h l)).
Proof.
  intros index. unfold updateSubRowSpan. fold index. split; [| split].
  - rewrite subLoop_success. split; intros H offset Hoffset.
    + apply H, elem_of_seqZ. lia.
    + apply H. apply elem_of_seqZ in Hoffset. lia.
  - intros Hnone. unfold seqZ.
    replace (Z.to_nat (spanCount' - startOffset)) with 0 by lia. done.
  - intros h' Hdata Hrun. split.
    + intros offset l Hoffset Hl.
      eapply subLoop_written; eauto using NoDup_seqZ.
      apply elem_of_seqZ. lia.
    + intros l Hnot. eapply subLoop_untouched; [done |].
      intros offset Hin%elem_of_seqZ. apply Hnot. lia.
Qed.

Lemma updateSubRowSpan_outcome_witness :
  let h : heap := λ l,
    match l with
    | 0 => mkRow (Num 0) {["region" := createRowSpan true (Num 0) 3 3]} ∅
    | 1 => mkRow (Num 1) ∅ ∅
    | _ => mkRow (Num 2) ∅ ∅
    end in
  is_Some (updateSubRowSpan [0; 1; 2] 0 "region" 1 3 h)
  ∧ updateSubRowSpan [0; 1] 0 "region" 1 3 h = None
  ∧ updateSubRowSpan [0; 1] 0 "region" 3 3 h = Some h.
Proof.
  intros h.
  destruct (updateSubRowSpan_outcome [0; 1; 2] 0 "region" 1 3 h)
    as ([_ Hreturns] & _).
  destruct (updateSubRowSpan_outcome [0; 1] 0 "region" 1 3 h)
    as ([Hraises _] & _).
  destruct (updateSubRowSpan_outcome [0; 1] 0 "region" 3 3 h)
    as (_ & Hnothing & _).
  split; [| split].
  - apply Hreturns. intros offset Hoffset.
    assert (offset = 1 ∨ offset = 2)%Z as [-> | ->] by lia; by eexists.
  - destruct (updateSubRowSpan [0; 1] 0 "region" 1 3 h) eqn:Hrun; [| done].
    destruct (Hraises ltac:(by eexists) 2%Z ltac:(lia)) as [row Hrow].
    vm_compute in Hrow. discriminate.
  - apply Hnothing. lia.
Defined.
